(** * Spectral Vlasov-Maxwell solver: right-hand side and driver

    A shallow embedding of [spectrax/_simulation.py] ([cross_product],
    [ode_system], [simulation]) and of the index arithmetic of the
    array operations these functions rely on, followed by the properties
    of the right-hand-side assembly and of the trajectory post-processing.

    Arrays are modelled the way the array library stores them: a shape and
    a row-major buffer.  Scalars are kept abstract (a type with the
    arithmetic operations the code uses), so every statement about data
    movement holds for any interpretation of the arithmetic; the algebraic
    identities are stated for exact arithmetic (a commutative ring). *)

From Stdlib Require Import ZArith List Lia Ring QArith Qcanon.
From Stdlib Require PrimFloat Uint63.
From stdpp Require Import gmap strings list fin_maps.

Local Open Scope nat_scope.

(** ** Scalars *)

(** The element type of every array: complex numbers with the operations
    used by the source ([+], [-], [*], [/], unary minus, the literal [1j],
    and the conversion of a counter used by [linspace]). *)
Class Scalar (K : Type) := {
  kzero : K;
  kone : K;
  kadd : K -> K -> K;
  ksub : K -> K -> K;
  kmul : K -> K -> K;
  kdiv : K -> K -> K;
  kopp : K -> K;
  kI : K;
  kofnat : nat -> K
}.

(** Exact arithmetic: the laws of a commutative ring, division compatible
    with multiplication, and [kofnat 0 = 0]. *)
Class ExactScalar (K : Type) `{Scalar K} : Prop := {
  exact_ring : ring_theory kzero kone kadd kmul ksub kopp (@eq K);
  exact_div : forall x y z : K, kmul x (kdiv y z) = kdiv (kmul x y) z;
  exact_ofnat_0 : kofnat 0 = kzero
}.

(** ** Exceptions and the result monad *)

Inductive error :=
  | ValueError
  | TypeError
  | IndexError
  | KeyError (key : string)
  | SolverFailure (code : Z).

Inductive res (A : Type) :=
  | Ok (a : A)
  | Raise (e : error).
Arguments Ok {A} a.
Arguments Raise {A} e.

#[export] Instance res_fmap : FMap res := fun A B f m =>
  match m with
  | Ok a => Ok (f a)
  | Raise e => Raise e
  end.
#[export] Instance res_ret : MRet res := fun A a => Ok a.
#[export] Instance res_bind : MBind res := fun A B f m =>
  match m with
  | Ok a => f a
  | Raise e => Raise e
  end.

(** ** Row-major index arithmetic *)

Definition prod (sh : list nat) : nat := foldr Nat.mul 1 sh.

(** Flat position of a multi-index. *)
Fixpoint ravel (sh idx : list nat) : nat :=
  match sh, idx with
  | _ :: sh', i :: idx' => i * prod sh' + ravel sh' idx'
  | _, _ => 0
  end.

(** Multi-index of a flat position. *)
Fixpoint unravel (sh : list nat) (p : nat) : list nat :=
  match sh with
  | [] => []
  | _ :: sh' => p / prod sh' :: unravel sh' (p mod prod sh')
  end.

(** [idx] addresses an element of an array of shape [sh]. *)
Definition in_bounds (sh idx : list nat) : Prop := Forall2 (fun i n => i < n) idx sh.

(** ** Arrays *)

Section Arrays.
Context {K : Type} `{Scalar K}.

Record array := mkArr { shape : list nat; data : list K }.

Definition well_formed (a : array) : Prop := length (data a) = prod (shape a).

Definition get (a : array) (idx : list nat) : K :=
  default kzero (data a !! ravel (shape a) idx).

Definition tabulate (sh : list nat) (f : list nat -> K) : array :=
  mkArr sh (map (fun p => f (unravel sh p)) (seq 0 (prod sh))).

(** [x.reshape(sh)]: the buffer is kept, the element count must agree. *)
Definition reshape (sh : list nat) (l : list K) : res array :=
  if decide (length l = prod sh) then Ok (mkArr sh l) else Raise ValueError.

(** [x.flatten()] and [x.reshape(-1)]. *)
Definition flatten (a : array) : list K := data a.

(** A Python scalar as a zero-dimensional array. *)
Definition scalar (x : K) : array := mkArr [] [x].

Definition zeros (sh : list nat) : array := tabulate sh (fun _ => kzero).

(** *** Broadcasting

    Shapes are aligned on their last axis; two extents are compatible
    when they are equal or one of them is 1. *)
Definition broadcast_dim (a b : nat) : option nat :=
  if decide (a = b) then Some a
  else if decide (a = 1) then Some b
  else if decide (b = 1) then Some a
  else None.

Fixpoint broadcast_rev (r1 r2 : list nat) : option (list nat) :=
  match r1, r2 with
  | [], r => Some r
  | r, [] => Some r
  | a :: r1', b :: r2' =>
      d ← broadcast_dim a b; r ← broadcast_rev r1' r2'; Some (d :: r)
  end.

Definition broadcast_shapes (sh1 sh2 : list nat) : option (list nat) :=
  reverse <$> broadcast_rev (reverse sh1) (reverse sh2).

(** The index an operand of shape [sh] is read at, for the element [idx]
    of the broadcast result. *)
Definition project (sh idx : list nat) : list nat :=
  zip_with (fun n i => if decide (n = 1) then 0 else i) sh
           (drop (length idx - length sh) idx).

Definition bget (a : array) (idx : list nat) : K := get a (project (shape a) idx).

Definition arr_map (f : K -> K) (a : array) : array :=
  mkArr (shape a) (map f (data a)).

Definition arr_map2 (f : K -> K -> K) (a b : array) : res array :=
  match broadcast_shapes (shape a) (shape b) with
  | Some sh => Ok (tabulate sh (fun idx => f (bget a idx) (bget b idx)))
  | None => Raise ValueError
  end.

Definition arr_neg : array -> array := arr_map kopp.
Definition arr_sub : array -> array -> res array := arr_map2 ksub.
Definition arr_mul : array -> array -> res array := arr_map2 kmul.
Definition arr_div : array -> array -> res array := arr_map2 kdiv.

(** *** Indexing and slicing *)

(** [x[i]] for an integer [i] inside the leading axis. *)
Definition row (i : nat) (x : array) : array :=
  let sh := tail (shape x) in
  mkArr sh (take (prod sh) (drop (i * prod sh) (data x))).

(** [a, b, c = x]: iteration over the leading axis, which must have
    extent 3. *)
Definition unpack3 (x : array) : res (array * array * array) :=
  match shape x with
  | 3 :: _ => Ok (row 0 x, row 1 x, row 2 x)
  | _ => Raise ValueError
  end.

(** [jnp.array([a, b, c])]: the three arrays must have one shape. *)
Definition stack3 (a b c : array) : res array :=
  if decide (shape a = shape b /\ shape b = shape c)
  then Ok (mkArr (3 :: shape a) (data a ++ data b ++ data c))
  else Raise ValueError.

(** [x[:k]] and [x[k:]] for a non-negative [k]. *)
Definition slice_to (k : nat) (x : array) : res array :=
  match shape x with
  | [] => Raise IndexError
  | n :: sh => Ok (mkArr (Nat.min k n :: sh) (take (Nat.min k n * prod sh) (data x)))
  end.

Definition slice_from (k : nat) (x : array) : res array :=
  match shape x with
  | [] => Raise IndexError
  | n :: sh => Ok (mkArr ((n - Nat.min k n) :: sh) (drop (Nat.min k n * prod sh) (data x)))
  end.

(** [x[i]] for a non-negative integer [i]: the index is clamped to the
    axis, and an axis of extent 0 cannot be indexed. *)
Definition index0 (i : nat) (x : array) : res array :=
  match shape x with
  | [] => Raise IndexError
  | n :: _ =>
      if decide (n = 0) then Raise IndexError
      else Ok (row (Nat.min i (n - 1)) x)
  end.

(** Start or stop of a Python slice over an axis of extent [n]: negative
    values count from the end, and the result is clipped to the axis. *)
Definition slice_bound (n : nat) (i : Z) : nat :=
  if (i <? 0)%Z then Z.to_nat (Z.max 0 (Z.of_nat n + i)) else Nat.min (Z.to_nat i) n.

(** [x[:, :stop]] and [x[:, start:]]. *)
Definition cols_to (stop : Z) (x : array) : res array :=
  match shape x with
  | t :: l :: sh =>
      Ok (tabulate (t :: slice_bound l stop :: sh) (get x))
  | _ => Raise IndexError
  end.

Definition cols_from (start : Z) (x : array) : res array :=
  match shape x with
  | t :: l :: sh =>
      let lo := slice_bound l start in
      Ok (tabulate (t :: (l - lo) :: sh)
            (fun idx => match idx with
                        | i :: j :: r => get x (i :: lo + j :: r)
                        | _ => kzero
                        end))
  | _ => Raise IndexError
  end.

(** [jnp.concatenate([a, b], axis=0)]. *)
Definition concatenate0 (a b : array) : res array :=
  match shape a, shape b with
  | n :: sa, m :: sb =>
      if decide (sa = sb) then Ok (mkArr ((n + m) :: sa) (data a ++ data b))
      else Raise ValueError
  | _, _ => Raise ValueError
  end.

(** *** Indexed update [x.at[pattern].set(v)]

    A pattern entry is an integer or the full slice [:]; missing trailing
    entries are full slices.  Updates whose integer index lies outside
    its axis are dropped; an axis of extent 0 cannot be indexed by an
    integer. *)
Definition index_pattern := list (option nat).

Definition matches (pat : index_pattern) (idx : list nat) : bool :=
  forallb id (zip_with (fun p i => match p with
                                   | None => true
                                   | Some j => bool_decide (j = i)
                                   end) pat idx).

Definition indexes_empty_axis (pat : index_pattern) (sh : list nat) : bool :=
  existsb id (zip_with (fun p n => match p with
                                   | None => false
                                   | Some _ => bool_decide (n = 0)
                                   end) pat sh).

Definition at_set (x : array) (pat : index_pattern) (v : K) : res array :=
  if decide (length (shape x) < length pat) then Raise IndexError
  else if indexes_empty_axis pat (shape x) then Raise IndexError
  else Ok (mkArr (shape x)
             (imap (fun p e => if matches pat (unravel (shape x) p) then v else e)
                   (data x))).

(** *** Frequency shift [jnp.fft.ifftshift(x, axes=(-3, -2, -1))]

    Along each of the last [k] axes, of extent [n], the element at
    position [(i + n / 2) mod n] moves to position [i]. *)
Fixpoint ifftshift_index (k : nat) (sh idx : list nat) : list nat :=
  match sh, idx with
  | n :: sh', i :: idx' =>
      (if decide (length sh' < k) then (i + n / 2) mod n else i)
        :: ifftshift_index k sh' idx'
  | _, _ => []
  end.

Definition ifftshift (k : nat) (x : array) : res array :=
  if decide (k <= length (shape x))
  then Ok (tabulate (shape x) (fun idx => get x (ifftshift_index k (shape x) idx)))
  else Raise ValueError.

(** *** [jnp.linspace(start, stop, num)] (end point included) *)
Definition linspace (start stop : K) (num : nat) : list K :=
  match num with
  | 0 => []
  | 1 => [start]
  | S div =>
      map (fun i => let step := kdiv (kofnat i) (kofnat div) in
                    kadd (kmul start (ksub kone step)) (kmul stop step))
          (seq 0 div) ++ [stop]
  end.

(** One component [p * q - r * s] of a cross product, as the table of
    its elements over the broadcast shape [sh]. *)
Definition cross_term (sh : list nat) (p q r s : array) : array :=
  tabulate sh (fun idx => ksub (kmul (bget p idx) (bget q idx))
                               (kmul (bget r idx) (bget s idx))).

(** *** The 3-vector cross product [cross_product]. *)
Definition cross_product (k_vec F_vec : array) : res array :=
  '(kx, ky, kz) ← unpack3 k_vec;
  '(Fx, Fy, Fz) ← unpack3 F_vec;
  kyFz ← arr_mul ky Fz; kzFy ← arr_mul kz Fy; cx ← arr_sub kyFz kzFy;
  kzFx ← arr_mul kz Fx; kxFz ← arr_mul kx Fz; cy ← arr_sub kzFx kxFz;
  kxFy ← arr_mul kx Fy; kyFx ← arr_mul ky Fx; cz ← arr_sub kxFy kyFx;
  stack3 cx cy cz.

(** The last [n] entries of a flat vector, [v[-n:]] for [0 < n <= len(v)]. *)
Definition lastn (n : nat) (v : list K) : list K := drop (length v - n) v.

(** *** Pointwise reading of a flattened block

    A block of shape [(k, Ny, Nx, Nz)] is stored component after
    component; [comp v G c g] is component [c] at grid point [g], where
    [G = Ny * Nx * Nz]. *)
Definition comp (v : list K) (G c g : nat) : K := default kzero (v !! (c * G + g)).

Definition vec3_at (v : list K) (G c g : nat) : K * K * K :=
  (comp v G c g, comp v G (c + 1) g, comp v G (c + 2) g).

(** The cross product of two 3-vectors, as the specification writes it:
    [(a x b)_x = a_y b_z - a_z b_y], cyclic. *)
Definition cross3 (a b : K * K * K) : K * K * K :=
  let '(ax, ay, az) := a in
  let '(bx, by_, bz) := b in
  (ksub (kmul ay bz) (kmul az by_),
   ksub (kmul az bx) (kmul ax bz),
   ksub (kmul ax by_) (kmul ay bx)).

Definition map3 (f : K -> K) (a : K * K * K) : K * K * K :=
  let '(x, y, z) := a in (f x, f y, f z).

Definition sub3 (a b : K * K * K) : K * K * K :=
  let '(ax, ay, az) := a in
  let '(bx, by_, bz) := b in
  (ksub ax bx, ksub ay by_, ksub az bz).

(** The Maxwell contract of the specification at one grid point:
    [dB/dt = -i (nabla x E)] and [dE/dt = i (nabla x B) - J / Omega_ce]. *)
Definition maxwell_dB (nabla E : K * K * K) : K * K * K :=
  map3 (kmul (kopp kI)) (cross3 nabla E).

Definition maxwell_dE (nabla B J : K * K * K) (Omega_ce : K) : K * K * K :=
  sub3 (map3 (kmul kI) (cross3 nabla B)) (map3 (fun j => kdiv j Omega_ce) J).
End Arrays.
Arguments array K : clear implicits.

(** ** Dynamically typed values and parameter dictionaries *)

Inductive value (K : Type) :=
  | VInt (n : Z)
  | VNum (x : K)
  | VArr (a : array K).
Arguments VInt {K} n.
Arguments VNum {K} x.
Arguments VArr {K} a.

Abbreviation dict K := (gmap string (value K)).

Section Values.
Context {K : Type} `{Scalar K}.

Definition as_arr (v : value K) : res (array K) :=
  match v with VArr a => Ok a | _ => Raise TypeError end.

Definition as_num (v : value K) : res K :=
  match v with VNum x => Ok x | _ => Raise TypeError end.

(** [d[key]] *)
Definition getitem (d : dict K) (key : string) : res (value K) :=
  match d !! key with
  | Some v => Ok v
  | None => Raise (KeyError key)
  end.

(** A one-dimensional array. *)
Definition vec (l : list K) : array K := mkArr [length l] l.
End Values.

(** ** The integrator interface (diffrax) *)

Inductive AbstractSolver := Tsit5 | Dopri5.
Inductive AbstractProgressMeter := TqdmProgressMeter | NoProgressMeter.
Inductive AbstractStepSizeController (K : Type) :=
  | PIDController (rtol atol : K)
  | ConstantStepSize.
Arguments PIDController {K} rtol atol.
Arguments ConstantStepSize {K}.

(** The keyword arguments of one [diffeqsolve] invocation. *)
Record diffeqsolve_call (K : Type) := mkCall {
  terms : K -> list K -> list (value K) -> res (list K);
  solver : AbstractSolver;
  stepsize_controller : AbstractStepSizeController K;
  t0 : K;
  t1 : K;
  dt0 : K;
  y0 : list K;
  args : list (value K);
  saveat : list K;
  max_steps : Z;
  progress_meter : AbstractProgressMeter
}.
Arguments mkCall {K}.
Arguments terms {K}. Arguments solver {K}. Arguments stepsize_controller {K}.
Arguments t0 {K}. Arguments t1 {K}. Arguments dt0 {K}. Arguments y0 {K}.
Arguments args {K}. Arguments saveat {K}. Arguments max_steps {K}.
Arguments progress_meter {K}.

(** What [diffeqsolve] returns: the sample times and one state per row. *)
Record solution (K : Type) := mkSol { ts : list K; ys : array K }.
Arguments mkSol {K}. Arguments ts {K}. Arguments ys {K}.

(** [diffrax.SaveAt(ts=time)]: an empty array of output times is turned
    into "no output times", and a [SaveAt] that would save nothing is
    refused with [ValueError]. *)
Definition SaveAt {K : Type} (ts : list K) : res (list K) :=
  match ts with
  | [] => Raise ValueError
  | _ => Ok ts
  end.

(** ** The driver monad: exceptions plus the record of integrator calls *)

Definition sim (K A : Type) : Type :=
  list (diffeqsolve_call K) -> res A * list (diffeqsolve_call K).

#[export] Instance sim_ret {K} : MRet (sim K) := fun A a log => (Ok a, log).
#[export] Instance sim_bind {K} : MBind (sim K) := fun A B f m log =>
  match m log with
  | (Ok a, log') => f a log'
  | (Raise e, log') => (Raise e, log')
  end.

Definition lift {K A} (r : res A) : sim K A := fun log => (r, log).

(** ** The source functions *)

Section Simulation.
Context {K : Type} `{Scalar K}.

(** *** Collaborators that are imported by [_simulation.py] *)

(** [jnp.fft.ifftn(x, axes=(-3, -2, -1), norm="forward")] *)
Variable ifftn : array K -> res (array K).

(** [_model._twothirds_mask(Ny, Nx, Nz)] *)
Variable _twothirds_mask : nat -> nat -> nat -> value K.

(** [_model.Hermite_Fourier_system(Ck, C, F, kx_grid, ky_grid, kz_grid,
    k2_grid, col, sqrt_n_plus, sqrt_n_minus, sqrt_m_plus, sqrt_m_minus,
    sqrt_p_plus, sqrt_p_minus, Lx, Ly, Lz, nu, D, alpha_s, u_s, qs,
    Omega_cs, Nn, Nm, Np, Ns, mask23)] *)
Variable Hermite_Fourier_system :
  array K -> array K -> array K ->
  value K -> value K -> value K -> value K -> value K ->
  value K -> value K -> value K -> value K -> value K -> value K ->
  value K -> value K -> value K -> value K -> value K ->
  value K -> value K -> value K -> value K ->
  nat -> nat -> nat -> nat -> value K -> res (array K).

(** [_model.plasma_current(qs, alpha_s, u_s, Ck, Nn, Nm, Np, Ns)] *)
Variable plasma_current :
  value K -> value K -> value K -> array K -> nat -> nat -> nat -> nat ->
  res (array K).

(** [_initialization.initialize_simulation_parameters(input_parameters,
    Nx, Ny, Nz, Nn, Nm, Np, Ns, timesteps, dt)] *)
Variable initialize_simulation_parameters :
  dict K -> nat -> nat -> nat -> nat -> nat -> nat -> nat -> nat -> K ->
  res (dict K).

(** [diffrax.diffeqsolve] *)
Variable diffeqsolve : diffeqsolve_call K -> res (solution K).

(** [_diagnostics.diagnostics(output)], which updates [output] in place:
    the dictionary after the call. *)
Variable diagnostics : dict K -> res (dict K).

(** *** What the specification promises about the collaborators *)

Definition ifftn_returns : Prop := forall x, exists y, ifftn x = Ok y.

Definition Hermite_Fourier_system_returns : Prop :=
  forall Ck C F kx_grid ky_grid kz_grid k2_grid col
         sqrt_n_plus sqrt_n_minus sqrt_m_plus sqrt_m_minus sqrt_p_plus sqrt_p_minus
         Lx Ly Lz nu D alpha_s u_s qs Omega_cs Nn Nm Np Ns mask23,
  exists dCk_s_dt,
    Hermite_Fourier_system Ck C F kx_grid ky_grid kz_grid k2_grid col
      sqrt_n_plus sqrt_n_minus sqrt_m_plus sqrt_m_minus sqrt_p_plus sqrt_p_minus
      Lx Ly Lz nu D alpha_s u_s qs Omega_cs Nn Nm Np Ns mask23 = Ok dCk_s_dt.

(** Section 4.4: the output is shaped identically to [Ck]. *)
Definition Hermite_Fourier_system_shaped : Prop :=
  forall Ck C F kx_grid ky_grid kz_grid k2_grid col
         sqrt_n_plus sqrt_n_minus sqrt_m_plus sqrt_m_minus sqrt_p_plus sqrt_p_minus
         Lx Ly Lz nu D alpha_s u_s qs Omega_cs Nn Nm Np Ns mask23 dCk_s_dt,
    Hermite_Fourier_system Ck C F kx_grid ky_grid kz_grid k2_grid col
      sqrt_n_plus sqrt_n_minus sqrt_m_plus sqrt_m_minus sqrt_p_plus sqrt_p_minus
      Lx Ly Lz nu D alpha_s u_s qs Omega_cs Nn Nm Np Ns mask23 = Ok dCk_s_dt ->
    shape dCk_s_dt = shape Ck /\ length (data dCk_s_dt) = length (data Ck).

(** Section 4.2: a 3-component current density over the spatial grid of
    [Ck]. *)
Definition plasma_current_returns : Prop :=
  forall qs alpha_s u_s Ck Nn Nm Np Ns m sh,
    shape Ck = m :: sh ->
    exists current,
      plasma_current qs alpha_s u_s Ck Nn Nm Np Ns = Ok current
      /\ shape current = 3 :: sh.

(** The integrator samples the solution at the requested times: one
    state, of the length of the initial state, per requested time. *)
Definition diffeqsolve_samples : Prop :=
  forall c sol, diffeqsolve c = Ok sol ->
    ts sol = saveat c /\ shape (ys sol) = [length (saveat c); length (y0 c)].

(** [diagnostics] returns, and only adds entries to [output]. *)
Definition diagnostics_extends : Prop :=
  forall d, exists d', diagnostics d = Ok d' /\ d ⊆ d'.

(** [diagnostics] leaves the entries [output] already has untouched. *)
Definition diagnostics_preserves : Prop :=
  forall d d', diagnostics d = Ok d' -> d ⊆ d'.

(** *** State packing *)

(** Lines 76-78: the two blocks of the flattened state. *)
Definition unpack_state (Nx Ny Nz Nn Nm Np Ns : nat) (Ck_Fk : list K)
  : res (array K * array K) :=
  let total_Ck_size := Nn * Nm * Np * Ns * Nx * Ny * Nz in
  Ck ← reshape [Nn * Nm * Np * Ns; Ny; Nx; Nz] (take total_Ck_size Ck_Fk);
  Fk ← reshape [6; Ny; Nx; Nz] (drop total_Ck_size Ck_Fk);
  Ok (Ck, Fk).

(** *** [ode_system] *)
Definition ode_system (Nx Ny Nz Nn Nm Np Ns : nat) (t : K)
  (Ck_Fk : list K) (args : list (value K)) : res (list K) :=
  match drop 7 args with
  | [qs; nu; D; Omega_cs; alpha_s; u_s; Lx; Ly; Lz;
     kx_grid; ky_grid; kz_grid; k2_grid; nabla; col;
     sqrt_n_plus; sqrt_n_minus; sqrt_m_plus; sqrt_m_minus;
     sqrt_p_plus; sqrt_p_minus] =>
      '(Ck, Fk) ← unpack_state Nx Ny Nz Nn Nm Np Ns Ck_Fk;
      sFk ← ifftshift 3 Fk; F ← ifftn sFk;
      sCk ← ifftshift 3 Ck; C ← ifftn sCk;
      let mask23 := _twothirds_mask Ny Nx Nz in
      dCk_s_dt ← Hermite_Fourier_system Ck C F kx_grid ky_grid kz_grid k2_grid
                    col sqrt_n_plus sqrt_n_minus sqrt_m_plus sqrt_m_minus
                    sqrt_p_plus sqrt_p_minus Lx Ly Lz nu D alpha_s u_s qs
                    Omega_cs Nn Nm Np Ns mask23;
      nabla_a ← as_arr nabla;
      FkE ← slice_to 3 Fk;
      cE ← cross_product nabla_a FkE;
      dBk_dt ← arr_mul (scalar (kopp kI)) cE;
      current ← plasma_current qs alpha_s u_s Ck Nn Nm Np Ns;
      FkB ← slice_from 3 Fk;
      cB ← cross_product nabla_a FkB;
      icB ← arr_mul (scalar kI) cB;
      Omega ← as_arr Omega_cs;
      Omega_cs0 ← index0 0 Omega;
      JO ← arr_div current Omega_cs0;
      dEk_dt ← arr_sub icB JO;
      dFk_dt ← concatenate0 dEk_dt dBk_dt;
      Ok (flatten dCk_s_dt ++ flatten dFk_dt)
  | _ => Raise ValueError
  end.

(** *** [simulation] *)

(** The parameter entries that follow the seven mode counts in [args],
    in the order of lines 140-145. *)
Definition arg_keys : list string :=
  ["qs"; "nu"; "D"; "Omega_cs"; "alpha_s"; "u_s"; "Lx"; "Ly"; "Lz";
   "kx_grid"; "ky_grid"; "kz_grid"; "k2_grid"; "nabla"; "collision_matrix";
   "sqrt_n_plus"; "sqrt_n_minus"; "sqrt_m_plus"; "sqrt_m_minus";
   "sqrt_p_plus"; "sqrt_p_minus"].

Fixpoint getitems (d : dict K) (keys : list string) : res (list (value K)) :=
  match keys with
  | [] => Ok []
  | k :: keys' => v ← getitem d k; vs ← getitems d keys'; Ok (v :: vs)
  end.

(** The single place where the integrator is invoked; the invocation is
    recorded. *)
Definition invoke (c : diffeqsolve_call K) : sim K (solution K) :=
  fun log => (diffeqsolve c, log ++ [c]).

(** The two index patterns of lines 164-165. *)
Definition first_species_pattern : index_pattern :=
  [None; Some 0; Some 0; Some 1; Some 0].
Definition second_species_pattern (Nn Nm Np : nat) : index_pattern :=
  [None; Some (Nn * Nm * Np); Some 0; Some 1; Some 0].

(** Lines 159-165: the labelled arrays cut out of the sampled states. *)
Definition postprocess (Nx Ny Nz Nn Nm Np Ns : nat) (sol : solution K)
  : res (array K * array K * array K) :=
  let cut := (- 6 * Z.of_nat Nx * Z.of_nat Ny * Z.of_nat Nz)%Z in
  Ck2 ← cols_to cut (ys sol);
  Ck ← reshape [length (ts sol); Ns * Nn * Nm * Np; Ny; Nx; Nz] (flatten Ck2);
  Fk2 ← cols_from cut (ys sol);
  Fk ← reshape [length (ts sol); 6; Ny; Nx; Nz] (flatten Fk2);
  dCk ← at_set Ck first_species_pattern kzero;
  dCk ← at_set dCk (second_species_pattern Nn Nm Np) kzero;
  Ok (Ck, Fk, dCk).

(** Line 168. *)
Definition temporary_output (Ck Fk dCk : array K) (time : list K) : dict K :=
  <["Ck" := VArr Ck]> (<["Fk" := VArr Fk]> (<["time" := VArr (vec time)]>
    (<["dCk" := VArr dCk]> ∅))).

Definition simulation (input_parameters : dict K)
  (Nx Ny Nz Nn Nm Np Ns timesteps : nat) (dt : K) (solver : AbstractSolver)
  : sim K (dict K) :=
  parameters ← lift (initialize_simulation_parameters input_parameters
                       Nx Ny Nz Nn Nm Np Ns timesteps dt);
  Ck_0 ← lift (getitem parameters "Ck_0" ≫= as_arr);
  Fk_0 ← lift (getitem parameters "Fk_0" ≫= as_arr);
  let initial_conditions := flatten Ck_0 ++ flatten Fk_0 in
  t_max ← lift (getitem parameters "t_max" ≫= as_num);
  let time := linspace kzero t_max timesteps in
  params ← lift (getitems parameters arg_keys);
  let args := map (fun n => VInt (Z.of_nat n)) [Nx; Ny; Nz; Nn; Nm; Np; Ns]
                ++ params in
  let ode_system_partial := ode_system Nx Ny Nz Nn Nm Np Ns in
  rtol ← lift (getitem parameters "ode_tolerance" ≫= as_num);
  atol ← lift (getitem parameters "ode_tolerance" ≫= as_num);
  t1 ← lift (getitem parameters "t_max" ≫= as_num);
  saveat ← lift (SaveAt time);
  sol ← invoke (mkCall ode_system_partial solver (PIDController rtol atol)
                  kzero t1 dt initial_conditions args saveat
                  1000000 TqdmProgressMeter);
  '(Ck, Fk, dCk) ← lift (postprocess Nx Ny Nz Nn Nm Np Ns sol);
  let output := parameters ∪ temporary_output Ck Fk dCk time in
  output ← lift (diagnostics output);
  mret output.

(** The keyword arguments [simulation] passes to [diffeqsolve] (lines
    148-155), for the parameter entries it read. *)
Definition simulation_call (Nx Ny Nz Nn Nm Np Ns timesteps : nat) (dt : K)
  (solver : AbstractSolver) (Ck_0 Fk_0 : array K) (t_max tol : K)
  (params : list (value K)) : diffeqsolve_call K :=
  mkCall (ode_system Nx Ny Nz Nn Nm Np Ns) solver (PIDController tol tol)
    kzero t_max dt (flatten Ck_0 ++ flatten Fk_0)
    (map (fun n => VInt (Z.of_nat n)) [Nx; Ny; Nz; Nn; Nm; Np; Ns] ++ params)
    (linspace kzero t_max timesteps) 1000000 TqdmProgressMeter.

(** What [simulation] does with the solution (lines 159-171). *)
Definition simulation_finish (Nx Ny Nz Nn Nm Np Ns timesteps : nat)
  (parameters : dict K) (t_max : K) (sol : solution K) : res (dict K) :=
  '(Ck, Fk, dCk) ← postprocess Nx Ny Nz Nn Nm Np Ns sol;
  diagnostics (parameters
               ∪ temporary_output Ck Fk dCk (linspace kzero t_max timesteps)).
End Simulation.

(** ** [ode_system] with the effects of its helpers made explicit

    The helpers that [ode_system] calls are Python callables imported from
    other modules: a call could read or change state that [ode_system] does
    not see (module globals, caches, a random generator).  That state is a
    value of a type [W]; a helper call receives the current state and
    returns the next one with its result.  [ode_system] itself assigns
    local names only, so the state is threaded through its helper calls, in
    the order of the source, and through nothing else. *)

Definition eff (W A : Type) : Type := W -> res A * W.

Definition eff_ret {W A : Type} (a : A) : eff W A := fun w => (Ok a, w).

Definition eff_bind {W A B : Type} (m : eff W A) (f : A -> eff W B) : eff W B :=
  fun w => match m w with
           | (Ok a, w') => f a w'
           | (Raise e, w') => (Raise e, w')
           end.

(** A computation that neither reads nor changes the hidden state. *)
Definition eff_lift {W A : Type} (r : res A) : eff W A := fun w => (r, w).

(** [m] behaves as the pure computation [r]: from every state it returns
    [r] and leaves the state as it was. *)
Definition stateless {W A : Type} (m : eff W A) (r : res A) : Prop :=
  forall w, m w = (r, w).

Section Effects.
Context {K : Type} `{Scalar K} {W : Type}.

Variable ifftn : array K -> eff W (array K).
Variable _twothirds_mask : nat -> nat -> nat -> eff W (value K).
Variable Hermite_Fourier_system :
  array K -> array K -> array K ->
  value K -> value K -> value K -> value K -> value K ->
  value K -> value K -> value K -> value K -> value K -> value K ->
  value K -> value K -> value K -> value K -> value K ->
  value K -> value K -> value K -> value K ->
  nat -> nat -> nat -> nat -> value K -> eff W (array K).
Variable plasma_current :
  value K -> value K -> value K -> array K -> nat -> nat -> nat -> nat ->
  eff W (array K).

Local Notation "x <~ m ; k" := (eff_bind m (fun x => k))
  (at level 20, m at level 100, k at level 200, only parsing).

Definition ode_system_eff (Nx Ny Nz Nn Nm Np Ns : nat) (t : K)
  (Ck_Fk : list K) (args : list (value K)) : eff W (list K) :=
  match drop 7 args with
  | [qs; nu; D; Omega_cs; alpha_s; u_s; Lx; Ly; Lz;
     kx_grid; ky_grid; kz_grid; k2_grid; nabla; col;
     sqrt_n_plus; sqrt_n_minus; sqrt_m_plus; sqrt_m_minus;
     sqrt_p_plus; sqrt_p_minus] =>
      blocks <~ eff_lift (unpack_state Nx Ny Nz Nn Nm Np Ns Ck_Fk);
      let '(Ck, Fk) := blocks in
      sFk <~ eff_lift (ifftshift 3 Fk); F <~ ifftn sFk;
      sCk <~ eff_lift (ifftshift 3 Ck); C <~ ifftn sCk;
      mask23 <~ _twothirds_mask Ny Nx Nz;
      dCk_s_dt <~ Hermite_Fourier_system Ck C F kx_grid ky_grid kz_grid k2_grid
                    col sqrt_n_plus sqrt_n_minus sqrt_m_plus sqrt_m_minus
                    sqrt_p_plus sqrt_p_minus Lx Ly Lz nu D alpha_s u_s qs
                    Omega_cs Nn Nm Np Ns mask23;
      nabla_a <~ eff_lift (as_arr nabla);
      FkE <~ eff_lift (slice_to 3 Fk);
      cE <~ eff_lift (cross_product nabla_a FkE);
      dBk_dt <~ eff_lift (arr_mul (scalar (kopp kI)) cE);
      current <~ plasma_current qs alpha_s u_s Ck Nn Nm Np Ns;
      FkB <~ eff_lift (slice_from 3 Fk);
      cB <~ eff_lift (cross_product nabla_a FkB);
      icB <~ eff_lift (arr_mul (scalar kI) cB);
      Omega <~ eff_lift (as_arr Omega_cs);
      Omega_cs0 <~ eff_lift (index0 0 Omega);
      JO <~ eff_lift (arr_div current Omega_cs0);
      dEk_dt <~ eff_lift (arr_sub icB JO);
      dFk_dt <~ eff_lift (concatenate0 dEk_dt dBk_dt);
      eff_ret (flatten dCk_s_dt ++ flatten dFk_dt)
  | _ => eff_lift (Raise ValueError)
  end.
End Effects.

(** ** The perturbation array as the specification describes it

    The background entry of species [s] is the Hermite triplet (0,0,0),
    stored at moment index [s * Nn * Nm * Np], at the centre of the shifted
    spatial grid, [int((N - 1) / 2)] along an axis of [N] modes (the index
    [_plot.py] reads the zero mode at). *)

Definition centre (N : nat) : nat := (N - 1) / 2.

Definition is_background (Nx Ny Nz Nn Nm Np Ns : nat) (idx : list nat) : bool :=
  match idx with
  | [_; c; y; x; z] =>
      existsb (fun s => bool_decide (c = s * (Nn * Nm * Np))) (seq 0 Ns)
      && bool_decide (y = centre Ny) && bool_decide (x = centre Nx)
      && bool_decide (z = centre Nz)
  | _ => false
  end.

Definition dCk_spec {K : Type} `{Scalar K} (Nx Ny Nz Nn Nm Np Ns : nat)
  (Ck : array K) : array K :=
  tabulate (shape Ck)
    (fun idx => if is_background Nx Ny Nz Nn Nm Np Ns idx then kzero else get Ck idx).

(** ** A concrete scalar type: Gaussian rationals *)

Module Gauss.
Definition t : Type := (Qc * Qc)%type.
Definition zero : t := (Q2Qc 0, Q2Qc 0).
Definition one : t := (Q2Qc 1, Q2Qc 0).
Definition I : t := (Q2Qc 0, Q2Qc 1).
Definition add (x y : t) : t := (Qcplus x.1 y.1, Qcplus x.2 y.2).
Definition sub (x y : t) : t := (Qcminus x.1 y.1, Qcminus x.2 y.2).
Definition opp (x : t) : t := (Qcopp x.1, Qcopp x.2).
Definition mul (x y : t) : t :=
  (Qcminus (Qcmult x.1 y.1) (Qcmult x.2 y.2),
   Qcplus (Qcmult x.1 y.2) (Qcmult x.2 y.1)).
Definition inv (x : t) : t :=
  let n := Qcplus (Qcmult x.1 x.1) (Qcmult x.2 x.2) in
  (Qcdiv x.1 n, Qcopp (Qcdiv x.2 n)).
Definition div (x y : t) : t := mul x (inv y).
Definition of_nat (n : nat) : t := (Q2Qc (inject_Z (Z.of_nat n)), Q2Qc 0).
End Gauss.

#[export] Instance gauss_scalar : Scalar Gauss.t := {|
  kzero := Gauss.zero;
  kone := Gauss.one;
  kadd := Gauss.add;
  ksub := Gauss.sub;
  kmul := Gauss.mul;
  kdiv := Gauss.div;
  kopp := Gauss.opp;
  kI := Gauss.I;
  kofnat := Gauss.of_nat
|}.

(** ** The scalar type of the program: complex128

    A pair of binary64 numbers with the arithmetic of the hardware:
    componentwise sum and difference, the product
    [(a c - b d) + (a d + b c) i] and the quotient by the same formula
    over [c c + d d]; sums, differences and products round, overflow to an
    infinity, and the difference of two infinities is not a number. *)

Module Complex128.
Import PrimFloat.
Definition t : Type := (float * float)%type.
Definition zero : t := (0%float, 0%float).
Definition one : t := (1%float, 0%float).
Definition I : t := (0%float, 1%float).
Definition add (x y : t) : t := (PrimFloat.add x.1 y.1, PrimFloat.add x.2 y.2).
Definition sub (x y : t) : t := (PrimFloat.sub x.1 y.1, PrimFloat.sub x.2 y.2).
Definition opp (x : t) : t := (PrimFloat.opp x.1, PrimFloat.opp x.2).
Definition mul (x y : t) : t :=
  (PrimFloat.sub (PrimFloat.mul x.1 y.1) (PrimFloat.mul x.2 y.2),
   PrimFloat.add (PrimFloat.mul x.1 y.2) (PrimFloat.mul x.2 y.1)).
Definition div (x y : t) : t :=
  let n := PrimFloat.add (PrimFloat.mul y.1 y.1) (PrimFloat.mul y.2 y.2) in
  (PrimFloat.div (PrimFloat.add (PrimFloat.mul x.1 y.1) (PrimFloat.mul x.2 y.2)) n,
   PrimFloat.div (PrimFloat.sub (PrimFloat.mul x.2 y.1) (PrimFloat.mul x.1 y.2)) n).
Definition of_nat (n : nat) : t :=
  (PrimFloat.of_uint63 (Uint63.of_Z (Z.of_nat n)), 0%float).
(** The real number [2^700]: its square exceeds the largest binary64. *)
Definition huge : t := (0x1p700%float, 0%float).
Definition is_nan (x : t) : bool := PrimFloat.is_nan x.1 || PrimFloat.is_nan x.2.
End Complex128.

#[export] Instance complex128_scalar : Scalar Complex128.t := {|
  kzero := Complex128.zero;
  kone := Complex128.one;
  kadd := Complex128.add;
  ksub := Complex128.sub;
  kmul := Complex128.mul;
  kdiv := Complex128.div;
  kopp := Complex128.opp;
  kI := Complex128.I;
  kofnat := Complex128.of_nat
|}.

(** ** Sample collaborators

    Simple stand-ins for the imported functions, used to run the model on
    concrete inputs: a shape-preserving transform, a linear damping term, a
    vanishing current, uniform initial data, an integrator that keeps the
    state at its initial value, and a diagnostics pass that records one
    entry. *)

Section Samples.
Context {K : Type} `{Scalar K}.

Definition sample_ifftn (x : array K) : res (array K) := Ok x.

Definition sample_mask (Ny Nx Nz : nat) : value K :=
  VArr (tabulate [Ny; Nx; Nz] (fun _ => kone)).

Definition sample_Hermite_Fourier_system (Ck C F : array K)
  (kx_grid ky_grid kz_grid k2_grid col
   sqrt_n_plus sqrt_n_minus sqrt_m_plus sqrt_m_minus sqrt_p_plus sqrt_p_minus
   Lx Ly Lz nu D alpha_s u_s qs Omega_cs : value K)
  (Nn Nm Np Ns : nat) (mask23 : value K) : res (array K) :=
  Ok (arr_neg Ck).

Definition sample_plasma_current (qs alpha_s u_s : value K) (Ck : array K)
  (Nn Nm Np Ns : nat) : res (array K) :=
  Ok (zeros (3 :: tail (shape Ck))).

Definition sample_parameters (Nx Ny Nz Nn Nm Np Ns : nat) : dict K :=
  let grid := VArr (tabulate [Ny; Nx; Nz] (fun _ => kone)) in
  let two := VArr (vec [kopp kone; kone]) in
  list_to_map
    [("Ck_0", VArr (tabulate [Ns * Nn * Nm * Np; Ny; Nx; Nz] (fun _ => kone)));
     ("Fk_0", VArr (tabulate [6; Ny; Nx; Nz] (fun _ => kone)));
     ("t_max", VNum kone); ("ode_tolerance", VNum kone);
     ("qs", two); ("nu", VNum kzero); ("D", VNum kzero); ("Omega_cs", two);
     ("alpha_s", two); ("u_s", two);
     ("Lx", VNum kone); ("Ly", VNum kone); ("Lz", VNum kone);
     ("kx_grid", grid); ("ky_grid", grid); ("kz_grid", grid); ("k2_grid", grid);
     ("nabla", VArr (tabulate [3; Ny; Nx; Nz] (fun _ => kone)));
     ("collision_matrix", grid);
     ("sqrt_n_plus", two); ("sqrt_n_minus", two); ("sqrt_m_plus", two);
     ("sqrt_m_minus", two); ("sqrt_p_plus", two); ("sqrt_p_minus", two)].

Definition sample_initialize (input_parameters : dict K)
  (Nx Ny Nz Nn Nm Np Ns timesteps : nat) (dt : K) : res (dict K) :=
  Ok (sample_parameters Nx Ny Nz Nn Nm Np Ns).

Definition sample_diffeqsolve (c : diffeqsolve_call K) : res (solution K) :=
  Ok (mkSol (saveat c)
        (tabulate [length (saveat c); length (y0 c)]
           (fun idx => match idx with
                       | [_; j] => default kzero (y0 c !! j)
                       | _ => kzero
                       end))).

Definition sample_diagnostics (output : dict K) : res (dict K) :=
  Ok (output ∪ {["total_energy" := VNum kzero]}).

(** The entries [sample_parameters] holds under [arg_keys], and the
    tuple [args] that [simulation] builds from them. *)
Definition sample_params (Nx Ny Nz : nat) : list (value K) :=
  let grid := VArr (tabulate [Ny; Nx; Nz] (fun _ => kone)) in
  let two := VArr (vec [kopp kone; kone]) in
  [two; VNum kzero; VNum kzero; two; two; two;
   VNum kone; VNum kone; VNum kone; grid; grid; grid; grid;
   VArr (tabulate [3; Ny; Nx; Nz] (fun _ => kone)); grid;
   two; two; two; two; two; two].

Definition sample_args (Nx Ny Nz Nn Nm Np Ns : nat) : list (value K) :=
  map (fun n => VInt (Z.of_nat n)) [Nx; Ny; Nz; Nn; Nm; Np; Ns]
    ++ sample_params Nx Ny Nz.

(** A state of [n] ones followed by [m] twos. *)
Definition sample_state (n m : nat) : list K :=
  replicate n kone ++ replicate m (kadd kone kone).
End Samples.

(** ** Notions used to state further properties of the source *)

Section Notions.
Context {K : Type} `{Scalar K}.

(** The scalar product of two 3-vectors, without conjugation: the
    divergence of a field in Fourier space is [dot3 nabla field]. *)
Definition dot3 (a b : K * K * K) : K :=
  let '(ax, ay, az) := a in
  let '(bx, by_, bz) := b in
  kadd (kadd (kmul ax bx) (kmul ay by_)) (kmul az bz).

(** [sol.ys[t]]: the state sampled at output time [t], as a flat vector. *)
Definition state_at (t : nat) (ys : array K) : list K := data (row t ys).

(** The first three components (the E-derivative) and the whole of the
    field block at the end of a derivative vector of [ode_system]. *)
Definition field_block (Nx Ny Nz : nat) (out : list K) : list K :=
  lastn (6 * (Ny * Nx * Nz)) out.

Definition dE_block (Nx Ny Nz : nat) (out : list K) : list K :=
  take (3 * (Ny * Nx * Nz)) (field_block Nx Ny Nz out).
End Notions.

(** * Properties *)

(** ** The array operations on small inputs *)

Example ravel_example : ravel [2; 3; 4] [1; 2; 3] = 23.
Proof. reflexivity. Qed.

Example unravel_example : unravel [2; 3; 4] 23 = [1; 2; 3].
Proof. reflexivity. Qed.

(** [x[:-3]], [x[:0]], [x[:-12]] and [x[:12]] on an axis of extent 10. *)
Example slice_bound_examples :
  slice_bound 10 (-3) = 7 /\ slice_bound 10 0 = 0
  /\ slice_bound 10 (-12) = 0 /\ slice_bound 10 12 = 10.
Proof. repeat split. Qed.

(** [ifftshift] of five modes reads positions 2, 3, 4, 0, 1: the centre
    comes first. *)
Example ifftshift_index_example :
  map (fun i => ifftshift_index 1 [5] [i]) [0; 1; 2; 3; 4] = [[2]; [3]; [4]; [0]; [1]].
Proof. reflexivity. Qed.

Example broadcast_examples :
  broadcast_shapes [3; 1; 4] [2; 1] = Some [3; 2; 4] /\ broadcast_shapes [3] [2] = None.
Proof. split; reflexivity. Qed.

Example cross_product_e1_e2 :
  cross_product (K := Gauss.t) (vec [kone; kzero; kzero]) (vec [kzero; kone; kzero])
  = Ok (vec [kzero; kzero; kone]).
Proof. vm_compute. reflexivity. Qed.

(** With a single mode along x the index [x = 1] is outside the axis and
    the update is dropped, although the flat position 1 exists. *)
Example at_set_dropped :
  let x : array Gauss.t := mkArr [1; 2; 1; 1; 1] [kone; kone] in
  at_set x first_species_pattern kzero = Ok x.
Proof. reflexivity. Qed.

(** Three modes along x, one Hermite mode, two species: lines 164-165 zero
    the entries at [x = 1] of both species. *)
Example at_set_two_species :
  let x : array Gauss.t := mkArr [1; 2; 1; 3; 1] (replicate 6 kone) in
  (at_set x first_species_pattern kzero
     ≫= fun d => at_set d (second_species_pattern 1 1 1) kzero)
  = Ok (mkArr [1; 2; 1; 3; 1] [kone; kzero; kone; kone; kzero; kone]).
Proof. reflexivity. Qed.

Example linspace_three :
  linspace (K := Gauss.t) kzero kone 3 = [kzero; (Q2Qc (1 # 2), Q2Qc 0); kone].
Proof. vm_compute. reflexivity. Qed.

Example linspace_one : linspace (K := Gauss.t) kzero kone 1 = [kzero].
Proof. reflexivity. Qed.

(** ** Index arithmetic *)

Lemma prod_nil : prod [] = 1.
Proof. reflexivity. Qed.

Lemma prod_cons n sh : prod (n :: sh) = n * prod sh.
Proof. reflexivity. Qed.

#[global] Arguments prod : simpl never.

Lemma prod_app sh1 sh2 : prod (sh1 ++ sh2) = prod sh1 * prod sh2.
Proof.
  induction sh1 as [|n sh1 IH]; simpl.
  - lia.
  - rewrite !prod_cons, IH. lia.
Qed.

Lemma in_bounds_length sh idx : in_bounds sh idx -> length idx = length sh.
Proof. apply Forall2_length. Qed.

Lemma in_bounds_cons sh idx i n :
  in_bounds (n :: sh) (i :: idx) <-> i < n /\ in_bounds sh idx.
Proof. unfold in_bounds. apply Forall2_cons. Qed.

Lemma in_bounds_pair T L t j : t < T -> j < L -> in_bounds [T; L] [t; j].
Proof. intros. repeat (apply Forall2_cons; split; [assumption|]). constructor. Qed.

Lemma ravel_lt sh idx : in_bounds sh idx -> ravel sh idx < prod sh.
Proof.
  induction 1 as [|i n idx sh Hi _ IH]; simpl.
  - rewrite prod_nil. lia.
  - rewrite prod_cons. nia.
Qed.

Lemma unravel_in_bounds sh p : p < prod sh -> in_bounds sh (unravel sh p).
Proof.
  revert p. induction sh as [|n sh IH]; intros p Hp; simpl.
  - constructor.
  - rewrite prod_cons in Hp.
    assert (0 < prod sh) by (destruct (prod sh); lia).
    apply in_bounds_cons. split.
    + apply Nat.Div0.div_lt_upper_bound. lia.
    + apply IH. apply Nat.mod_upper_bound. lia.
Qed.

Lemma unravel_ravel sh idx : in_bounds sh idx -> unravel sh (ravel sh idx) = idx.
Proof.
  induction 1 as [|i n idx sh Hi Hb IH]; simpl; [reflexivity|].
  pose proof (ravel_lt _ _ Hb) as Hlt.
  f_equal.
  - rewrite Nat.div_add_l by lia. rewrite Nat.div_small by lia. lia.
  - rewrite Nat.add_comm, Nat.Div0.mod_add, Nat.mod_small by lia. exact IH.
Qed.

Lemma ravel_unravel sh p : p < prod sh -> ravel sh (unravel sh p) = p.
Proof.
  revert p. induction sh as [|n sh IH]; intros p Hp; simpl.
  - rewrite prod_nil in Hp. lia.
  - rewrite prod_cons in Hp.
    assert (0 < prod sh) by (destruct (prod sh); lia).
    rewrite IH by (apply Nat.mod_upper_bound; lia).
    pose proof (Nat.div_mod_eq p (prod sh)). lia.
Qed.

Lemma unravel_length sh p : length (unravel sh p) = length sh.
Proof. revert p. induction sh; intros; simpl; auto. Qed.

(** ** Arrays *)

Section ArrayFacts.
Context {K : Type} `{Scalar K}.
Implicit Types (a b : array K) (sh idx : list nat) (l : list K).

Lemma tabulate_shape sh (f : list nat -> K) : shape (tabulate sh f) = sh.
Proof. reflexivity. Qed.

Lemma tabulate_length sh (f : list nat -> K) :
  length (data (tabulate sh f)) = prod sh.
Proof. unfold tabulate. simpl. rewrite length_map, length_seq. reflexivity. Qed.

Lemma tabulate_well_formed sh (f : list nat -> K) : well_formed (tabulate sh f).
Proof. unfold well_formed. rewrite tabulate_length. reflexivity. Qed.

Lemma tabulate_lookup sh (f : list nat -> K) p :
  p < prod sh -> data (tabulate sh f) !! p = Some (f (unravel sh p)).
Proof.
  intros Hp. unfold tabulate. simpl.
  rewrite list_lookup_fmap, lookup_seq_lt by done. reflexivity.
Qed.

Lemma get_tabulate sh (f : list nat -> K) idx :
  in_bounds sh idx -> get (tabulate sh f) idx = f idx.
Proof.
  intros Hb. unfold get. rewrite tabulate_shape.
  rewrite tabulate_lookup by (by apply ravel_lt).
  simpl. by rewrite unravel_ravel.
Qed.

Lemma tabulate_ext sh (f g : list nat -> K) :
  (forall idx, in_bounds sh idx -> f idx = g idx) -> tabulate sh f = tabulate sh g.
Proof.
  intros Hfg. unfold tabulate. f_equal.
  apply map_ext_in. intros p Hp. apply in_seq in Hp.
  apply Hfg, unravel_in_bounds. lia.
Qed.

Lemma get_flat a p :
  p < prod (shape a) -> get a (unravel (shape a) p) = default kzero (data a !! p).
Proof. intros Hp. unfold get. by rewrite ravel_unravel. Qed.

(** A well-formed array is the table of its elements. *)
Lemma tabulate_get a : well_formed a -> tabulate (shape a) (get a) = a.
Proof.
  destruct a as [sh l]. unfold well_formed. simpl. intros Hl.
  unfold tabulate. f_equal. apply list_eq. intros p.
  rewrite list_lookup_fmap.
  destruct (decide (p < prod sh)) as [Hp|Hp].
  - rewrite lookup_seq_lt by done. simpl.
    rewrite (get_flat (mkArr sh l)) by done. simpl.
    destruct (lookup_lt_is_Some_2 l p) as [x Hx]; [lia|]. by rewrite Hx.
  - rewrite lookup_seq_ge by lia. simpl.
    symmetry. apply lookup_ge_None. lia.
Qed.

Lemma reshape_Ok sh l a : reshape sh l = Ok a <-> length l = prod sh /\ a = mkArr sh l.
Proof.
  unfold reshape. case_decide; split; try intros [? ?]; try congruence; try done.
  intros [= <-]. done.
Qed.

Lemma reshape_exact sh l : length l = prod sh -> reshape sh l = Ok (mkArr sh l).
Proof. intros. by apply reshape_Ok. Qed.

Lemma reshape_mismatch sh l : length l <> prod sh -> reshape sh l = Raise ValueError.
Proof. intros. unfold reshape. by case_decide. Qed.
End ArrayFacts.

(** ** Broadcasting *)

Lemma broadcast_dim_comm a b : broadcast_dim a b = broadcast_dim b a.
Proof. unfold broadcast_dim. repeat case_decide; congruence. Qed.

Lemma broadcast_dim_diag a : broadcast_dim a a = Some a.
Proof. unfold broadcast_dim. by case_decide. Qed.

Lemma broadcast_rev_comm r1 r2 : broadcast_rev r1 r2 = broadcast_rev r2 r1.
Proof.
  revert r2. induction r1 as [|a r1 IH]; intros [|b r2]; simpl; try reflexivity.
  by rewrite broadcast_dim_comm, IH.
Qed.

Lemma broadcast_rev_diag r : broadcast_rev r r = Some r.
Proof.
  induction r as [|a r IH]; simpl; [reflexivity|].
  by rewrite broadcast_dim_diag, IH.
Qed.

Lemma broadcast_shapes_comm sh1 sh2 : broadcast_shapes sh1 sh2 = broadcast_shapes sh2 sh1.
Proof. unfold broadcast_shapes. by rewrite broadcast_rev_comm. Qed.

Lemma broadcast_shapes_diag sh : broadcast_shapes sh sh = Some sh.
Proof.
  unfold broadcast_shapes. rewrite broadcast_rev_diag. simpl.
  by rewrite reverse_involutive.
Qed.

Lemma broadcast_shapes_nil_l sh : broadcast_shapes [] sh = Some sh.
Proof. unfold broadcast_shapes. simpl. by rewrite reverse_involutive. Qed.

Lemma broadcast_shapes_nil_r sh : broadcast_shapes sh [] = Some sh.
Proof. by rewrite broadcast_shapes_comm, broadcast_shapes_nil_l. Qed.

Lemma project_nil idx : project [] idx = [].
Proof. reflexivity. Qed.

Lemma project_in_bounds sh idx : in_bounds sh idx -> project sh idx = idx.
Proof.
  intros Hb. unfold project.
  rewrite (in_bounds_length _ _ Hb), Nat.sub_diag, drop_0.
  induction Hb as [|i n idx sh Hi Hb IH]; simpl; [reflexivity|].
  rewrite IH. case_decide; [|reflexivity]. f_equal. lia.
Qed.

Section BroadcastFacts.
Context {K : Type} `{Scalar K}.
Implicit Types (a b : array K) (sh idx : list nat).

Lemma bget_same_shape a sh idx :
  shape a = sh -> in_bounds sh idx -> bget a idx = get a idx.
Proof. intros <- Hb. unfold bget. by rewrite project_in_bounds. Qed.

Lemma bget_tabulate sh (f : list nat -> K) idx :
  in_bounds sh idx -> bget (tabulate sh f) idx = f idx.
Proof.
  intros Hb. rewrite (bget_same_shape _ sh) by done. by apply get_tabulate.
Qed.

Lemma bget_scalar (x : K) idx : bget (scalar x) idx = x.
Proof. reflexivity. Qed.

Lemma bget_flat a sh p :
  shape a = sh -> p < prod sh ->
  bget a (unravel sh p) = default kzero (data a !! p).
Proof.
  intros Hs Hp. rewrite (bget_same_shape _ sh) by (done || by apply unravel_in_bounds).
  rewrite <- Hs. apply get_flat. by rewrite Hs.
Qed.

Lemma arr_map2_eq (f : K -> K -> K) a b sh :
  broadcast_shapes (shape a) (shape b) = Some sh ->
  arr_map2 f a b = Ok (tabulate sh (fun idx => f (bget a idx) (bget b idx))).
Proof. intros Hs. unfold arr_map2. by rewrite Hs. Qed.

Lemma arr_map2_Raise (f : K -> K -> K) a b :
  broadcast_shapes (shape a) (shape b) = None -> arr_map2 f a b = Raise ValueError.
Proof. intros Hs. unfold arr_map2. by rewrite Hs. Qed.

Lemma arr_map2_tabulate (f : K -> K -> K) sh (g1 g2 : list nat -> K) :
  arr_map2 f (tabulate sh g1) (tabulate sh g2)
  = Ok (tabulate sh (fun idx => f (g1 idx) (g2 idx))).
Proof.
  rewrite (arr_map2_eq _ _ _ sh) by apply broadcast_shapes_diag.
  f_equal. apply tabulate_ext. intros idx Hb. by rewrite !bget_tabulate.
Qed.

Lemma arr_map2_scalar_l (f : K -> K -> K) (x : K) b :
  arr_map2 f (scalar x) b
  = Ok (tabulate (shape b) (fun idx => f x (get b idx))).
Proof.
  rewrite (arr_map2_eq _ _ _ (shape b)) by apply broadcast_shapes_nil_l.
  f_equal. apply tabulate_ext. intros idx Hb.
  by rewrite bget_scalar, (bget_same_shape _ (shape b)).
Qed.

Lemma tabulate_map (h : K -> K) sh (g : list nat -> K) :
  map h (data (tabulate sh g)) = data (tabulate sh (fun idx => h (g idx))).
Proof. unfold tabulate. simpl. by rewrite map_map. Qed.

Lemma tabulate_const sh (c : K) :
  data (tabulate sh (fun _ => c)) = replicate (prod sh) c.
Proof.
  unfold tabulate. simpl. generalize 0. induction (prod sh) as [|n IH]; intros s.
  - reflexivity.
  - simpl. by rewrite IH.
Qed.

Lemma row_shape i a : shape (row i a) = tail (shape a).
Proof. reflexivity. Qed.

Lemma row_lookup i a g :
  g < prod (tail (shape a)) ->
  data (row i a) !! g = data a !! (i * prod (tail (shape a)) + g).
Proof.
  intros Hg. unfold row. simpl.
  rewrite lookup_take_lt by done. by rewrite lookup_drop.
Qed.

Lemma unpack3_Ok a sh :
  shape a = 3 :: sh -> unpack3 a = Ok (row 0 a, row 1 a, row 2 a).
Proof. intros Hs. unfold unpack3. by rewrite Hs. Qed.

Lemma unpack3_Raise a :
  (forall sh, shape a <> 3 :: sh) -> unpack3 a = Raise ValueError.
Proof.
  intros Hs. unfold unpack3.
  destruct (shape a) as [|[|[|[|[|n]]]] sh]; try reflexivity.
  by destruct (Hs sh).
Qed.

Lemma leading3_dec a : {sh | shape a = 3 :: sh} + {forall sh, shape a <> 3 :: sh}.
Proof.
  destruct (shape a) as [|[|[|[|[|n]]]] sh]; try (right; congruence).
  left. by exists sh.
Qed.
End BroadcastFacts.

(** ** The cross product *)

Section CrossProduct.
Context {K : Type} `{Scalar K}.
Implicit Types (a b : array K) (sh : list nat).

Lemma cross_product_Ok a b sa sb sh :
  shape a = 3 :: sa -> shape b = 3 :: sb -> broadcast_shapes sa sb = Some sh ->
  cross_product a b
  = Ok (mkArr (3 :: sh)
          (data (cross_term sh (row 1 a) (row 2 b) (row 2 a) (row 1 b))
           ++ data (cross_term sh (row 2 a) (row 0 b) (row 0 a) (row 2 b))
           ++ data (cross_term sh (row 0 a) (row 1 b) (row 1 a) (row 0 b)))).
Proof.
  intros Ha Hb Hbc. unfold cross_product.
  rewrite (unpack3_Ok a sa), (unpack3_Ok b sb) by done. cbn [mbind res_bind].
  assert (Hs : forall i j, broadcast_shapes (shape (row i a)) (shape (row j b)) = Some sh).
  { intros i j. by rewrite !row_shape, Ha, Hb. }
  unfold arr_mul, arr_sub.
  rewrite !(arr_map2_eq _ _ _ sh) by apply Hs. cbn [mbind res_bind].
  rewrite !arr_map2_tabulate. cbn [mbind res_bind].
  unfold stack3. rewrite !tabulate_shape.
  case_decide as Hd; [reflexivity|]. by destruct Hd.
Qed.

Lemma cross_product_Raise_l a b :
  (forall sh, shape a <> 3 :: sh) -> cross_product a b = Raise ValueError.
Proof. intros Ha. unfold cross_product. by rewrite (unpack3_Raise a Ha). Qed.

Lemma cross_product_Raise_r a b :
  (forall sh, shape b <> 3 :: sh) -> cross_product a b = Raise ValueError.
Proof.
  intros Hb. unfold cross_product.
  destruct (unpack3 a) as [[[kx ky] kz]|e] eqn:Ea.
  - cbn [mbind res_bind]. by rewrite (unpack3_Raise b Hb).
  - destruct (leading3_dec a) as [[sh Hs]|Hs].
    + by rewrite (unpack3_Ok a sh) in Ea.
    + rewrite (unpack3_Raise a Hs) in Ea. by inversion Ea.
Qed.

Lemma cross_product_Raise_bc a b sa sb :
  shape a = 3 :: sa -> shape b = 3 :: sb -> broadcast_shapes sa sb = None ->
  cross_product a b = Raise ValueError.
Proof.
  intros Ha Hb Hbc. unfold cross_product.
  rewrite (unpack3_Ok a sa), (unpack3_Ok b sb) by done. cbn [mbind res_bind].
  unfold arr_mul.
  rewrite (arr_map2_Raise kmul (row 1 a) (row 2 b)); [reflexivity|].
  by rewrite !row_shape, Ha, Hb.
Qed.

Section ExactArithmetic.
Hypothesis Kring : ring_theory kzero kone kadd kmul ksub kopp (@eq K).
Add Ring Kr : Kring.

Lemma cross_term_antisym sh (p q r s : array K) :
  data (cross_term sh p q r s)
  = map kopp (data (cross_term sh s r q p)).
Proof.
  unfold cross_term. rewrite tabulate_map. f_equal.
  apply tabulate_ext. intros idx _. ring.
Qed.

Lemma cross_term_self sh (p q : array K) :
  data (cross_term sh p q q p) = replicate (prod sh) kzero.
Proof.
  unfold cross_term. rewrite <- tabulate_const. f_equal.
  apply tabulate_ext. intros idx _. ring.
Qed.

Lemma cross_product_antisym a b :
  cross_product a b = arr_neg <$> cross_product b a.
Proof.
  destruct (leading3_dec a) as [[sa Ha]|Ha];
    [|by rewrite cross_product_Raise_l, cross_product_Raise_r].
  destruct (leading3_dec b) as [[sb Hb]|Hb];
    [|by rewrite cross_product_Raise_r, cross_product_Raise_l].
  destruct (broadcast_shapes sa sb) as [sh|] eqn:Hbc.
  - rewrite (cross_product_Ok a b sa sb sh) by done.
    rewrite (cross_product_Ok b a sb sa sh) by (by rewrite 1?broadcast_shapes_comm).
    cbn [fmap res_fmap]. unfold arr_neg, arr_map. cbn [shape data].
    rewrite !map_app. do 2 f_equal.
    rewrite <- !cross_term_antisym. reflexivity.
  - rewrite (cross_product_Raise_bc a b sa sb) by done.
    rewrite (cross_product_Raise_bc b a sb sa) by (by rewrite 1?broadcast_shapes_comm).
    reflexivity.
Qed.

Lemma cross_product_self a sh :
  shape a = 3 :: sh -> cross_product a a = Ok (zeros (3 :: sh)).
Proof.
  intros Ha.
  rewrite (cross_product_Ok a a sh sh sh) by (done || apply broadcast_shapes_diag).
  f_equal.
  transitivity (mkArr (3 :: sh) (data (zeros (3 :: sh)))); [|reflexivity].
  f_equal. unfold zeros.
  rewrite tabulate_const, !cross_term_self, prod_cons.
  replace (3 * prod sh) with (prod sh + (prod sh + prod sh)) by lia.
  by rewrite !replicate_add.
Qed.
End ExactArithmetic.
End CrossProduct.

(** ** Pointwise reading of the array operations *)

Section Pointwise.
Context {K : Type} `{Scalar K}.
Implicit Types (a b : array K) (sh : list nat).

Lemma comp_app_l (u v : list K) G c g :
  c * G + g < length u -> comp (u ++ v) G c g = comp u G c g.
Proof. intros Hl. unfold comp. by rewrite lookup_app_l. Qed.

Lemma comp_app_r (u v : list K) G k c g :
  length u = k * G -> comp (u ++ v) G (k + c) g = comp v G c g.
Proof.
  intros Hl. unfold comp. rewrite lookup_app_r by nia.
  f_equal. f_equal. nia.
Qed.

Lemma comp_app_r_sub (u v : list K) G k c g :
  length u = k * G -> k <= c -> comp (u ++ v) G c g = comp v G (c - k) g.
Proof.
  intros Hl Hk. replace c with (k + (c - k)) at 1 by lia. by apply comp_app_r.
Qed.

Lemma comp_tabulate m sh (f : list nat -> K) c g :
  c < m -> g < prod sh ->
  comp (data (tabulate (m :: sh) f)) (prod sh) c g
  = f (unravel (m :: sh) (c * prod sh + g)).
Proof.
  intros Hc Hg. unfold comp. rewrite tabulate_lookup; [reflexivity|].
  rewrite prod_cons. nia.
Qed.

Lemma get_comp a m sh c g :
  shape a = m :: sh -> c < m -> g < prod sh ->
  get a (unravel (m :: sh) (c * prod sh + g)) = comp (data a) (prod sh) c g.
Proof.
  intros Hs Hc Hg. unfold comp. rewrite <- Hs. apply get_flat.
  rewrite Hs, prod_cons. nia.
Qed.

Lemma row_comp i a m sh g :
  shape a = m :: sh -> g < prod sh ->
  default kzero (data (row i a) !! g) = comp (data a) (prod sh) i g.
Proof.
  intros Hs Hg. unfold comp. rewrite row_lookup; rewrite Hs; simpl; done.
Qed.

Lemma cross_term_lookup sh (p q r s : array K) g :
  shape p = sh -> shape q = sh -> shape r = sh -> shape s = sh -> g < prod sh ->
  data (cross_term sh p q r s) !! g
  = Some (ksub (kmul (default kzero (data p !! g)) (default kzero (data q !! g)))
               (kmul (default kzero (data r !! g)) (default kzero (data s !! g)))).
Proof.
  intros Hp Hq Hr Hs Hg. unfold cross_term.
  rewrite tabulate_lookup by done.
  by rewrite !(bget_flat _ sh).
Qed.

Lemma cross_term_length sh (p q r s : array K) :
  length (data (cross_term sh p q r s)) = prod sh.
Proof. apply tabulate_length. Qed.

(** [cross_product] on two arrays of one shape [(3, ...)] is the
    pointwise cross product of the specification. *)
Lemma cross_product_pointwise a b sh :
  shape a = 3 :: sh -> shape b = 3 :: sh ->
  exists r, cross_product a b = Ok r
    /\ shape r = 3 :: sh
    /\ length (data r) = 3 * prod sh
    /\ forall g, g < prod sh ->
         vec3_at (data r) (prod sh) 0 g
         = cross3 (vec3_at (data a) (prod sh) 0 g) (vec3_at (data b) (prod sh) 0 g).
Proof.
  intros Ha Hb.
  rewrite (cross_product_Ok a b sh sh sh) by (done || apply broadcast_shapes_diag).
  eexists. split; [reflexivity|]. split; [reflexivity|]. cbn [data].
  split.
  - rewrite !length_app, !cross_term_length. lia.
  - intros g Hg.
    assert (Hra : forall i, shape (row i a) = sh) by (intros; by rewrite row_shape, Ha).
    assert (Hrb : forall i, shape (row i b) = sh) by (intros; by rewrite row_shape, Hb).
    unfold vec3_at, cross3. cbn [Nat.add].
    rewrite comp_app_l by (rewrite cross_term_length; lia).
    rewrite (comp_app_r _ _ _ 1 0) by (rewrite cross_term_length; lia).
    rewrite comp_app_l by (rewrite cross_term_length; lia).
    rewrite (comp_app_r _ _ _ 1 1) by (rewrite cross_term_length; lia).
    rewrite (comp_app_r _ _ _ 1 0) by (rewrite cross_term_length; lia).
    unfold comp at 1 2 3. cbn [Nat.mul Nat.add].
    rewrite !cross_term_lookup by done. cbn [default from_option].
    rewrite !(row_comp _ a 3 sh), !(row_comp _ b 3 sh) by done.
    reflexivity.
Qed.

Lemma comp_take (v : list K) G k c g :
  c < k -> g < G -> comp (take (k * G) v) G c g = comp v G c g.
Proof.
  intros Hc Hg. unfold comp. rewrite lookup_take_lt by nia. reflexivity.
Qed.

Lemma comp_drop (v : list K) G k c g :
  comp (drop (k * G) v) G c g = comp v G (k + c) g.
Proof.
  unfold comp. rewrite lookup_drop. do 2 f_equal. nia.
Qed.

Lemma arr_map2_scalar_r (f : K -> K -> K) a b :
  shape b = [] ->
  arr_map2 f a b = Ok (tabulate (shape a) (fun idx => f (get a idx) (get b []))).
Proof.
  intros Hb.
  rewrite (arr_map2_eq _ _ _ (shape a)) by (rewrite Hb; apply broadcast_shapes_nil_r).
  f_equal. apply tabulate_ext. intros idx Hi.
  rewrite (bget_same_shape a (shape a)) by done.
  unfold bget. by rewrite Hb.
Qed.

Lemma index0_first (x : array K) n :
  shape x = [n] -> n <> 0 ->
  index0 0 x = Ok (row 0 x)
  /\ shape (row 0 x) = []
  /\ get (row 0 x) [] = default kzero (data x !! 0).
Proof.
  intros Hs Hn. unfold index0. rewrite Hs. case_decide; [done|].
  split; [reflexivity|]. split; [by rewrite row_shape, Hs|].
  unfold get. rewrite row_shape, Hs. simpl ravel.
  rewrite row_lookup by (rewrite Hs; simpl; rewrite prod_nil; lia).
  reflexivity.
Qed.

Lemma linspace_length (start stop : K) n : length (linspace start stop n) = n.
Proof.
  destruct n as [|[|n]]; try reflexivity.
  unfold linspace. rewrite length_app, length_map, length_seq. simpl. lia.
Qed.

Lemma SaveAt_Ok_inv (l l' : list K) : SaveAt l = Ok l' -> l' = l /\ l <> [].
Proof. destruct l; [discriminate|]. intros [= <-]. by split. Qed.

Lemma SaveAt_linspace (start stop : K) n :
  0 < n -> SaveAt (linspace start stop n) = Ok (linspace start stop n).
Proof.
  intros Hn. pose proof (linspace_length start stop n) as Hl.
  destruct (linspace start stop n); [simpl in Hl; lia|reflexivity].
Qed.

Lemma SaveAt_linspace_0 (start stop : K) :
  SaveAt (linspace start stop 0) = Raise ValueError.
Proof. reflexivity. Qed.

Lemma linspace_last (start stop : K) n :
  2 <= n -> last (linspace start stop n) = Some stop.
Proof.
  intros Hn. destruct n as [|[|n]]; try lia.
  unfold linspace. apply last_snoc.
Qed.

Lemma linspace_lookup (start stop : K) n i :
  i < n - 1 ->
  linspace start stop n !! i
  = Some (kadd (kmul start (ksub kone (kdiv (kofnat i) (kofnat (n - 1)))))
               (kmul stop (kdiv (kofnat i) (kofnat (n - 1))))).
Proof.
  intros Hi. destruct n as [|[|n]]; try (simpl in Hi; lia).
  unfold linspace. replace (S (S n) - 1) with (S n) in * by lia.
  rewrite lookup_app_l by (rewrite length_map, length_seq; lia).
  rewrite list_lookup_fmap, lookup_seq_lt by lia. reflexivity.
Qed.

Lemma ifftshift_Ok k (x : array K) :
  k <= length (shape x) -> exists y, ifftshift k x = Ok y /\ shape y = shape x.
Proof. intros Hk. unfold ifftshift. case_decide; [|done]. by eexists. Qed.
End Pointwise.

(** ** The right-hand side [ode_system] *)

Lemma prod3 a b c : prod [a; b; c] = a * b * c.
Proof. rewrite !prod_cons, prod_nil. lia. Qed.

Lemma prod4 a b c d : prod [a; b; c; d] = a * (b * c * d).
Proof. rewrite prod_cons, prod3. lia. Qed.

Lemma prod5 a b c d e : prod [a; b; c; d; e] = a * (b * (c * d * e)).
Proof. rewrite prod_cons, prod4. lia. Qed.

Section OdeSystemFacts.
Context {K : Type} `{Scalar K}.
Variable ifftn : array K -> res (array K).
Variable _twothirds_mask : nat -> nat -> nat -> value K.
Variable Hermite_Fourier_system :
  array K -> array K -> array K ->
  value K -> value K -> value K -> value K -> value K ->
  value K -> value K -> value K -> value K -> value K -> value K ->
  value K -> value K -> value K -> value K -> value K ->
  value K -> value K -> value K -> value K ->
  nat -> nat -> nat -> nat -> value K -> res (array K).
Variable plasma_current :
  value K -> value K -> value K -> array K -> nat -> nat -> nat -> nat ->
  res (array K).

Variables Nx Ny Nz Nn Nm Np Ns : nat.

Local Abbreviation G := (Ny * Nx * Nz).
Local Abbreviation S_Ck := (Nn * Nm * Np * Ns * Nx * Ny * Nz).
Local Abbreviation unpack := (unpack_state Nx Ny Nz Nn Nm Np Ns).
Local Abbreviation rhs := (ode_system ifftn _twothirds_mask Hermite_Fourier_system
                         plasma_current Nx Ny Nz Nn Nm Np Ns).

(** The state is cut into its two blocks exactly when its length is the
    sum of the two block sizes. *)
Lemma unpack_state_Ok (y : list K) :
  length y = S_Ck + 6 * G ->
  unpack y = Ok (mkArr [Nn * Nm * Np * Ns; Ny; Nx; Nz] (take S_Ck y),
                 mkArr [6; Ny; Nx; Nz] (drop S_Ck y)).
Proof.
  intros Hy. unfold unpack_state.
  rewrite !reshape_exact by (rewrite ?length_take, ?length_drop, prod4; lia).
  reflexivity.
Qed.

Lemma unpack_state_Raise (y : list K) :
  length y <> S_Ck + 6 * G -> unpack y = Raise ValueError.
Proof.
  intros Hy. unfold unpack_state.
  destruct (decide (length (take S_Ck y) = prod [Nn * Nm * Np * Ns; Ny; Nx; Nz]))
    as [Hc|Hc].
  - rewrite (reshape_exact _ (take S_Ck y)) by done. cbn [mbind res_bind].
    rewrite reshape_mismatch; [reflexivity|].
    rewrite length_take, prod4 in Hc. rewrite length_drop, prod4. lia.
  - by rewrite (reshape_mismatch _ (take S_Ck y)).
Qed.

Lemma ode_system_Raise t (y : list K) args :
  length y <> S_Ck + 6 * G -> rhs t y args = Raise ValueError.
Proof.
  intros Hy. unfold ode_system.
  generalize (drop 7 args). intros l.
  do 21 (destruct l as [|? l]; [reflexivity|]).
  destruct l; [|reflexivity].
  by rewrite unpack_state_Raise.
Qed.

(** The run of [ode_system] on a state of the right length: the two
    blocks, their transforms, the helper calls and the result, with the
    field block read point by point. *)
Lemma ode_system_run t (y : list K) args
    qs nu D alpha_s u_s Lx Ly Lz kx_grid ky_grid kz_grid k2_grid col
    sqrt_n_plus sqrt_n_minus sqrt_m_plus sqrt_m_minus sqrt_p_plus sqrt_p_minus
    (Omega_cs nabla : array K) n :
  drop 7 args = [qs; nu; D; VArr Omega_cs; alpha_s; u_s; Lx; Ly; Lz;
                 kx_grid; ky_grid; kz_grid; k2_grid; VArr nabla; col;
                 sqrt_n_plus; sqrt_n_minus; sqrt_m_plus; sqrt_m_minus;
                 sqrt_p_plus; sqrt_p_minus] ->
  shape nabla = [3; Ny; Nx; Nz] ->
  shape Omega_cs = [n] -> n <> 0 ->
  length y = S_Ck + 6 * G ->
  ifftn_returns ifftn ->
  Hermite_Fourier_system_returns Hermite_Fourier_system ->
  plasma_current_returns plasma_current ->
  let Ck := mkArr [Nn * Nm * Np * Ns; Ny; Nx; Nz] (take S_Ck y) in
  let Fk := mkArr [6; Ny; Nx; Nz] (drop S_Ck y) in
  exists sFk sCk C F dCk_s_dt current dFk_dt,
    ifftshift 3 Fk = Ok sFk /\ ifftn sFk = Ok F
    /\ ifftshift 3 Ck = Ok sCk /\ ifftn sCk = Ok C
    /\ Hermite_Fourier_system Ck C F kx_grid ky_grid kz_grid k2_grid col
         sqrt_n_plus sqrt_n_minus sqrt_m_plus sqrt_m_minus sqrt_p_plus sqrt_p_minus
         Lx Ly Lz nu D alpha_s u_s qs (VArr Omega_cs) Nn Nm Np Ns
         (_twothirds_mask Ny Nx Nz) = Ok dCk_s_dt
    /\ plasma_current qs alpha_s u_s Ck Nn Nm Np Ns = Ok current
    /\ rhs t y args = Ok (flatten dCk_s_dt ++ dFk_dt)
    /\ length dFk_dt = 6 * G
    /\ forall g, g < G ->
         vec3_at dFk_dt G 0 g
         = maxwell_dE (vec3_at (data nabla) G 0 g) (vec3_at (data Fk) G 3 g)
                      (vec3_at (data current) G 0 g)
                      (default kzero (data Omega_cs !! 0))
         /\ vec3_at dFk_dt G 3 g
           = maxwell_dB (vec3_at (data nabla) G 0 g) (vec3_at (data Fk) G 0 g).
Proof.
  intros Hargs Hnabla HOm Hn Hy Hifftn HHFS Hpc Ck Fk.
  pose (sh := [Ny; Nx; Nz]).
  assert (HG : prod sh = G) by apply prod3.
  unfold ode_system. rewrite Hargs, (unpack_state_Ok y Hy).
  cbn [mbind res_bind]. fold Ck. fold Fk.
  destruct (ifftshift_Ok 3 Fk) as (sFk & HsFk & _); [simpl; lia|].
  rewrite HsFk. cbn [mbind res_bind].
  destruct (Hifftn sFk) as [F HF]. rewrite HF. cbn [mbind res_bind].
  destruct (ifftshift_Ok 3 Ck) as (sCk & HsCk & _); [simpl; lia|].
  rewrite HsCk. cbn [mbind res_bind].
  destruct (Hifftn sCk) as [C HC]. rewrite HC. cbn [mbind res_bind].
  edestruct HHFS as [dCk HdCk]. rewrite HdCk. cbn [mbind res_bind as_arr].
  (* dB/dt *)
  unfold slice_to, slice_from. cbn [shape data Fk Nat.min Nat.sub].
  fold sh.
  set (FkE := mkArr (3 :: sh) (take (3 * prod sh) (drop S_Ck y))).
  set (FkB := mkArr (3 :: sh) (drop (3 * prod sh) (drop S_Ck y))).
  cbn [mbind res_bind].
  destruct (cross_product_pointwise nabla FkE sh Hnabla eq_refl)
    as (cE & -> & HcEs & HcEl & HcE).
  cbn [mbind res_bind].
  unfold arr_mul. rewrite arr_map2_scalar_l, HcEs. cbn [mbind res_bind].
  destruct (Hpc qs alpha_s u_s Ck Nn Nm Np Ns _ sh eq_refl) as (J & HJ & HJs).
  rewrite HJ. cbn [mbind res_bind].
  destruct (cross_product_pointwise nabla FkB sh Hnabla eq_refl)
    as (cB & -> & HcBs & HcBl & HcB).
  cbn [mbind res_bind].
  rewrite arr_map2_scalar_l, HcBs. cbn [mbind res_bind].
  destruct (index0_first Omega_cs n HOm Hn) as (-> & HO1 & HO2).
  cbn [mbind res_bind].
  unfold arr_div. rewrite (arr_map2_scalar_r _ _ _ HO1), HJs, HO2.
  cbn [mbind res_bind].
  unfold arr_sub. rewrite arr_map2_tabulate. cbn [mbind res_bind].
  unfold concatenate0. rewrite !tabulate_shape.
  case_decide; [|done]. cbn [mbind res_bind].
  exists sFk, sCk, C, F, dCk, J. eexists.
  split; [reflexivity|]. split; [exact HF|]. split; [reflexivity|].
  split; [exact HC|].
  split; [exact HdCk|]. split; [reflexivity|]. split; [reflexivity|].
  cbn [flatten data].
  split.
  { rewrite length_app, !tabulate_length, !prod_cons, <- HG. fold sh. lia. }
  intros g Hg. rewrite <- HG in *. split.
  - unfold vec3_at, maxwell_dE, map3, sub3. cbn [Nat.add].
    rewrite !comp_app_l by (rewrite tabulate_length, prod_cons; nia).
    rewrite !comp_tabulate by lia.
    rewrite !(get_comp cB 3 sh), !(get_comp J 3 sh) by (done || lia).
    specialize (HcB g Hg). unfold vec3_at in HcB. cbn [Nat.add] in HcB.
    unfold FkB in HcB. cbn [data] in HcB.
    rewrite !comp_drop in HcB.
    change (3 + 0) with 3 in HcB. change (3 + 1) with 4 in HcB.
    change (3 + 2) with 5 in HcB.
    destruct (cross3 _ _) as [[c0 c1] c2].
    injection HcB as -> -> ->. reflexivity.
  - unfold vec3_at, maxwell_dB, map3. cbn [Nat.add].
    rewrite !(comp_app_r_sub _ _ _ 3) by (rewrite ?tabulate_length, ?prod_cons; lia).
    cbn [Nat.sub].
    rewrite !comp_tabulate by lia.
    rewrite !(get_comp cE 3 sh) by (done || lia).
    specialize (HcE g Hg). unfold vec3_at in HcE. cbn [Nat.add] in HcE.
    unfold FkE in HcE. cbn [data] in HcE.
    rewrite !comp_take in HcE by lia.
    destruct (cross3 _ _) as [[c0 c1] c2].
    injection HcE as -> -> ->. reflexivity.
Qed.

(** The result of [ode_system] on a state of the right length, with the
    field block read point by point. *)
Lemma ode_system_Ok t (y : list K) args
    qs nu D alpha_s u_s Lx Ly Lz kx_grid ky_grid kz_grid k2_grid col
    sqrt_n_plus sqrt_n_minus sqrt_m_plus sqrt_m_minus sqrt_p_plus sqrt_p_minus
    (Omega_cs nabla : array K) n :
  drop 7 args = [qs; nu; D; VArr Omega_cs; alpha_s; u_s; Lx; Ly; Lz;
                 kx_grid; ky_grid; kz_grid; k2_grid; VArr nabla; col;
                 sqrt_n_plus; sqrt_n_minus; sqrt_m_plus; sqrt_m_minus;
                 sqrt_p_plus; sqrt_p_minus] ->
  shape nabla = [3; Ny; Nx; Nz] ->
  shape Omega_cs = [n] -> n <> 0 ->
  length y = S_Ck + 6 * G ->
  ifftn_returns ifftn ->
  Hermite_Fourier_system_returns Hermite_Fourier_system ->
  plasma_current_returns plasma_current ->
  let Ck := mkArr [Nn * Nm * Np * Ns; Ny; Nx; Nz] (take S_Ck y) in
  exists C F dCk_s_dt current dFk_dt,
    Hermite_Fourier_system Ck C F kx_grid ky_grid kz_grid k2_grid col
      sqrt_n_plus sqrt_n_minus sqrt_m_plus sqrt_m_minus sqrt_p_plus sqrt_p_minus
      Lx Ly Lz nu D alpha_s u_s qs (VArr Omega_cs) Nn Nm Np Ns
      (_twothirds_mask Ny Nx Nz) = Ok dCk_s_dt
    /\ plasma_current qs alpha_s u_s Ck Nn Nm Np Ns = Ok current
    /\ rhs t y args = Ok (flatten dCk_s_dt ++ dFk_dt)
    /\ length dFk_dt = 6 * G
    /\ forall g, g < G ->
         vec3_at dFk_dt G 0 g
         = maxwell_dE (vec3_at (data nabla) G 0 g) (vec3_at (drop S_Ck y) G 3 g)
                      (vec3_at (data current) G 0 g)
                      (default kzero (data Omega_cs !! 0))
         /\ vec3_at dFk_dt G 3 g
           = maxwell_dB (vec3_at (data nabla) G 0 g) (vec3_at (drop S_Ck y) G 0 g).
Proof.
  intros Hargs Hnabla HOm Hn Hy Hifftn HHFS Hpc Ck.
  destruct (ode_system_run t y args _ _ _ _ _ _ _ _ _ _ _ _ _ _ _ _ _ _ _ _ _ n
              Hargs Hnabla HOm Hn Hy Hifftn HHFS Hpc)
    as (sFk & sCk & C & F & dCk & J & dF & _ & _ & _ & _ & HdCk & HJ & Hr & Hl & Hp).
  exists C, F, dCk, J, dF. repeat (split; [assumption|]). exact Hp.
Qed.

(** The B-derivative components of a field block are determined by their
    pointwise values. *)
Lemma field_block_tail (dF1 dF2 : list K) :
  length dF1 = 6 * G -> length dF2 = 6 * G ->
  (forall g, g < G -> vec3_at dF1 G 3 g = vec3_at dF2 G 3 g) ->
  drop (3 * G) dF1 = drop (3 * G) dF2.
Proof.
  intros H1 H2 Hv. apply list_eq. intros i. rewrite !lookup_drop.
  destruct (decide (i < 3 * G)) as [Hi|Hi].
  - assert (HG : 0 < G) by lia.
    destruct (lookup_lt_is_Some_2 dF1 (3 * G + i)) as [a Ha]; [lia|].
    destruct (lookup_lt_is_Some_2 dF2 (3 * G + i)) as [b Hb]; [lia|].
    rewrite Ha, Hb. f_equal.
    pose proof (Nat.div_mod_eq i G) as Hdm.
    assert (Hg : i mod G < G) by (apply Nat.mod_upper_bound; lia).
    assert (Hc : i / G < 3) by (apply Nat.Div0.div_lt_upper_bound; lia).
    specialize (Hv (i mod G) Hg). unfold vec3_at, comp in Hv.
    pose proof (f_equal (fun p => fst (fst p)) Hv) as E0.
    pose proof (f_equal (fun p => snd (fst p)) Hv) as E1.
    pose proof (f_equal snd Hv) as E2.
    cbn [fst snd] in E0, E1, E2. clear Hv.
    destruct (i / G) as [|[|[|c]]] eqn:Hq; [| | |lia].
    + replace (3 * G + i) with (3 * G + i mod G) in Ha, Hb by nia.
      rewrite Ha, Hb in E0. exact E0.
    + replace (3 * G + i) with ((3 + 1) * G + i mod G) in Ha, Hb by nia.
      rewrite Ha, Hb in E1. exact E1.
    + replace (3 * G + i) with ((3 + 2) * G + i mod G) in Ha, Hb by nia.
      rewrite Ha, Hb in E2. exact E2.
  - rewrite !lookup_ge_None_2 by lia. reflexivity.
Qed.

Lemma lastn_app (u v : list K) k :
  k <= length v -> lastn k (u ++ v) = lastn k v.
Proof.
  intros Hk. unfold lastn. rewrite length_app.
  rewrite drop_app_ge by lia. f_equal. lia.
Qed.
End OdeSystemFacts.

(** ** Indexed update and the trajectory post-processing *)

Section PostprocessFacts.
Context {K : Type} `{Scalar K}.
Implicit Types (x : array K) (sh idx : list nat).

Lemma at_set_Ok x pat (v : K) :
  length pat <= length (shape x) ->
  indexes_empty_axis pat (shape x) = false ->
  exists r, at_set x pat v = Ok r
    /\ shape r = shape x
    /\ length (data r) = length (data x)
    /\ forall idx, well_formed x -> in_bounds (shape x) idx ->
         get r idx = if matches pat idx then v else get x idx.
Proof.
  intros Hlen Hne. unfold at_set.
  case_decide; [lia|]. rewrite Hne.
  eexists. split; [reflexivity|]. split; [reflexivity|].
  split; [apply length_imap|].
  intros idx Hwf Hb. unfold get. cbn [shape data].
  rewrite list_lookup_imap.
  pose proof (ravel_lt _ _ Hb) as Hlt.
  destruct (lookup_lt_is_Some_2 (data x) (ravel (shape x) idx)) as [e He];
    [unfold well_formed in Hwf; lia|].
  rewrite He. cbn. rewrite unravel_ravel by done.
  by destruct (matches pat idx).
Qed.

Lemma at_set_inv x pat (v : K) r :
  at_set x pat v = Ok r ->
  length pat <= length (shape x) /\ indexes_empty_axis pat (shape x) = false.
Proof.
  unfold at_set. case_decide; [discriminate|].
  destruct (indexes_empty_axis pat (shape x)); [discriminate|].
  intros _. split; [lia|reflexivity].
Qed.

Lemma at_set_spec x pat (v : K) r :
  at_set x pat v = Ok r ->
  shape r = shape x
  /\ length (data r) = length (data x)
  /\ forall idx, well_formed x -> in_bounds (shape x) idx ->
       get r idx = if matches pat idx then v else get x idx.
Proof.
  intros Hr. destruct (at_set_inv _ _ _ _ Hr) as [Hlen Hne].
  destruct (at_set_Ok x pat v Hlen Hne) as (r' & Hr' & Hspec).
  rewrite Hr in Hr'. by injection Hr' as <-.
Qed.

(** An array of shape [(T, S)] read through the shape [(T, ...)] with
    [S] elements per row. *)
Lemma get_regroup (f : list nat -> K) T S sh idx t :
  prod sh = S -> t < T -> in_bounds sh idx ->
  get (mkArr (T :: sh) (data (tabulate [T; S] f))) (t :: idx) = f [t; ravel sh idx].
Proof.
  intros HS Ht Hb. unfold get. cbn [shape data ravel].
  pose proof (ravel_lt _ _ Hb) as Hlt.
  assert (Hp : t * prod sh + ravel sh idx = ravel [T; S] [t; ravel sh idx]).
  { cbn [ravel]. rewrite !prod_cons, prod_nil. lia. }
  rewrite Hp.
  assert (Hb2 : in_bounds [T; S] [t; ravel sh idx]).
  { repeat constructor; lia. }
  rewrite tabulate_lookup by (by apply ravel_lt).
  cbn [from_option id]. by rewrite unravel_ravel.
Qed.

Lemma slice_bound_cut Nx Ny Nz M :
  0 < Ny * Nx * Nz ->
  slice_bound (M * (Ny * Nx * Nz) + 6 * (Ny * Nx * Nz))
              (- 6 * Z.of_nat Nx * Z.of_nat Ny * Z.of_nat Nz)
  = M * (Ny * Nx * Nz).
Proof.
  intros HG. unfold slice_bound.
  assert (Hcut : (- 6 * Z.of_nat Nx * Z.of_nat Ny * Z.of_nat Nz
                  = - Z.of_nat (6 * (Ny * Nx * Nz)))%Z) by lia.
  rewrite Hcut.
  destruct (Z.ltb_spec (- Z.of_nat (6 * (Ny * Nx * Nz))) 0); lia.
Qed.

Lemma matches_first idx :
  length idx = 5 ->
  matches first_species_pattern idx
  = bool_decide (idx !! 1 = Some 0 /\ idx !! 2 = Some 0
                 /\ idx !! 3 = Some 1 /\ idx !! 4 = Some 0).
Proof.
  intros Hl. destruct idx as [|t [|c [|y [|x [|z [|? ?]]]]]]; try discriminate.
  unfold matches, first_species_pattern. cbn [zip_with forallb id lookup list_lookup andb].
  rewrite andb_true_r, !bool_decide_and.
  do 3 (apply (f_equal2 andb); [apply bool_decide_ext; naive_solver|]).
  apply bool_decide_ext; naive_solver.
Qed.

Lemma matches_second Nn Nm Np idx :
  length idx = 5 ->
  matches (second_species_pattern Nn Nm Np) idx
  = bool_decide (idx !! 1 = Some (Nn * Nm * Np) /\ idx !! 2 = Some 0
                 /\ idx !! 3 = Some 1 /\ idx !! 4 = Some 0).
Proof.
  intros Hl. destruct idx as [|t [|c [|y [|x [|z [|? ?]]]]]]; try discriminate.
  unfold matches, second_species_pattern. cbn [zip_with forallb id lookup list_lookup andb].
  rewrite andb_true_r, !bool_decide_and.
  do 3 (apply (f_equal2 andb); [apply bool_decide_ext; naive_solver|]).
  apply bool_decide_ext; naive_solver.
Qed.

(** What a successful [postprocess] has produced. *)
Lemma postprocess_inv Nx Ny Nz Nn Nm Np Ns (sol : solution K) Ck Fk dCk :
  postprocess Nx Ny Nz Nn Nm Np Ns sol = Ok (Ck, Fk, dCk) ->
  shape Ck = [length (ts sol); Ns * Nn * Nm * Np; Ny; Nx; Nz] /\ well_formed Ck
  /\ shape Fk = [length (ts sol); 6; Ny; Nx; Nz] /\ well_formed Fk
  /\ shape dCk = shape Ck /\ well_formed dCk
  /\ forall idx, in_bounds (shape Ck) idx ->
       get dCk idx
       = if matches first_species_pattern idx
            || matches (second_species_pattern Nn Nm Np) idx
         then kzero else get Ck idx.
Proof.
  unfold postprocess.
  destruct (cols_to _ _) as [Ck2|e]; [|discriminate]. cbn [mbind res_bind].
  destruct (reshape _ (flatten Ck2)) as [Ck'|e] eqn:HCk; [|discriminate].
  cbn [mbind res_bind].
  destruct (cols_from _ _) as [Fk2|e]; [|discriminate]. cbn [mbind res_bind].
  destruct (reshape _ (flatten Fk2)) as [Fk'|e] eqn:HFk; [|discriminate].
  cbn [mbind res_bind].
  destruct (at_set Ck' _ _) as [d1|e] eqn:Hd1; [|discriminate]. cbn [mbind res_bind].
  destruct (at_set d1 _ _) as [d2|e] eqn:Hd2; [|discriminate]. cbn [mbind res_bind].
  intros [= <- <- <-].
  apply reshape_Ok in HCk as [HlC ->]. apply reshape_Ok in HFk as [HlF ->].
  destruct (at_set_spec _ _ _ _ Hd1) as (Hs1 & Hl1 & Hg1).
  destruct (at_set_spec _ _ _ _ Hd2) as (Hs2 & Hl2 & Hg2).
  cbn [shape data] in *.
  assert (HwC : well_formed (mkArr [length (ts sol); Ns * Nn * Nm * Np; Ny; Nx; Nz]
                               (flatten Ck2))) by exact HlC.
  assert (Hw1 : well_formed d1) by (unfold well_formed; by rewrite Hl1, Hs1).
  split; [reflexivity|]. split; [exact HwC|].
  split; [reflexivity|]. split; [exact HlF|].
  split; [by rewrite Hs2, Hs1|].
  split; [unfold well_formed; by rewrite Hl2, Hs2|].
  intros idx Hb.
  rewrite Hg2 by (done || by rewrite Hs1). rewrite Hg1 by done.
  destruct (matches first_species_pattern idx),
           (matches (second_species_pattern Nn Nm Np) idx); reflexivity.
Qed.

Section Postprocess.
Variables (Nx Ny Nz Nn Nm Np Ns T L : nat) (sol : solution K).
Local Abbreviation M := (Ns * Nn * Nm * Np).
Local Abbreviation G := (Ny * Nx * Nz).
Hypothesis HNx : 0 < Nx.
Hypothesis HNy : 0 < Ny.
Hypothesis HNz : 0 < Nz.
Hypothesis HM : 0 < M.
Hypothesis Hts : length (ts sol) = T.
Hypothesis Hys : shape (ys sol) = [T; L].
Hypothesis HL : L = M * G + 6 * G.

Lemma postprocess_Ok :
  exists Ck Fk dCk,
    postprocess Nx Ny Nz Nn Nm Np Ns sol = Ok (Ck, Fk, dCk)
    /\ shape Ck = [T; M; Ny; Nx; Nz] /\ well_formed Ck
    /\ shape Fk = [T; 6; Ny; Nx; Nz] /\ well_formed Fk
    /\ shape dCk = [T; M; Ny; Nx; Nz] /\ well_formed dCk
    /\ (forall t idx, t < T -> in_bounds [M; Ny; Nx; Nz] idx ->
          get Ck (t :: idx) = get (ys sol) [t; ravel [M; Ny; Nx; Nz] idx])
    /\ (forall t idx, t < T -> in_bounds [6; Ny; Nx; Nz] idx ->
          get Fk (t :: idx) = get (ys sol) [t; M * G + ravel [6; Ny; Nx; Nz] idx])
    /\ (forall idx, in_bounds [T; M; Ny; Nx; Nz] idx ->
          get dCk idx
          = if matches first_species_pattern idx
               || matches (second_species_pattern Nn Nm Np) idx
            then kzero else get Ck idx).
Proof.
  assert (HG : 0 < G) by nia.
  unfold postprocess, cols_to, cols_from. rewrite Hys, Hts, HL.
  rewrite slice_bound_cut by done.
  replace (M * G + 6 * G - M * G) with (6 * G) by lia.
  cbn [mbind res_bind flatten].
  rewrite reshape_exact
    by (rewrite tabulate_length, prod5, !prod_cons, prod_nil; lia).
  cbn [mbind res_bind].
  rewrite reshape_exact
    by (rewrite tabulate_length, prod5, !prod_cons, prod_nil; lia).
  cbn [mbind res_bind].
  set (Ck := mkArr [T; M; Ny; Nx; Nz] _).
  set (Fk := mkArr [T; 6; Ny; Nx; Nz] _).
  assert (HwCk : well_formed Ck).
  { unfold well_formed, Ck. cbn [shape data].
    rewrite tabulate_length, prod5, !prod_cons, prod_nil. lia. }
  assert (HwFk : well_formed Fk).
  { unfold well_formed, Fk. cbn [shape data].
    rewrite tabulate_length, prod5, !prod_cons, prod_nil. lia. }
  assert (Hne : forall c, indexes_empty_axis [None; Some c; Some 0; Some 1; Some 0]
                            [T; M; Ny; Nx; Nz] = false).
  { intros c. unfold indexes_empty_axis. cbn [zip_with existsb id].
    rewrite !bool_decide_eq_false_2 by lia. reflexivity. }
  destruct (at_set_Ok Ck first_species_pattern kzero) as (d1 & -> & Hs1 & Hl1 & Hg1);
    [simpl; lia|apply Hne|].
  cbn [mbind res_bind].
  destruct (at_set_Ok d1 (second_species_pattern Nn Nm Np) kzero)
    as (d2 & -> & Hs2 & Hl2 & Hg2);
    [rewrite Hs1; simpl; lia|rewrite Hs1; apply Hne|].
  cbn [mbind res_bind].
  assert (Hw1 : well_formed d1) by (unfold well_formed; rewrite Hl1, Hs1; exact HwCk).
  exists Ck, Fk, d2. split; [reflexivity|].
  split; [reflexivity|]. split; [exact HwCk|].
  split; [reflexivity|]. split; [exact HwFk|].
  split; [by rewrite Hs2, Hs1|].
  split; [unfold well_formed; rewrite Hl2, Hs2; exact Hw1|].
  split; [|split].
  - intros t idx Ht Hb. unfold Ck.
    rewrite (get_regroup _ T (M * G) [M; Ny; Nx; Nz])
      by (done || rewrite prod4; lia).
    reflexivity.
  - intros t idx Ht Hb. unfold Fk.
    rewrite (get_regroup _ T (6 * G) [6; Ny; Nx; Nz])
      by (done || rewrite prod4; lia).
    reflexivity.
  - intros idx Hb.
    rewrite Hg2 by (done || by rewrite Hs1).
    rewrite Hg1 by done.
    destruct (matches first_species_pattern idx),
             (matches (second_species_pattern Nn Nm Np) idx); reflexivity.
Qed.
End Postprocess.
End PostprocessFacts.

(** ** The driver [simulation] *)

Section SimulationFacts.
Context {K : Type} `{Scalar K}.
Variable ifftn : array K -> res (array K).
Variable _twothirds_mask : nat -> nat -> nat -> value K.
Variable Hermite_Fourier_system :
  array K -> array K -> array K ->
  value K -> value K -> value K -> value K -> value K ->
  value K -> value K -> value K -> value K -> value K -> value K ->
  value K -> value K -> value K -> value K -> value K ->
  value K -> value K -> value K -> value K ->
  nat -> nat -> nat -> nat -> value K -> res (array K).
Variable plasma_current :
  value K -> value K -> value K -> array K -> nat -> nat -> nat -> nat ->
  res (array K).
Variable initialize_simulation_parameters :
  dict K -> nat -> nat -> nat -> nat -> nat -> nat -> nat -> nat -> K ->
  res (dict K).
Variable diffeqsolve : diffeqsolve_call K -> res (solution K).
Variable diagnostics : dict K -> res (dict K).

Variables (input_parameters : dict K) (Nx Ny Nz Nn Nm Np Ns timesteps : nat).
Variables (dt : K) (solver : AbstractSolver).

Local Abbreviation rhs := (ode_system ifftn _twothirds_mask Hermite_Fourier_system
                             plasma_current Nx Ny Nz Nn Nm Np Ns).
Local Abbreviation run := (simulation ifftn _twothirds_mask Hermite_Fourier_system
                             plasma_current initialize_simulation_parameters
                             diffeqsolve diagnostics input_parameters
                             Nx Ny Nz Nn Nm Np Ns timesteps dt solver).

Variables (parameters : dict K) (Ck_0 Fk_0 : array K) (t_max tol : K).
Variable params : list (value K).
Hypothesis Hinit :
  initialize_simulation_parameters input_parameters Nx Ny Nz Nn Nm Np Ns timesteps dt
  = Ok parameters.
Hypothesis HCk_0 : parameters !! "Ck_0" = Some (VArr Ck_0).
Hypothesis HFk_0 : parameters !! "Fk_0" = Some (VArr Fk_0).
Hypothesis Ht_max : parameters !! "t_max" = Some (VNum t_max).
Hypothesis Htol : parameters !! "ode_tolerance" = Some (VNum tol).
Hypothesis Hkeys : getitems parameters arg_keys = Ok params.
Hypothesis Htimesteps : 0 < timesteps.

Local Abbreviation the_call :=
  (simulation_call ifftn _twothirds_mask Hermite_Fourier_system plasma_current
     Nx Ny Nz Nn Nm Np Ns timesteps dt solver Ck_0 Fk_0 t_max tol params).
Local Abbreviation finish :=
  (simulation_finish diagnostics Nx Ny Nz Nn Nm Np Ns timesteps parameters t_max).

Lemma bind_lift_Ok {A B} (a : A) (f : A -> sim K B) log :
  (lift (Ok a) ≫= f) log = f a log.
Proof. reflexivity. Qed.

Lemma bind_lift_Raise {A B} (e : error) (f : A -> sim K B) log :
  (lift (Raise e) ≫= f) log = (Raise e, log).
Proof. reflexivity. Qed.

Lemma simulation_unfold log :
  run log = (diffeqsolve the_call ≫= finish, log ++ [the_call]).
Proof.
  unfold simulation. rewrite Hinit, bind_lift_Ok.
  unfold getitem. rewrite HCk_0, HFk_0, Ht_max, Htol, Hkeys.
  cbn [mbind res_bind as_arr as_num].
  rewrite !bind_lift_Ok.
  rewrite SaveAt_linspace by exact Htimesteps. rewrite bind_lift_Ok.
  unfold mbind at 1, sim_bind at 1, invoke.
  fold the_call.
  destruct (diffeqsolve the_call) as [sol|e]; [|reflexivity].
  cbn [mbind res_bind]. unfold simulation_finish.
  destruct (postprocess Nx Ny Nz Nn Nm Np Ns sol) as [[[Ck Fk] dCk]|e]; [|reflexivity].
  rewrite bind_lift_Ok. cbn [mbind res_bind].
  destruct (diagnostics _) as [output|e]; reflexivity.
Qed.

(** Without output times the call is refused while its arguments are
    built. *)
Lemma simulation_no_output_times log :
  timesteps = 0 -> run log = (Raise ValueError, log).
Proof.
  clear Htimesteps. intros Hz. unfold simulation. rewrite Hinit, bind_lift_Ok.
  unfold getitem. rewrite HCk_0, HFk_0, Ht_max, Htol, Hkeys.
  cbn [mbind res_bind as_arr as_num].
  rewrite !bind_lift_Ok. rewrite Hz, SaveAt_linspace_0.
  by rewrite bind_lift_Raise.
Qed.

Lemma simulation_log log :
  exists calls, snd (run log) = log ++ calls /\ length calls <= 1.
Proof.
  clear Hinit HCk_0 HFk_0 Ht_max Htol Hkeys Htimesteps.
  unfold simulation.
  repeat match goal with
  | |- context [(lift ?r ≫= _) _] =>
      destruct r;
      [rewrite bind_lift_Ok
      |rewrite bind_lift_Raise; exists []; rewrite app_nil_r; split; [done|simpl; lia]]
  end.
  unfold mbind at 1, sim_bind at 1, invoke.
  match goal with |- context [diffeqsolve ?c] => exists [c]; destruct (diffeqsolve c) end;
    [|by split].
  repeat match goal with
  | |- context [(lift ?r ≫= _) _] =>
      destruct r; [rewrite bind_lift_Ok|rewrite bind_lift_Raise; by split]
  | |- context [let '(_, _) := ?x in _] => destruct x
  end.
  by split.
Qed.

Lemma getitem_as_num (d : dict K) key x :
  getitem d key ≫= as_num = Ok x -> d !! key = Some (VNum x).
Proof.
  unfold getitem. destruct (d !! key) as [[n|x'|a]|]; cbn; congruence.
Qed.

(** What a returning [simulation] has gone through. *)
Lemma simulation_inv log output :
  fst (run log) = Ok output ->
  exists ps tm sol Ck Fk dCk,
    initialize_simulation_parameters input_parameters Nx Ny Nz Nn Nm Np Ns timesteps dt
    = Ok ps
    /\ ps !! "t_max" = Some (VNum tm)
    /\ postprocess Nx Ny Nz Nn Nm Np Ns sol = Ok (Ck, Fk, dCk)
    /\ diagnostics (ps ∪ temporary_output Ck Fk dCk (linspace kzero tm timesteps))
       = Ok output.
Proof.
  clear Hinit HCk_0 HFk_0 Ht_max Htol Hkeys Htimesteps.
  unfold simulation.
  destruct (initialize_simulation_parameters _ _ _ _ _ _ _ _ _ _) as [ps|e] eqn:Hi;
    [rewrite bind_lift_Ok|by rewrite bind_lift_Raise].
  destruct (getitem ps "Ck_0" ≫= as_arr) as [c0|e];
    [rewrite bind_lift_Ok|by rewrite bind_lift_Raise].
  destruct (getitem ps "Fk_0" ≫= as_arr) as [f0|e];
    [rewrite bind_lift_Ok|by rewrite bind_lift_Raise].
  destruct (getitem ps "t_max" ≫= as_num) as [tm|e] eqn:Htm;
    [rewrite bind_lift_Ok|by rewrite bind_lift_Raise].
  destruct (getitems ps arg_keys) as [vs|e];
    [rewrite bind_lift_Ok|by rewrite bind_lift_Raise].
  destruct (getitem ps "ode_tolerance" ≫= as_num) as [tl|e];
    [rewrite !bind_lift_Ok|by rewrite bind_lift_Raise].
  destruct (SaveAt _) as [sv|e];
    [rewrite bind_lift_Ok|by rewrite bind_lift_Raise].
  unfold mbind at 1, sim_bind at 1, invoke.
  destruct (diffeqsolve _) as [sol|e]; [|done].
  destruct (postprocess Nx Ny Nz Nn Nm Np Ns sol) as [[[Ck Fk] dCk]|e] eqn:Hp;
    [rewrite bind_lift_Ok|by rewrite bind_lift_Raise].
  destruct (diagnostics _) as [o|e] eqn:Hd;
    [rewrite bind_lift_Ok|by rewrite bind_lift_Raise].
  cbn. intros [= <-].
  exists ps, tm, sol, Ck, Fk, dCk.
  split; [reflexivity|]. split; [by apply getitem_as_num|]. by split.
Qed.

Section Returns.
Local Abbreviation M := (Ns * Nn * Nm * Np).
Local Abbreviation G := (Ny * Nx * Nz).
Variable sol : solution K.
Hypothesis HNx : 0 < Nx.
Hypothesis HNy : 0 < Ny.
Hypothesis HNz : 0 < Nz.
Hypothesis HM : 0 < M.
Hypothesis HlenCk_0 : length (data Ck_0) = M * G.
Hypothesis HlenFk_0 : length (data Fk_0) = 6 * G.
Hypothesis Hsamples : diffeqsolve_samples diffeqsolve.
Hypothesis Hdiag : diagnostics_extends diagnostics.
Hypothesis Hsol : diffeqsolve the_call = Ok sol.

Lemma solution_shape :
  length (ts sol) = timesteps /\ shape (ys sol) = [timesteps; M * G + 6 * G].
Proof.
  destruct (Hsamples _ _ Hsol) as [Hts Hys]. cbn [saveat y0 simulation_call] in *.
  rewrite Hts, Hys, linspace_length, length_app. unfold flatten.
  by rewrite HlenCk_0, HlenFk_0.
Qed.

Lemma simulation_Ok log :
  exists Ck Fk dCk output,
    postprocess Nx Ny Nz Nn Nm Np Ns sol = Ok (Ck, Fk, dCk)
    /\ run log = (Ok output, log ++ [the_call])
    /\ parameters ∪ temporary_output Ck Fk dCk (linspace kzero t_max timesteps)
       ⊆ output.
Proof.
  destruct solution_shape as [Hts Hys].
  destruct (postprocess_Ok Nx Ny Nz Nn Nm Np Ns timesteps _ sol
              HNx HNy HNz HM Hts Hys eq_refl)
    as (Ck & Fk & dCk & Hpost & _).
  destruct (Hdiag (parameters ∪ temporary_output Ck Fk dCk
                     (linspace kzero t_max timesteps))) as (output & Hd & Hsub).
  exists Ck, Fk, dCk, output. split; [exact Hpost|]. split; [|exact Hsub].
  rewrite simulation_unfold, Hsol. cbn [mbind res_bind].
  unfold simulation_finish. rewrite Hpost. cbn [mbind res_bind].
  by rewrite Hd.
Qed.
End Returns.
End SimulationFacts.

(** ** The Gaussian rationals are an exact scalar type *)

Lemma gauss_ring :
  ring_theory (kzero (K := Gauss.t)) kone kadd kmul ksub kopp (@eq Gauss.t).
Proof.
  constructor; intros; repeat match goal with x : Gauss.t |- _ => destruct x end;
    cbn; unfold Gauss.add, Gauss.mul, Gauss.sub, Gauss.opp, Gauss.zero, Gauss.one;
    cbn [fst snd]; f_equal; ring.
Qed.

#[export] Instance gauss_exact : ExactScalar Gauss.t.
Proof.
  constructor.
  - exact gauss_ring.
  - intros [a b] [c d] [e f]. cbn. unfold Gauss.div, Gauss.mul. cbn [fst snd].
    f_equal; ring.
  - reflexivity.
Qed.

Lemma gauss_one_neq_zero : kone (K := Gauss.t) <> kzero.
Proof. intros E. apply (f_equal (fun x => this x.1)) in E. discriminate E. Qed.

(** ** The sample collaborators meet the contracts *)

Section SampleFacts.
Context {K : Type} `{Scalar K}.

Lemma sample_ifftn_returns : ifftn_returns (K := K) sample_ifftn.
Proof. intros x. by exists x. Qed.

Lemma sample_Hermite_Fourier_system_returns :
  Hermite_Fourier_system_returns (K := K) sample_Hermite_Fourier_system.
Proof. intros Ck **. by eexists. Qed.

Lemma sample_Hermite_Fourier_system_shaped :
  Hermite_Fourier_system_shaped (K := K) sample_Hermite_Fourier_system.
Proof.
  intros Ck **. unfold sample_Hermite_Fourier_system in *. simplify_eq.
  split; [reflexivity|]. unfold arr_neg, arr_map. cbn. by rewrite length_map.
Qed.

Lemma sample_plasma_current_returns :
  plasma_current_returns (K := K) sample_plasma_current.
Proof.
  intros qs alpha_s u_s Ck Nn Nm Np Ns m sh Hs. eexists. split; [reflexivity|].
  by rewrite Hs.
Qed.

Lemma sample_diffeqsolve_samples : diffeqsolve_samples (K := K) sample_diffeqsolve.
Proof. intros c sol [= <-]. by split. Qed.

Lemma sample_diagnostics_extends : diagnostics_extends (K := K) sample_diagnostics.
Proof. intros d. eexists. split; [reflexivity|]. apply map_union_subseteq_l. Qed.

Lemma sample_parameters_lookup Nx Ny Nz Nn Nm Np Ns :
  let ps : dict K := sample_parameters Nx Ny Nz Nn Nm Np Ns in
  ps !! "Ck_0" = Some (VArr (tabulate [Ns * Nn * Nm * Np; Ny; Nx; Nz] (fun _ => kone)))
  /\ ps !! "Fk_0" = Some (VArr (tabulate [6; Ny; Nx; Nz] (fun _ => kone)))
  /\ ps !! "t_max" = Some (VNum kone)
  /\ ps !! "ode_tolerance" = Some (VNum kone)
  /\ ps !! "Ck" = None /\ ps !! "Fk" = None
  /\ ps !! "time" = None /\ ps !! "dCk" = None.
Proof. repeat split; reflexivity. Qed.

Lemma sample_parameters_args Nx Ny Nz Nn Nm Np Ns :
  getitems (sample_parameters Nx Ny Nz Nn Nm Np Ns) arg_keys
  = Ok (sample_params (K := K) Nx Ny Nz).
Proof. reflexivity. Qed.
End SampleFacts.

(** * Main results *)

(** A list of 21 values, as the 21 names of lines 71-74 bind it. *)
Ltac split_args l :=
  do 21 (destruct l as [|? l]; [discriminate|]);
  destruct l; [|discriminate].

Section RightHandSide.
Context {K : Type} `{Scalar K}.
Variable ifftn : array K -> res (array K).
Variable _twothirds_mask : nat -> nat -> nat -> value K.
Variable Hermite_Fourier_system :
  array K -> array K -> array K ->
  value K -> value K -> value K -> value K -> value K ->
  value K -> value K -> value K -> value K -> value K -> value K ->
  value K -> value K -> value K -> value K -> value K ->
  value K -> value K -> value K -> value K ->
  nat -> nat -> nat -> nat -> value K -> res (array K).
Variable plasma_current :
  value K -> value K -> value K -> array K -> nat -> nat -> nat -> nat ->
  res (array K).

Local Abbreviation rhs := (ode_system ifftn _twothirds_mask Hermite_Fourier_system
                             plasma_current).

(** C1. On a state of the right length, with [nabla] of shape
    [(3, Ny, Nx, Nz)] and [Omega_cs] a non-empty vector, [ode_system]
    returns the distribution derivative followed by a field block of
    exactly [6 * Ny * Nx * Nz] entries; at every grid point its first three
    components are [i (nabla x B) - J / Omega_cs[0]], with [J] the output of
    [plasma_current], and its last three are [-i (nabla x E)], where [E] is
    components 0-2 and [B] components 3-5 of [Fk] and the cross product is
    the standard one. *)
Theorem maxwell_contract (Nx Ny Nz Nn Nm Np Ns : nat) (t : K) (y : list K)
    (args : list (value K)) (qs alpha_s u_s : value K)
    (Omega_cs nabla : array K) (n : nat) :
  length (drop 7 args) = 21 ->
  drop 7 args !! 0 = Some qs ->
  drop 7 args !! 3 = Some (VArr Omega_cs) ->
  drop 7 args !! 4 = Some alpha_s ->
  drop 7 args !! 5 = Some u_s ->
  drop 7 args !! 13 = Some (VArr nabla) ->
  shape nabla = [3; Ny; Nx; Nz] ->
  shape Omega_cs = [n] -> n <> 0 ->
  length y = Ns * Nn * Nm * Np * Ny * Nx * Nz + 6 * Ny * Nx * Nz ->
  ifftn_returns ifftn ->
  Hermite_Fourier_system_returns Hermite_Fourier_system ->
  plasma_current_returns plasma_current ->
  let G := Ny * Nx * Nz in
  let size_Ck := Nn * Nm * Np * Ns * Nx * Ny * Nz in
  let Ck := mkArr [Nn * Nm * Np * Ns; Ny; Nx; Nz] (take size_Ck y) in
  let Fk := drop size_Ck y in
  exists dCk_s_dt current dFk_dt,
    plasma_current qs alpha_s u_s Ck Nn Nm Np Ns = Ok current
    /\ rhs Nx Ny Nz Nn Nm Np Ns t y args = Ok (flatten dCk_s_dt ++ dFk_dt)
    /\ length dFk_dt = 6 * G
    /\ forall g, g < G ->
         vec3_at dFk_dt G 0 g
         = maxwell_dE (vec3_at (data nabla) G 0 g) (vec3_at Fk G 3 g)
                      (vec3_at (data current) G 0 g)
                      (default kzero (data Omega_cs !! 0))
         /\ vec3_at dFk_dt G 3 g
           = maxwell_dB (vec3_at (data nabla) G 0 g) (vec3_at Fk G 0 g).
Proof.
  intros Hlen Hqs HOm Hal Hus Hnab Hsn HsO Hn Hy Hi Hh Hp G size_Ck Ck Fk.
  remember (drop 7 args) as l eqn:Hl. split_args l.
  cbn in Hqs, HOm, Hal, Hus, Hnab. simplify_eq.
  edestruct (ode_system_Ok ifftn _twothirds_mask Hermite_Fourier_system plasma_current
               Nx Ny Nz Nn Nm Np Ns t y args) as (C & F & dCk & J & dF & _ & HJ & Hr & Hrest);
    [symmetry; exact Hl|exact Hsn|exact HsO|exact Hn|lia|exact Hi|exact Hh|exact Hp|].
  exists dCk, J, dF. split; [exact HJ|]. split; [exact Hr|]. exact Hrest.
Qed.

(** C3. A state vector of length exactly
    [Ns*Nn*Nm*Np*Ny*Nx*Nz + 6*Ny*Nx*Nz] is cut by [ode_system] into the [Ck]
    block (its first [Ns*Nn*Nm*Np*Ny*Nx*Nz] entries) and the [Fk] block (its
    last [6*Ny*Nx*Nz] entries); the two reshapes are exact (the blocks put
    end to end are the state again, nothing is added); it is these two
    blocks that [ode_system] shifts and transforms, hands to
    [Hermite_Fourier_system] and [plasma_current] and uses in the field
    update; and what it returns is the flattened distribution derivative
    followed by the flattened field derivative, each as long as its block,
    hence a vector of the length of the state. *)
Theorem state_packing_exact (Nx Ny Nz Nn Nm Np Ns : nat) (t : K) (y : list K)
    (args : list (value K))
    (qs nu D alpha_s u_s Lx Ly Lz kx_grid ky_grid kz_grid k2_grid col
     sqrt_n_plus sqrt_n_minus sqrt_m_plus sqrt_m_minus sqrt_p_plus sqrt_p_minus
     : value K) (Omega_cs nabla : array K) (n : nat) :
  drop 7 args = [qs; nu; D; VArr Omega_cs; alpha_s; u_s; Lx; Ly; Lz;
                 kx_grid; ky_grid; kz_grid; k2_grid; VArr nabla; col;
                 sqrt_n_plus; sqrt_n_minus; sqrt_m_plus; sqrt_m_minus;
                 sqrt_p_plus; sqrt_p_minus] ->
  shape nabla = [3; Ny; Nx; Nz] ->
  shape Omega_cs = [n] -> n <> 0 ->
  ifftn_returns ifftn ->
  Hermite_Fourier_system_returns Hermite_Fourier_system ->
  Hermite_Fourier_system_shaped Hermite_Fourier_system ->
  plasma_current_returns plasma_current ->
  length y = Ns * Nn * Nm * Np * Ny * Nx * Nz + 6 * Ny * Nx * Nz ->
  let G := Ny * Nx * Nz in
  let size_Ck := Nn * Nm * Np * Ns * Nx * Ny * Nz in
  let Ck := mkArr [Nn * Nm * Np * Ns; Ny; Nx; Nz] (take size_Ck y) in
  let Fk := mkArr [6; Ny; Nx; Nz] (drop size_Ck y) in
  unpack_state Nx Ny Nz Nn Nm Np Ns y = Ok (Ck, Fk)
  /\ length (data Ck) = Ns * Nn * Nm * Np * Ny * Nx * Nz
  /\ length (data Fk) = 6 * Ny * Nx * Nz
  /\ flatten Ck ++ flatten Fk = y
  /\ exists sFk sCk C F dCk_s_dt current dFk_dt,
       ifftshift 3 Fk = Ok sFk /\ ifftn sFk = Ok F
       /\ ifftshift 3 Ck = Ok sCk /\ ifftn sCk = Ok C
       /\ Hermite_Fourier_system Ck C F kx_grid ky_grid kz_grid k2_grid col
            sqrt_n_plus sqrt_n_minus sqrt_m_plus sqrt_m_minus sqrt_p_plus
            sqrt_p_minus Lx Ly Lz nu D alpha_s u_s qs (VArr Omega_cs) Nn Nm Np Ns
            (_twothirds_mask Ny Nx Nz) = Ok dCk_s_dt
       /\ plasma_current qs alpha_s u_s Ck Nn Nm Np Ns = Ok current
       /\ (forall g, g < G ->
             vec3_at dFk_dt G 0 g
             = maxwell_dE (vec3_at (data nabla) G 0 g) (vec3_at (data Fk) G 3 g)
                          (vec3_at (data current) G 0 g)
                          (default kzero (data Omega_cs !! 0))
             /\ vec3_at dFk_dt G 3 g
               = maxwell_dB (vec3_at (data nabla) G 0 g) (vec3_at (data Fk) G 0 g))
       /\ rhs Nx Ny Nz Nn Nm Np Ns t y args = Ok (flatten dCk_s_dt ++ dFk_dt)
       /\ length (flatten dCk_s_dt) = length (data Ck)
       /\ length dFk_dt = length (data Fk)
       /\ length (flatten dCk_s_dt ++ dFk_dt) = length y.
Proof.
  intros Hargs Hsn HsO Hn Hi Hh Hs Hp Hy G size_Ck Ck Fk.
  assert (Hy' : length y = size_Ck + 6 * G) by (unfold size_Ck, G; lia).
  destruct (ode_system_run ifftn _twothirds_mask Hermite_Fourier_system plasma_current
              Nx Ny Nz Nn Nm Np Ns t y args _ _ _ _ _ _ _ _ _ _ _ _ _ _ _ _ _ _ _ _ _ n
              Hargs Hsn HsO Hn Hy' Hi Hh Hp)
    as (sFk & sCk & C & F & dCk & J & dF & HsFk & HF & HsCk & HC & HdCk & HJ & Hr
        & HdF & Hpt).
  pose proof (Hs _ _ _ _ _ _ _ _ _ _ _ _ _ _ _ _ _ _ _ _ _ _ _ _ _ _ _ _ _ HdCk)
    as [_ HldCk].
  assert (HlC : length (data Ck) = size_Ck)
    by (unfold Ck; cbn [data]; rewrite length_take; lia).
  assert (HlF : length (data Fk) = 6 * G)
    by (unfold Fk; cbn [data]; rewrite length_drop; lia).
  split; [apply unpack_state_Ok; exact Hy'|].
  split; [rewrite HlC; unfold size_Ck; lia|].
  split; [rewrite HlF; unfold G; lia|].
  split; [apply take_drop|].
  exists sFk, sCk, C, F, dCk, J, dF.
  split; [exact HsFk|]. split; [exact HF|]. split; [exact HsCk|]. split; [exact HC|].
  split; [exact HdCk|]. split; [exact HJ|]. split; [exact Hpt|]. split; [exact Hr|].
  split; [exact HldCk|]. split; [by rewrite HlF|].
  assert (HldCk' : length (data dCk) = size_Ck) by (rewrite HldCk; exact HlC).
  rewrite length_app. unfold flatten at 1. rewrite HldCk', HdF. exact (eq_sym Hy').
Qed.

(** C10. Two states of the right length that have the same field block
    [Fk], whatever their distribution blocks, are sent by [ode_system] to
    derivative vectors with the same last [3*Ny*Nx*Nz] entries, the
    [dB/dt] components. *)
Theorem magnetic_derivative_independent_of_Ck (Nx Ny Nz Nn Nm Np Ns : nat)
    (t : K) (y1 y2 : list K) (args : list (value K))
    (Omega_cs nabla : array K) (n : nat) :
  length (drop 7 args) = 21 ->
  drop 7 args !! 3 = Some (VArr Omega_cs) ->
  drop 7 args !! 13 = Some (VArr nabla) ->
  shape nabla = [3; Ny; Nx; Nz] ->
  shape Omega_cs = [n] -> n <> 0 ->
  ifftn_returns ifftn ->
  Hermite_Fourier_system_returns Hermite_Fourier_system ->
  plasma_current_returns plasma_current ->
  length y1 = Ns * Nn * Nm * Np * Ny * Nx * Nz + 6 * Ny * Nx * Nz ->
  length y2 = Ns * Nn * Nm * Np * Ny * Nx * Nz + 6 * Ny * Nx * Nz ->
  drop (Ns * Nn * Nm * Np * Ny * Nx * Nz) y1
  = drop (Ns * Nn * Nm * Np * Ny * Nx * Nz) y2 ->
  exists out1 out2,
    rhs Nx Ny Nz Nn Nm Np Ns t y1 args = Ok out1
    /\ rhs Nx Ny Nz Nn Nm Np Ns t y2 args = Ok out2
    /\ lastn (3 * Ny * Nx * Nz) out1 = lastn (3 * Ny * Nx * Nz) out2.
Proof.
  intros Hlen HOm Hnab Hsn HsO Hn Hi Hh Hp Hy1 Hy2 HFk.
  set (size_Ck := Nn * Nm * Np * Ns * Nx * Ny * Nz).
  replace (Ns * Nn * Nm * Np * Ny * Nx * Nz) with size_Ck in * by (unfold size_Ck; lia).
  remember (drop 7 args) as l eqn:Hl. split_args l.
  cbn in HOm, Hnab. simplify_eq.
  edestruct (ode_system_Ok ifftn _twothirds_mask Hermite_Fourier_system plasma_current
               Nx Ny Nz Nn Nm Np Ns t y1 args)
    as (C1 & F1 & d1 & J1 & dF1 & _ & _ & Hr1 & Hl1 & Hp1);
    [symmetry; exact Hl|exact Hsn|exact HsO|exact Hn|fold size_Ck; lia
    |exact Hi|exact Hh|exact Hp|].
  edestruct (ode_system_Ok ifftn _twothirds_mask Hermite_Fourier_system plasma_current
               Nx Ny Nz Nn Nm Np Ns t y2 args)
    as (C2 & F2 & d2 & J2 & dF2 & _ & _ & Hr2 & Hl2 & Hp2);
    [symmetry; exact Hl|exact Hsn|exact HsO|exact Hn|fold size_Ck; lia
    |exact Hi|exact Hh|exact Hp|].
  fold size_Ck in Hp1, Hp2.
  exists (flatten d1 ++ dF1), (flatten d2 ++ dF2).
  split; [exact Hr1|]. split; [exact Hr2|].
  replace (3 * Ny * Nx * Nz) with (3 * (Ny * Nx * Nz)) by lia.
  rewrite !lastn_app by lia. unfold lastn. rewrite Hl1, Hl2.
  replace (6 * (Ny * Nx * Nz) - 3 * (Ny * Nx * Nz)) with (3 * (Ny * Nx * Nz)) by lia.
  apply field_block_tail; [exact Hl1|exact Hl2|].
  intros g Hg. destruct (Hp1 g Hg) as [_ ->]. destruct (Hp2 g Hg) as [_ ->].
  by rewrite HFk.
Qed.
End RightHandSide.

(** ** Purity of the right-hand side *)

Lemma eff_bind_lift {W A B : Type} (r : res A) (k : A -> eff W B) (w : W) :
  eff_bind (eff_lift r) k w
  = match r with Ok a => k a w | Raise e => (Raise e, w) end.
Proof. unfold eff_bind, eff_lift. by destruct r. Qed.

Lemma eff_bind_stateless {W A B : Type} (m : eff W A) (r : res A)
    (k : A -> eff W B) (w : W) :
  stateless m r ->
  eff_bind m k w = match r with Ok a => k a w | Raise e => (Raise e, w) end.
Proof. intros Hm. unfold eff_bind. rewrite (Hm w). by destruct r. Qed.

Ltac eff_case :=
  lazymatch goal with
  | |- match ?r with Ok _ => _ | Raise _ => _ end = _ =>
      destruct r; [cbn [mbind res_bind]|reflexivity]
  end.

Section Purity.
Context {K : Type} `{Scalar K} {W : Type}.
Variable ifftn : array K -> res (array K).
Variable _twothirds_mask : nat -> nat -> nat -> value K.
Variable Hermite_Fourier_system :
  array K -> array K -> array K ->
  value K -> value K -> value K -> value K -> value K ->
  value K -> value K -> value K -> value K -> value K -> value K ->
  value K -> value K -> value K -> value K -> value K ->
  value K -> value K -> value K -> value K ->
  nat -> nat -> nat -> nat -> value K -> res (array K).
Variable plasma_current :
  value K -> value K -> value K -> array K -> nat -> nat -> nat -> nat ->
  res (array K).
Variable ifftn_eff : array K -> eff W (array K).
Variable mask_eff : nat -> nat -> nat -> eff W (value K).
Variable Hermite_Fourier_system_eff :
  array K -> array K -> array K ->
  value K -> value K -> value K -> value K -> value K ->
  value K -> value K -> value K -> value K -> value K -> value K ->
  value K -> value K -> value K -> value K -> value K ->
  value K -> value K -> value K -> value K ->
  nat -> nat -> nat -> nat -> value K -> eff W (array K).
Variable plasma_current_eff :
  value K -> value K -> value K -> array K -> nat -> nat -> nat -> nat ->
  eff W (array K).

Local Abbreviation rhs := (ode_system ifftn _twothirds_mask Hermite_Fourier_system
                             plasma_current).
Local Abbreviation rhs_eff := (ode_system_eff ifftn_eff mask_eff
                                 Hermite_Fourier_system_eff plasma_current_eff).

(** When its helpers are pure, so is [ode_system]: it returns what the
    pure function returns and hands the hidden state back untouched. *)
Lemma ode_system_eff_stateless (Nx Ny Nz Nn Nm Np Ns : nat) (t : K)
    (y : list K) (args : list (value K)) :
  (forall x, stateless (ifftn_eff x) (ifftn x)) ->
  (forall Ny Nx Nz, stateless (mask_eff Ny Nx Nz) (Ok (_twothirds_mask Ny Nx Nz))) ->
  (forall Ck C F a1 a2 a3 a4 a5 a6 a7 a8 a9 a10 a11 a12 a13 a14 a15 a16 a17 a18 a19
          a20 Nn Nm Np Ns m,
     stateless (Hermite_Fourier_system_eff Ck C F a1 a2 a3 a4 a5 a6 a7 a8 a9 a10 a11
                  a12 a13 a14 a15 a16 a17 a18 a19 a20 Nn Nm Np Ns m)
               (Hermite_Fourier_system Ck C F a1 a2 a3 a4 a5 a6 a7 a8 a9 a10 a11
                  a12 a13 a14 a15 a16 a17 a18 a19 a20 Nn Nm Np Ns m)) ->
  (forall qs alpha_s u_s Ck Nn Nm Np Ns,
     stateless (plasma_current_eff qs alpha_s u_s Ck Nn Nm Np Ns)
               (plasma_current qs alpha_s u_s Ck Nn Nm Np Ns)) ->
  stateless (rhs_eff Nx Ny Nz Nn Nm Np Ns t y args) (rhs Nx Ny Nz Nn Nm Np Ns t y args).
Proof.
  intros Hi Hm Hh Hp w. unfold ode_system_eff, ode_system.
  generalize (drop 7 args). intros l.
  do 21 (destruct l as [|? l]; [reflexivity|]).
  destruct l; [|reflexivity].
  rewrite eff_bind_lift.
  destruct (unpack_state Nx Ny Nz Nn Nm Np Ns y) as [[Ck Fk]|e]; [|reflexivity].
  cbn [mbind res_bind].
  rewrite eff_bind_lift. eff_case.
  rewrite (eff_bind_stateless _ _ _ _ (Hi _)). eff_case.
  rewrite eff_bind_lift. eff_case.
  rewrite (eff_bind_stateless _ _ _ _ (Hi _)). eff_case.
  rewrite (eff_bind_stateless _ _ _ _ (Hm _ _ _)).
  rewrite (eff_bind_stateless _ _ _ _ (Hh _ _ _ _ _ _ _ _ _ _ _ _ _ _ _ _ _ _ _ _ _ _ _
                                         _ _ _ _ _)).
  eff_case.
  do 4 (rewrite eff_bind_lift; eff_case).
  rewrite (eff_bind_stateless _ _ _ _ (Hp _ _ _ _ _ _ _ _)). eff_case.
  do 8 (rewrite eff_bind_lift; eff_case).
  reflexivity.
Qed.

(** C4. [ode_system] is a pure, deterministic function of the state and the
    parameter tuple, and does not depend on the time argument.  With helpers
    that are pure, a call of [ode_system], whatever hidden state it starts
    from, returns the value of the pure function and leaves the hidden state
    as it was; that value is the same at any two times; so two calls on the
    same state and parameters, at any times and from any hidden states,
    return the same result, and a second call made after a first one
    returns what the first returned. *)
Theorem ode_system_pure_and_time_independent (Nx Ny Nz Nn Nm Np Ns : nat)
    (t1 t2 : K) (y : list K) (args : list (value K)) (w : W) :
  (forall x, stateless (ifftn_eff x) (ifftn x)) ->
  (forall Ny Nx Nz, stateless (mask_eff Ny Nx Nz) (Ok (_twothirds_mask Ny Nx Nz))) ->
  (forall Ck C F a1 a2 a3 a4 a5 a6 a7 a8 a9 a10 a11 a12 a13 a14 a15 a16 a17 a18 a19
          a20 Nn Nm Np Ns m,
     stateless (Hermite_Fourier_system_eff Ck C F a1 a2 a3 a4 a5 a6 a7 a8 a9 a10 a11
                  a12 a13 a14 a15 a16 a17 a18 a19 a20 Nn Nm Np Ns m)
               (Hermite_Fourier_system Ck C F a1 a2 a3 a4 a5 a6 a7 a8 a9 a10 a11
                  a12 a13 a14 a15 a16 a17 a18 a19 a20 Nn Nm Np Ns m)) ->
  (forall qs alpha_s u_s Ck Nn Nm Np Ns,
     stateless (plasma_current_eff qs alpha_s u_s Ck Nn Nm Np Ns)
               (plasma_current qs alpha_s u_s Ck Nn Nm Np Ns)) ->
  rhs_eff Nx Ny Nz Nn Nm Np Ns t1 y args w = (rhs Nx Ny Nz Nn Nm Np Ns t1 y args, w)
  /\ rhs Nx Ny Nz Nn Nm Np Ns t1 y args = rhs Nx Ny Nz Nn Nm Np Ns t2 y args
  /\ (forall w' : W,
        fst (rhs_eff Nx Ny Nz Nn Nm Np Ns t1 y args w)
        = fst (rhs_eff Nx Ny Nz Nn Nm Np Ns t2 y args w'))
  /\ (forall r1 w1 r2 w2,
        rhs_eff Nx Ny Nz Nn Nm Np Ns t1 y args w = (r1, w1) ->
        rhs_eff Nx Ny Nz Nn Nm Np Ns t2 y args w1 = (r2, w2) ->
        r1 = r2 /\ w1 = w /\ w2 = w).
Proof.
  intros Hi Hm Hh Hp.
  pose proof (ode_system_eff_stateless Nx Ny Nz Nn Nm Np Ns t1 y args Hi Hm Hh Hp)
    as H1.
  pose proof (ode_system_eff_stateless Nx Ny Nz Nn Nm Np Ns t2 y args Hi Hm Hh Hp)
    as H2.
  split; [apply H1|]. split; [reflexivity|]. split.
  - intros w'. by rewrite (H1 w), (H2 w').
  - intros r1 w1 r2 w2. rewrite (H1 w). intros [= <- <-].
    rewrite (H2 w). intros [= <- <-]. done.
Qed.
End Purity.


Lemma temporary_output_lookup {K : Type} (Ck Fk dCk : array K) (time : list K) :
  temporary_output Ck Fk dCk time !! "Ck" = Some (VArr Ck)
  /\ temporary_output Ck Fk dCk time !! "Fk" = Some (VArr Fk)
  /\ temporary_output Ck Fk dCk time !! "time" = Some (VArr (vec time))
  /\ temporary_output Ck Fk dCk time !! "dCk" = Some (VArr dCk).
Proof. unfold temporary_output. repeat split; by simplify_map_eq. Qed.

Lemma merged_lookup_fresh {K : Type} (ps tmp out : dict K) key v :
  ps ∪ tmp ⊆ out -> ps !! key = None -> tmp !! key = Some v -> out !! key = Some v.
Proof.
  intros Hsub Hps Htmp. eapply lookup_weaken; [|exact Hsub].
  rewrite lookup_union_r by done. exact Htmp.
Qed.

Lemma merged_lookup_parameter {K : Type} (ps tmp out : dict K) key v :
  ps ∪ tmp ⊆ out -> ps !! key = Some v -> out !! key = Some v.
Proof.
  intros Hsub Hps. eapply lookup_weaken; [|exact Hsub].
  by apply lookup_union_Some_l.
Qed.

Section ExactGrid.
Context {K : Type} `{ExactScalar K}.
Add Ring Kgrid : exact_ring.

Lemma kdiv_zero (d : K) : kdiv kzero d = kzero.
Proof.
  replace (kdiv kzero d) with (kdiv (kmul kzero kzero) d) by (f_equal; ring).
  rewrite <- exact_div. ring.
Qed.

(** In exact arithmetic the grid from 0 is [i * stop / (num - 1)]. *)
Lemma linspace_zero_lookup (stop : K) n i :
  i < n - 1 ->
  linspace kzero stop n !! i
  = Some (kdiv (kmul (kofnat i) stop) (kofnat (n - 1))).
Proof.
  intros Hi. rewrite linspace_lookup by done. f_equal.
  rewrite exact_div.
  replace (kmul stop (kofnat i)) with (kmul (kofnat i) stop) by ring.
  ring.
Qed.

Lemma linspace_zero_head (stop : K) n :
  1 <= n -> linspace kzero stop n !! 0 = Some kzero.
Proof.
  intros Hn. destruct (decide (n = 1)) as [->|Hn1]; [reflexivity|].
  rewrite linspace_zero_lookup by lia. f_equal.
  rewrite exact_ofnat_0.
  replace (kmul kzero stop) with (kzero (K := K)) by ring.
  apply kdiv_zero.
Qed.
End ExactGrid.

(** The frequency shift applied by [ode_system] takes the centre of an axis
    with an odd number of modes to position 0, the zero frequency of the
    transform. *)
Lemma ifftshift_centre N :
  N mod 2 = 1 -> ifftshift_index 1 [N] [0] = [centre N].
Proof.
  intros Hodd. unfold centre. cbn [ifftshift_index length].
  case_decide; [|lia]. f_equal.
  assert (0 < N) by (destruct N; [discriminate|lia]).
  rewrite Nat.add_0_l, Nat.mod_small by (apply Nat.Div0.div_lt_upper_bound; lia).
  pose proof (Nat.div_mod_eq N 2) as HN.
  apply (Nat.div_unique _ 2 _ 0); lia.
Qed.

Section Driver.
Context {K : Type} `{Scalar K}.
Variable ifftn : array K -> res (array K).
Variable _twothirds_mask : nat -> nat -> nat -> value K.
Variable Hermite_Fourier_system :
  array K -> array K -> array K ->
  value K -> value K -> value K -> value K -> value K ->
  value K -> value K -> value K -> value K -> value K -> value K ->
  value K -> value K -> value K -> value K -> value K ->
  value K -> value K -> value K -> value K ->
  nat -> nat -> nat -> nat -> value K -> res (array K).
Variable plasma_current :
  value K -> value K -> value K -> array K -> nat -> nat -> nat -> nat ->
  res (array K).
Variable initialize_simulation_parameters :
  dict K -> nat -> nat -> nat -> nat -> nat -> nat -> nat -> nat -> K ->
  res (dict K).
Variable diffeqsolve : diffeqsolve_call K -> res (solution K).
Variable diagnostics : dict K -> res (dict K).

Local Abbreviation run := (simulation ifftn _twothirds_mask Hermite_Fourier_system
                             plasma_current initialize_simulation_parameters
                             diffeqsolve diagnostics).
Local Abbreviation call := (simulation_call ifftn _twothirds_mask
                              Hermite_Fourier_system plasma_current).

(** C7, as amended. When the initializer has produced the entries
    [simulation] reads and at least one output time is asked for,
    [simulation] invokes the integrator exactly once: with [ode_system]
    applied to the seven mode counts as the derivative function, with
    [rtol] and [atol] both [ode_tolerance], with [max_steps = 1000000], and
    with the output sampled at the time grid [linspace(0, t_max,
    timesteps)]; what the integrator returns goes straight to the
    post-processing, and an exception it raises is the outcome of
    [simulation]. *)
Theorem single_integrator_call (input_parameters : dict K)
    (Nx Ny Nz Nn Nm Np Ns timesteps : nat) (dt : K) (solver : AbstractSolver)
    (parameters : dict K) (Ck_0 Fk_0 : array K) (t_max tol : K)
    (params : list (value K)) (log : list (diffeqsolve_call K)) :
  initialize_simulation_parameters input_parameters Nx Ny Nz Nn Nm Np Ns timesteps dt
  = Ok parameters ->
  parameters !! "Ck_0" = Some (VArr Ck_0) ->
  parameters !! "Fk_0" = Some (VArr Fk_0) ->
  parameters !! "t_max" = Some (VNum t_max) ->
  parameters !! "ode_tolerance" = Some (VNum tol) ->
  getitems parameters arg_keys = Ok params ->
  0 < timesteps ->
  let c := call Nx Ny Nz Nn Nm Np Ns timesteps dt solver Ck_0 Fk_0 t_max tol params in
  let r := run input_parameters Nx Ny Nz Nn Nm Np Ns timesteps dt solver log in
  snd r = log ++ [c]
  /\ terms c = ode_system ifftn _twothirds_mask Hermite_Fourier_system plasma_current
                 Nx Ny Nz Nn Nm Np Ns
  /\ stepsize_controller c = PIDController tol tol
  /\ max_steps c = 1000000%Z
  /\ saveat c = linspace kzero t_max timesteps
  /\ y0 c = flatten Ck_0 ++ flatten Fk_0
  /\ fst r = diffeqsolve c
             ≫= simulation_finish diagnostics Nx Ny Nz Nn Nm Np Ns timesteps
                  parameters t_max
  /\ forall e, diffeqsolve c = Raise e -> fst r = Raise e.
Proof.
  intros Hinit HCk HFk Ht Htol Hkeys Hts c r.
  assert (Hr : r = (diffeqsolve c
                    ≫= simulation_finish diagnostics Nx Ny Nz Nn Nm Np Ns timesteps
                         parameters t_max, log ++ [c])).
  { subst r c. eapply simulation_unfold; eassumption. }
  rewrite Hr. cbn [fst snd].
  repeat (split; [reflexivity|]).
  intros e He. by rewrite He.
Qed.

(** C8. The dictionary returned by [simulation] has the keys [Ck], [Fk],
    [time] and [dCk] and every key of the parameter dictionary, each
    parameter key with the value the initializer gave it; the merge builds
    a new dictionary and [parameters] itself is the value it was. *)
Theorem output_merges_parameters (input_parameters : dict K)
    (Nx Ny Nz Nn Nm Np Ns timesteps : nat) (dt : K) (solver : AbstractSolver)
    (parameters output : dict K) (log : list (diffeqsolve_call K)) :
  initialize_simulation_parameters input_parameters Nx Ny Nz Nn Nm Np Ns timesteps dt
  = Ok parameters ->
  diagnostics_preserves diagnostics ->
  fst (run input_parameters Nx Ny Nz Nn Nm Np Ns timesteps dt solver log) = Ok output ->
  (forall key, key ∈ ["Ck"; "Fk"; "time"; "dCk"] -> is_Some (output !! key))
  /\ (forall key v, parameters !! key = Some v -> output !! key = Some v).
Proof.
  intros Hinit Hdiag Hrun.
  apply simulation_inv in Hrun as (ps & tm & sol & Ck & Fk & dCk & Hi & _ & _ & Hd).
  rewrite Hinit in Hi. injection Hi as <-.
  apply Hdiag in Hd.
  destruct (temporary_output_lookup Ck Fk dCk (linspace kzero tm timesteps))
    as (H1 & H2 & H3 & H4).
  split.
  - intros key Hkey.
    assert (Htmp : is_Some (temporary_output Ck Fk dCk (linspace kzero tm timesteps)
                            !! key)).
    { repeat (apply elem_of_cons in Hkey as [->|Hkey]; [by eexists|]).
      by apply elem_of_nil in Hkey. }
    destruct Htmp as [v Hv].
    destruct (parameters !! key) as [w|] eqn:Hp.
    + exists w. by eapply merged_lookup_parameter.
    + exists v. by eapply merged_lookup_fresh.
  - intros key v Hp. by eapply merged_lookup_parameter.
Qed.

(** C9. In the dictionary returned by [simulation] (whose parameters have
    no entry named [Ck] or [dCk]) the array [dCk] has the shape of [Ck],
    and an entry of [dCk] is 0 at moment index 0 or [Nn*Nm*Np] and spatial
    position (y=0, x=1, z=0) and is the entry of [Ck] everywhere else: the
    two arrays differ in at most those two entries of a time sample, and
    no entry of a species after the second is changed. *)
Theorem dCk_changes_two_entries (input_parameters : dict K)
    (Nx Ny Nz Nn Nm Np Ns timesteps : nat) (dt : K) (solver : AbstractSolver)
    (parameters output : dict K) (log : list (diffeqsolve_call K)) :
  initialize_simulation_parameters input_parameters Nx Ny Nz Nn Nm Np Ns timesteps dt
  = Ok parameters ->
  parameters !! "Ck" = None -> parameters !! "dCk" = None ->
  diagnostics_preserves diagnostics ->
  fst (run input_parameters Nx Ny Nz Nn Nm Np Ns timesteps dt solver log) = Ok output ->
  exists (Ck dCk : array K) (T : nat),
    output !! "Ck" = Some (VArr Ck) /\ output !! "dCk" = Some (VArr dCk)
    /\ shape Ck = [T; Ns * Nn * Nm * Np; Ny; Nx; Nz] /\ shape dCk = shape Ck
    /\ forall t c y x z,
         t < T -> c < Ns * Nn * Nm * Np -> y < Ny -> x < Nx -> z < Nz ->
         get dCk [t; c; y; x; z]
         = (if bool_decide ((c = 0 \/ c = Nn * Nm * Np) /\ y = 0 /\ x = 1 /\ z = 0)
            then kzero else get Ck [t; c; y; x; z])
         /\ (get dCk [t; c; y; x; z] <> get Ck [t; c; y; x; z] ->
             (c = 0 \/ c = Nn * Nm * Np) /\ y = 0 /\ x = 1 /\ z = 0)
         /\ (2 * (Nn * Nm * Np) <= c -> get dCk [t; c; y; x; z] = get Ck [t; c; y; x; z]).
Proof.
  intros Hinit HnCk HndCk Hdiag Hrun.
  apply simulation_inv in Hrun as (ps & tm & sol & Ck & Fk & dCk & Hi & _ & Hpost & Hd).
  rewrite Hinit in Hi. injection Hi as <-.
  apply Hdiag in Hd.
  destruct (temporary_output_lookup Ck Fk dCk (linspace kzero tm timesteps))
    as (H1 & _ & _ & H4).
  apply postprocess_inv in Hpost as (HsC & HwC & _ & _ & HsD & _ & Hget).
  exists Ck, dCk, (length (ts sol)).
  split; [by eapply merged_lookup_fresh|]. split; [by eapply merged_lookup_fresh|].
  split; [exact HsC|]. split; [exact HsD|].
  intros t c y x z Ht Hc Hy Hx Hz.
  assert (Hb : in_bounds (shape Ck) [t; c; y; x; z]).
  { rewrite HsC. repeat constructor; assumption. }
  assert (Heq : get dCk [t; c; y; x; z]
                = if bool_decide ((c = 0 \/ c = Nn * Nm * Np) /\ y = 0 /\ x = 1 /\ z = 0)
                  then kzero else get Ck [t; c; y; x; z]).
  { rewrite (Hget _ Hb), matches_first, matches_second by reflexivity.
    cbn [lookup list_lookup]. rewrite <- bool_decide_or.
    erewrite bool_decide_ext; [reflexivity|]. split.
    - intros [(? & ? & ? & ?)|(? & ? & ? & ?)]; simplify_eq; auto.
    - intros [[-> | ->] (-> & -> & ->)]; auto. }
  split; [exact Heq|]. split.
  - intros Hne. rewrite Heq in Hne. case_bool_decide; [assumption|congruence].
  - intros Hc2. rewrite Heq. case_bool_decide as Hcase; [|reflexivity].
    destruct Hcase as [[->| ->] _]; lia.
Qed.

End Driver.

(** ** A run of the model on the sample collaborators *)

Section SampleRun.
Context {K : Type} `{Scalar K}.
Variables (Nx Ny Nz Nn Nm Np Ns timesteps : nat) (dt : K) (solver : AbstractSolver).
Hypothesis HNx : 0 < Nx.
Hypothesis HNy : 0 < Ny.
Hypothesis HNz : 0 < Nz.
Hypothesis HM : 0 < Ns * Nn * Nm * Np.
Hypothesis Htimesteps : 0 < timesteps.

Local Abbreviation M := (Ns * Nn * Nm * Np).
Local Abbreviation G := (Ny * Nx * Nz).
Local Abbreviation ps := (sample_parameters (K := K) Nx Ny Nz Nn Nm Np Ns).
Local Abbreviation Ck_0 := (tabulate (K := K) [M; Ny; Nx; Nz] (fun _ => kone)).
Local Abbreviation Fk_0 := (tabulate (K := K) [6; Ny; Nx; Nz] (fun _ => kone)).
Local Abbreviation srun :=
  (simulation sample_ifftn sample_mask sample_Hermite_Fourier_system
     sample_plasma_current sample_initialize sample_diffeqsolve sample_diagnostics
     (∅ : dict K) Nx Ny Nz Nn Nm Np Ns timesteps dt solver).
Local Abbreviation scall :=
  (simulation_call sample_ifftn sample_mask sample_Hermite_Fourier_system
     sample_plasma_current Nx Ny Nz Nn Nm Np Ns timesteps dt solver
     Ck_0 Fk_0 kone kone (sample_params Nx Ny Nz)).

Lemma sample_lengths :
  length (data Ck_0) = M * G /\ length (data Fk_0) = 6 * G.
Proof. rewrite !tabulate_length, !prod4. lia. Qed.

Lemma sample_run_Ok log :
  exists (Ck Fk dCk : array K) (output : dict K),
    srun log = (Ok output, log ++ [scall])
    /\ ps ∪ temporary_output Ck Fk dCk (linspace kzero kone timesteps) ⊆ output
    /\ shape Ck = [timesteps; M; Ny; Nx; Nz]
    /\ shape Fk = [timesteps; 6; Ny; Nx; Nz]
    /\ (forall t idx, t < timesteps -> in_bounds [M; Ny; Nx; Nz] idx ->
          get Ck (t :: idx) = kone)
    /\ (forall idx, in_bounds [timesteps; M; Ny; Nx; Nz] idx ->
          get dCk idx
          = if matches first_species_pattern idx
               || matches (second_species_pattern Nn Nm Np) idx
            then kzero else get Ck idx).
Proof.
  destruct sample_lengths as [HlC HlF].
  destruct (sample_parameters_lookup (K := K) Nx Ny Nz Nn Nm Np Ns)
    as (HC0 & HF0 & Ht & Htol & _).
  pose (sol := mkSol (saveat scall)
                 (tabulate [length (saveat scall); length (y0 scall)]
                    (fun idx => match idx with
                                | [_; j] => default (kzero (K := K)) (y0 scall !! j)
                                | _ => kzero
                                end))).
  assert (Hsol : sample_diffeqsolve scall = Ok sol) by reflexivity.
  destruct (simulation_Ok sample_ifftn sample_mask sample_Hermite_Fourier_system
              sample_plasma_current sample_initialize sample_diffeqsolve
              sample_diagnostics ∅ Nx Ny Nz Nn Nm Np Ns timesteps dt solver
              ps Ck_0 Fk_0 kone kone (sample_params Nx Ny Nz)
              eq_refl HC0 HF0 Ht Htol (sample_parameters_args _ _ _ _ _ _ _)
              Htimesteps sol HNx HNy HNz HM HlC HlF sample_diffeqsolve_samples
              sample_diagnostics_extends Hsol log)
    as (Ck & Fk & dCk & output & Hpost & Hrun & Hsub).
  assert (Hts : length (ts sol) = timesteps) by apply linspace_length.
  assert (Hy0 : length (y0 scall) = M * G + 6 * G).
  { cbn [y0 simulation_call]. rewrite length_app. unfold flatten. lia. }
  assert (Hys : shape (ys sol) = [timesteps; M * G + 6 * G]).
  { change (shape (ys sol)) with [length (ts sol); length (y0 scall)].
    by rewrite Hts, Hy0. }
  destruct (postprocess_Ok Nx Ny Nz Nn Nm Np Ns timesteps _ sol
              HNx HNy HNz HM Hts Hys eq_refl)
    as (Ck' & Fk' & dCk' & Hpost' & HsC & _ & HsF & _ & _ & _ & HgC & _ & HgD).
  rewrite Hpost in Hpost'. injection Hpost' as <- <- <-.
  exists Ck, Fk, dCk, output.
  split; [exact Hrun|]. split; [exact Hsub|].
  split; [exact HsC|]. split; [exact HsF|]. split; [|exact HgD].
  intros t idx Hlt Hb. rewrite HgC by done.
  pose proof (ravel_lt _ _ Hb) as Hj. rewrite prod4 in Hj.
  assert (Hlt' : t < length (saveat scall)) by (rewrite <- Hts in Hlt; exact Hlt).
  unfold sol. cbn [ys].
  rewrite get_tabulate by (apply in_bounds_pair; [exact Hlt'|rewrite Hy0; lia]).
  cbn [y0 simulation_call]. unfold flatten.
  rewrite lookup_app_l by lia.
  rewrite tabulate_lookup by (rewrite prod4; lia). reflexivity.
Qed.
End SampleRun.

Lemma sample_diagnostics_preserves {K : Type} `{Scalar K} :
  diagnostics_preserves (K := K) sample_diagnostics.
Proof. intros d d' [= <-]. apply map_union_subseteq_l. Qed.

Ltac in_bounds_tac :=
  repeat (apply Forall2_cons; split; [lia|]); constructor.

(** ** The background mode on the default scenario *)

(** C2 on the default scenario ([Nx=33, Ny=1, Nz=1, Nn=20, Nm=1, Np=1, Ns=2,
    timesteps=200]) with a trajectory whose [Ck] entries are all 1: the
    background entry of the first species, at the centre [x = 16] of the
    shifted grid, is still 1 in the returned [dCk], and the entry at
    [x = 1], which is not a background entry, has been set to 0; so [dCk] is
    not [Ck] with the background entries removed. *)
Theorem background_mode_not_removed :
  let r := simulation (K := Gauss.t) sample_ifftn sample_mask
             sample_Hermite_Fourier_system sample_plasma_current sample_initialize
             sample_diffeqsolve sample_diagnostics ∅ 33 1 1 20 1 1 2 200 kone Dopri5 [] in
  exists (output : dict Gauss.t) (Ck dCk : array Gauss.t),
    fst r = Ok output
    /\ output !! "Ck" = Some (VArr Ck) /\ output !! "dCk" = Some (VArr dCk)
    /\ is_background 33 1 1 20 1 1 2 [0; 0; 0; 16; 0] = true
    /\ get Ck [0; 0; 0; 16; 0] = kone
    /\ get dCk [0; 0; 0; 16; 0] = kone
    /\ get (dCk_spec 33 1 1 20 1 1 2 Ck) [0; 0; 0; 16; 0] = kzero
    /\ is_background 33 1 1 20 1 1 2 [0; 0; 0; 1; 0] = false
    /\ get Ck [0; 0; 0; 1; 0] = kone
    /\ get dCk [0; 0; 0; 1; 0] = kzero
    /\ dCk <> dCk_spec 33 1 1 20 1 1 2 Ck.
Proof.
  intros r.
  destruct (sample_run_Ok (K := Gauss.t) 33 1 1 20 1 1 2 200 kone Dopri5
              ltac:(lia) ltac:(lia) ltac:(lia) ltac:(lia) ltac:(lia) [])
    as (Ck & Fk & dCk & output & Hrun & Hsub & HsC & _ & Hones & HgD).
  destruct (sample_parameters_lookup (K := Gauss.t) 33 1 1 20 1 1 2)
    as (_ & _ & _ & _ & HnCk & _ & _ & HndCk).
  destruct (temporary_output_lookup Ck Fk dCk (linspace kzero kone 200))
    as (H1 & _ & _ & H4).
  assert (Hc : get Ck [0; 0; 0; 16; 0] = kone) by (apply Hones; [lia|in_bounds_tac]).
  assert (Hc1 : get Ck [0; 0; 0; 1; 0] = kone) by (apply Hones; [lia|in_bounds_tac]).
  assert (Hd : get dCk [0; 0; 0; 16; 0] = kone).
  { rewrite HgD by in_bounds_tac. exact Hc. }
  assert (Hs : get (dCk_spec 33 1 1 20 1 1 2 Ck) [0; 0; 0; 16; 0] = kzero).
  { unfold dCk_spec. rewrite get_tabulate by (rewrite HsC; in_bounds_tac).
    reflexivity. }
  exists output, Ck, dCk. subst r. rewrite Hrun.
  split; [reflexivity|].
  split; [by eapply merged_lookup_fresh|]. split; [by eapply merged_lookup_fresh|].
  split; [reflexivity|]. split; [exact Hc|]. split; [exact Hd|]. split; [exact Hs|].
  split; [reflexivity|]. split; [exact Hc1|].
  split; [by rewrite HgD by in_bounds_tac|].
  intros E. rewrite E, Hs in Hd. by apply gauss_one_neq_zero.
Qed.

(** ** The time grid with a single sample *)


(** ** The integrator without output times *)

(** C7 fails for [timesteps = 0]: on the default mode counts with no output
    time, [simulation] raises [ValueError] when it builds [SaveAt(ts=time)]
    and the integrator is not invoked at all. *)
Lemma integrator_not_called_without_output_times :
  let r := simulation (K := Gauss.t) sample_ifftn sample_mask
             sample_Hermite_Fourier_system sample_plasma_current sample_initialize
             sample_diffeqsolve sample_diagnostics ∅ 33 1 1 20 1 1 2 0 kone Dopri5 [] in
  fst r = Raise ValueError
  /\ snd r = []
  /\ ~ exists c, snd r = [c].
Proof.
  intros r.
  assert (Hr : r = (Raise ValueError, [])).
  { subst r.
    apply (simulation_no_output_times (K := Gauss.t) sample_ifftn sample_mask
             sample_Hermite_Fourier_system sample_plasma_current sample_initialize
             sample_diffeqsolve sample_diagnostics ∅ 33 1 1 20 1 1 2 0 kone Dopri5
             (sample_parameters 33 1 1 20 1 1 2)
             (tabulate [2 * 20 * 1 * 1; 1; 33; 1] (fun _ => kone))
             (tabulate [6; 1; 33; 1] (fun _ => kone)) kone kone (sample_params 33 1 1));
      reflexivity. }
  rewrite Hr. cbn [fst snd]. split; [reflexivity|]. split; [reflexivity|].
  intros [c Hc]. discriminate.
Qed.

(** ** The cross product in binary64 *)


(** ** The statements on concrete inputs *)

(** The right-hand side on three Fourier modes, two Hermite modes and two
    species: a state of 12 distribution and 18 field coefficients. *)
Lemma maxwell_contract_witness :
  exists (dCk_s_dt : array Gauss.t) (dFk_dt : list Gauss.t),
    ode_system sample_ifftn sample_mask sample_Hermite_Fourier_system
      sample_plasma_current 3 1 1 2 1 1 2 kzero (sample_state 12 18)
      (sample_args 3 1 1 2 1 1 2)
    = Ok (flatten dCk_s_dt ++ dFk_dt)
    /\ length dFk_dt = 18.
Proof.
  destruct (maxwell_contract (K := Gauss.t) sample_ifftn sample_mask
              sample_Hermite_Fourier_system sample_plasma_current
              3 1 1 2 1 1 2 kzero (sample_state 12 18) (sample_args 3 1 1 2 1 1 2)
              (VArr (vec [kopp kone; kone])) (VArr (vec [kopp kone; kone]))
              (VArr (vec [kopp kone; kone])) (vec [kopp kone; kone])
              (tabulate [3; 1; 3; 1] (fun _ => kone)) 2)
    as (dCk & J & dF & _ & Hr & Hl & _).
  - reflexivity.
  - reflexivity.
  - reflexivity.
  - reflexivity.
  - reflexivity.
  - reflexivity.
  - reflexivity.
  - reflexivity.
  - lia.
  - reflexivity.
  - apply sample_ifftn_returns.
  - apply sample_Hermite_Fourier_system_returns.
  - apply sample_plasma_current_returns.
  - exists dCk, dF. split; [exact Hr|exact Hl].
Defined.

Lemma state_packing_exact_witness :
  exists out : list Gauss.t,
    ode_system sample_ifftn sample_mask sample_Hermite_Fourier_system
      sample_plasma_current 3 1 1 2 1 1 2 kzero (sample_state 12 18)
      (sample_args 3 1 1 2 1 1 2) = Ok out
    /\ length out = 30.
Proof.
  edestruct (state_packing_exact (K := Gauss.t) sample_ifftn sample_mask
               sample_Hermite_Fourier_system sample_plasma_current
               3 1 1 2 1 1 2 kzero (sample_state 12 18) (sample_args 3 1 1 2 1 1 2))
    as (_ & _ & _ & _ & sFk & sCk & C & F & dCk & J & dF & _ & _ & _ & _ & _ & _ & _
        & Hr & _ & _ & Hl).
  - reflexivity.
  - reflexivity.
  - reflexivity.
  - cbn [length]. lia.
  - apply sample_ifftn_returns.
  - apply sample_Hermite_Fourier_system_returns.
  - apply sample_Hermite_Fourier_system_shaped.
  - apply sample_plasma_current_returns.
  - reflexivity.
  - eexists. split; [exact Hr|exact Hl].
Defined.

(** The sample helpers as callables over a hidden counter that they leave
    alone. *)
Lemma ode_system_pure_and_time_independent_witness :
  ode_system_eff (K := Gauss.t) (W := nat)
    (fun x => eff_lift (sample_ifftn x))
    (fun Ny Nx Nz => eff_lift (Ok (sample_mask Ny Nx Nz)))
    (fun Ck C F a1 a2 a3 a4 a5 a6 a7 a8 a9 a10 a11 a12 a13 a14 a15 a16 a17 a18 a19 a20
         Nn Nm Np Ns m =>
       eff_lift (sample_Hermite_Fourier_system Ck C F a1 a2 a3 a4 a5 a6 a7 a8 a9 a10
                   a11 a12 a13 a14 a15 a16 a17 a18 a19 a20 Nn Nm Np Ns m))
    (fun qs alpha_s u_s Ck Nn Nm Np Ns =>
       eff_lift (sample_plasma_current qs alpha_s u_s Ck Nn Nm Np Ns))
    3 1 1 2 1 1 2 kzero (sample_state 12 18) (sample_args 3 1 1 2 1 1 2) 7
  = (ode_system sample_ifftn sample_mask sample_Hermite_Fourier_system
       sample_plasma_current 3 1 1 2 1 1 2 kone (sample_state 12 18)
       (sample_args 3 1 1 2 1 1 2), 7).
Proof.
  destruct (ode_system_pure_and_time_independent (K := Gauss.t) (W := nat)
              sample_ifftn sample_mask sample_Hermite_Fourier_system
              sample_plasma_current
              (fun x => eff_lift (sample_ifftn x))
              (fun Ny Nx Nz => eff_lift (Ok (sample_mask Ny Nx Nz)))
              (fun Ck C F a1 a2 a3 a4 a5 a6 a7 a8 a9 a10 a11 a12 a13 a14 a15 a16 a17
                   a18 a19 a20 Nn Nm Np Ns m =>
                 eff_lift (sample_Hermite_Fourier_system Ck C F a1 a2 a3 a4 a5 a6 a7
                             a8 a9 a10 a11 a12 a13 a14 a15 a16 a17 a18 a19 a20
                             Nn Nm Np Ns m))
              (fun qs alpha_s u_s Ck Nn Nm Np Ns =>
                 eff_lift (sample_plasma_current qs alpha_s u_s Ck Nn Nm Np Ns))
              3 1 1 2 1 1 2 kzero kone (sample_state 12 18)
              (sample_args 3 1 1 2 1 1 2) 7)
    as (Hpure & Htime & _).
  - intros x w. reflexivity.
  - intros Ny Nx Nz w. reflexivity.
  - intros Ck C F a1 a2 a3 a4 a5 a6 a7 a8 a9 a10 a11 a12 a13 a14 a15 a16 a17 a18 a19
           a20 Nn Nm Np Ns m w. reflexivity.
  - intros qs alpha_s u_s Ck Nn Nm Np Ns w. reflexivity.
  - rewrite Hpure, Htime. reflexivity.
Defined.

(** Two states with the same 18 field coefficients and different
    distribution coefficients. *)
Lemma magnetic_derivative_independent_of_Ck_witness :
  exists out1 out2 : list Gauss.t,
    ode_system sample_ifftn sample_mask sample_Hermite_Fourier_system
      sample_plasma_current 3 1 1 2 1 1 2 kzero (sample_state 12 18)
      (sample_args 3 1 1 2 1 1 2) = Ok out1
    /\ ode_system sample_ifftn sample_mask sample_Hermite_Fourier_system
         sample_plasma_current 3 1 1 2 1 1 2 kzero
         (replicate 12 kzero ++ replicate 18 (kadd kone kone))
         (sample_args 3 1 1 2 1 1 2) = Ok out2
    /\ lastn 9 out1 = lastn 9 out2.
Proof.
  apply (magnetic_derivative_independent_of_Ck (K := Gauss.t) sample_ifftn sample_mask
           sample_Hermite_Fourier_system sample_plasma_current
           3 1 1 2 1 1 2 kzero (sample_state 12 18)
           (replicate 12 kzero ++ replicate 18 (kadd kone kone))
           (sample_args 3 1 1 2 1 1 2)
           (vec [kopp kone; kone]) (tabulate [3; 1; 3; 1] (fun _ => kone)) 2).
  - reflexivity.
  - reflexivity.
  - reflexivity.
  - reflexivity.
  - reflexivity.
  - lia.
  - apply sample_ifftn_returns.
  - apply sample_Hermite_Fourier_system_returns.
  - apply sample_plasma_current_returns.
  - reflexivity.
  - reflexivity.
  - reflexivity.
Defined.


(** The driver on three Fourier modes, two Hermite modes, two species and
    four output times. *)
Lemma single_integrator_call_witness :
  snd (simulation (K := Gauss.t) sample_ifftn sample_mask sample_Hermite_Fourier_system
         sample_plasma_current sample_initialize sample_diffeqsolve sample_diagnostics
         ∅ 3 1 1 2 1 1 2 4 kone Dopri5 [])
  = [simulation_call sample_ifftn sample_mask sample_Hermite_Fourier_system
       sample_plasma_current 3 1 1 2 1 1 2 4 kone Dopri5
       (tabulate [2 * 2 * 1 * 1; 1; 3; 1] (fun _ => kone))
       (tabulate [6; 1; 3; 1] (fun _ => kone)) kone kone (sample_params 3 1 1)].
Proof.
  apply (single_integrator_call (K := Gauss.t) sample_ifftn sample_mask
           sample_Hermite_Fourier_system sample_plasma_current sample_initialize
           sample_diffeqsolve sample_diagnostics ∅ 3 1 1 2 1 1 2 4 kone Dopri5
           (sample_parameters 3 1 1 2 1 1 2)
           (tabulate [2 * 2 * 1 * 1; 1; 3; 1] (fun _ => kone))
           (tabulate [6; 1; 3; 1] (fun _ => kone)) kone kone (sample_params 3 1 1) []).
  - reflexivity.
  - reflexivity.
  - reflexivity.
  - reflexivity.
  - reflexivity.
  - reflexivity.
  - lia.
Defined.

Lemma output_merges_parameters_witness :
  exists output : dict Gauss.t,
    fst (simulation sample_ifftn sample_mask sample_Hermite_Fourier_system
           sample_plasma_current sample_initialize sample_diffeqsolve sample_diagnostics
           ∅ 3 1 1 2 1 1 2 4 kone Dopri5 []) = Ok output
    /\ is_Some (output !! "dCk")
    /\ output !! "t_max" = Some (VNum kone).
Proof.
  destruct (sample_run_Ok (K := Gauss.t) 3 1 1 2 1 1 2 4 kone Dopri5
              ltac:(lia) ltac:(lia) ltac:(lia) ltac:(lia) ltac:(lia) [])
    as (Ck & Fk & dCk & output & Hrun & _).
  exists output. split; [by rewrite Hrun|].
  destruct (output_merges_parameters (K := Gauss.t) sample_ifftn sample_mask
              sample_Hermite_Fourier_system sample_plasma_current sample_initialize
              sample_diffeqsolve sample_diagnostics ∅ 3 1 1 2 1 1 2 4 kone Dopri5
              (sample_parameters 3 1 1 2 1 1 2) output []) as [Hkeys Hparams].
  - reflexivity.
  - apply sample_diagnostics_preserves.
  - by rewrite Hrun.
  - split; [apply Hkeys; rewrite !elem_of_cons; auto|apply Hparams; reflexivity].
Defined.

Lemma dCk_changes_two_entries_witness :
  exists (output : dict Gauss.t) (Ck dCk : array Gauss.t),
    fst (simulation sample_ifftn sample_mask sample_Hermite_Fourier_system
           sample_plasma_current sample_initialize sample_diffeqsolve sample_diagnostics
           ∅ 3 1 1 2 1 1 2 4 kone Dopri5 []) = Ok output
    /\ output !! "Ck" = Some (VArr Ck) /\ output !! "dCk" = Some (VArr dCk)
    /\ shape dCk = shape Ck.
Proof.
  destruct (sample_run_Ok (K := Gauss.t) 3 1 1 2 1 1 2 4 kone Dopri5
              ltac:(lia) ltac:(lia) ltac:(lia) ltac:(lia) ltac:(lia) [])
    as (Ck0 & Fk0 & dCk0 & output & Hrun & _).
  destruct (dCk_changes_two_entries (K := Gauss.t) sample_ifftn sample_mask
              sample_Hermite_Fourier_system sample_plasma_current sample_initialize
              sample_diffeqsolve sample_diagnostics ∅ 3 1 1 2 1 1 2 4 kone Dopri5
              (sample_parameters 3 1 1 2 1 1 2) output [])
    as (Ck & dCk & T & HCk & HdCk & _ & Hs & _).
  - reflexivity.
  - reflexivity.
  - reflexivity.
  - apply sample_diagnostics_preserves.
  - by rewrite Hrun.
  - exists output, Ck, dCk. split; [by rewrite Hrun|]. by repeat split.
Defined.


(** * Further properties of the source *)

(** ** Arrays and flat blocks are determined by their elements *)

Section Extensionality.
Context {K : Type} `{Scalar K}.

Lemma array_ext (a b : array K) :
  well_formed a -> well_formed b -> shape a = shape b ->
  (forall idx, in_bounds (shape a) idx -> get a idx = get b idx) -> a = b.
Proof.
  intros Ha Hb Hs Hget.
  rewrite <- (tabulate_get a Ha), <- (tabulate_get b Hb), <- Hs.
  by apply tabulate_ext.
Qed.

Lemma block_ext (u v : list K) G k :
  length u = k * G -> length v = k * G ->
  (forall c g, c < k -> g < G -> comp u G c g = comp v G c g) -> u = v.
Proof.
  intros Hu Hv Hc. apply list_eq. intros i.
  destruct (decide (i < k * G)) as [Hi|Hi].
  - assert (HG : 0 < G) by nia.
    destruct (lookup_lt_is_Some_2 u i) as [x Hx]; [lia|].
    destruct (lookup_lt_is_Some_2 v i) as [y Hy]; [lia|].
    pose proof (Nat.div_mod_eq i G) as Hdm.
    assert (Hg : i mod G < G) by (apply Nat.mod_upper_bound; lia).
    assert (Hq : i / G < k) by (apply Nat.Div0.div_lt_upper_bound; lia).
    specialize (Hc (i / G) (i mod G) Hq Hg). unfold comp in Hc.
    replace (i / G * G + i mod G) with i in Hc by lia.
    rewrite Hx, Hy in Hc |- *. cbn in Hc. by rewrite Hc.
  - rewrite !lookup_ge_None_2 by lia. reflexivity.
Qed.

Lemma bget_row_vector (k : array K) m i idx :
  shape k = [m] -> bget (row i k) idx = comp (data k) 1 i 0.
Proof.
  intros Hs. unfold bget, get, comp. rewrite row_shape, Hs. cbn [tail project ravel].
  unfold row. rewrite Hs. cbn [tail data]. rewrite prod_nil.
  destruct (data k !! (i * 1 + 0)) as [x|] eqn:Hx.
  - rewrite lookup_take_lt by lia. rewrite lookup_drop. by rewrite Hx.
  - rewrite lookup_take_lt by lia. rewrite lookup_drop. by rewrite Hx.
Qed.
End Extensionality.

(** ** More about [cross_product] *)

Section CrossProductMore.
Context {K : Type} `{Scalar K}.

(** X1. [cross_product] returns exactly when both arguments have three
    leading components and their trailing shapes broadcast against each
    other; the result then has three components over the broadcast shape and
    as many elements as that shape says.  It raises in every other case, and
    only then. *)
Theorem cross_product_returns_iff (a b : array K) :
  (forall r, cross_product a b = Ok r ->
     exists sa sb sh, shape a = 3 :: sa /\ shape b = 3 :: sb
       /\ broadcast_shapes sa sb = Some sh
       /\ shape r = 3 :: sh /\ well_formed r)
  /\ (forall sa sb sh, shape a = 3 :: sa -> shape b = 3 :: sb ->
        broadcast_shapes sa sb = Some sh ->
        exists r, cross_product a b = Ok r /\ shape r = 3 :: sh)
  /\ (forall e, cross_product a b = Raise e ->
        (forall sa, shape a <> 3 :: sa) \/ (forall sb, shape b <> 3 :: sb)
        \/ exists sa sb, shape a = 3 :: sa /\ shape b = 3 :: sb
             /\ broadcast_shapes sa sb = None).
Proof.
  destruct (leading3_dec a) as [[sa Ha]|Ha].
  2:{ rewrite (cross_product_Raise_l a b Ha). split; [done|]. split.
      - intros sa sb sh Hsa. by destruct (Ha sa).
      - intros e _. by left. }
  destruct (leading3_dec b) as [[sb Hb]|Hb].
  2:{ rewrite (cross_product_Raise_r a b Hb). split; [done|]. split.
      - intros sa' sb sh _ Hsb. by destruct (Hb sb).
      - intros e _. right. by left. }
  destruct (broadcast_shapes sa sb) as [sh|] eqn:Hbc.
  - rewrite (cross_product_Ok a b sa sb sh) by done. split; [|split].
    + intros r [= <-]. exists sa, sb, sh.
      split; [exact Ha|]. split; [exact Hb|]. split; [exact Hbc|].
      split; [reflexivity|].
      unfold well_formed. cbn [shape data].
      rewrite !length_app, !length_map, !length_seq, prod_cons. lia.
    + intros sa' sb' sh' Ha' Hb' Hbc'.
      rewrite Ha in Ha'. rewrite Hb in Hb'. simplify_eq.
      eexists. split; reflexivity.
    + done.
  - rewrite (cross_product_Raise_bc a b sa sb) by done. split; [done|]. split.
    + intros sa' sb' sh' Ha' Hb' Hbc'.
      rewrite Ha in Ha'. rewrite Hb in Hb'. simplify_eq.
    + intros e _. right. right. by exists sa, sb.
Qed.

(** X2. The cross product of a plain 3-vector [k] with a field [F] of shape
    [(3, ...)] broadcasts [k] over the grid: at every grid point the result
    is the cross product of [(k[0], k[1], k[2])] with the three components of
    [F] there. *)
Theorem cross_product_vector_field (k F : array K) (sh : list nat) :
  shape k = [3] -> shape F = 3 :: sh ->
  exists r, cross_product k F = Ok r
    /\ shape r = 3 :: sh
    /\ forall g, g < prod sh ->
         vec3_at (data r) (prod sh) 0 g
         = cross3 (vec3_at (data k) 1 0 0) (vec3_at (data F) (prod sh) 0 g).
Proof.
  intros Hk HF.
  rewrite (cross_product_Ok k F [] sh sh) by (done || apply broadcast_shapes_nil_l).
  eexists. split; [reflexivity|]. split; [reflexivity|]. cbn [data].
  intros g Hg.
  assert (HrF : forall i, shape (row i F) = sh) by (intros; by rewrite row_shape, HF).
  unfold vec3_at, cross3. cbn [Nat.add].
  rewrite comp_app_l by (rewrite cross_term_length; lia).
  rewrite (comp_app_r _ _ _ 1 0) by (rewrite cross_term_length; lia).
  rewrite comp_app_l by (rewrite cross_term_length; lia).
  rewrite (comp_app_r _ _ _ 1 1) by (rewrite cross_term_length; lia).
  rewrite (comp_app_r _ _ _ 1 0) by (rewrite cross_term_length; lia).
  unfold comp at 1 2 3. cbn [Nat.mul Nat.add].
  unfold cross_term. rewrite !tabulate_lookup by done. cbn [default from_option id].
  rewrite !(bget_row_vector k 3) by done.
  rewrite !(bget_flat _ sh) by done.
  rewrite !(row_comp _ F 3 sh) by done.
  reflexivity.
Qed.

Section Orthogonality.
Hypothesis Kring : ring_theory kzero kone kadd kmul ksub kopp (@eq K).
Add Ring Kortho : Kring.

Lemma dot3_cross3_l (a b : K * K * K) : dot3 a (cross3 a b) = kzero.
Proof. destruct a as [[ax ay] az], b as [[bx by_] bz]. cbn. ring. Qed.

Lemma dot3_cross3_r (a b : K * K * K) : dot3 b (cross3 a b) = kzero.
Proof. destruct a as [[ax ay] az], b as [[bx by_] bz]. cbn. ring. Qed.

Lemma dot3_scale (c : K) (a b : K * K * K) :
  dot3 a b = kzero -> dot3 a (map3 (kmul c) b) = kzero.
Proof.
  destruct a as [[ax ay] az], b as [[bx by_] bz]. cbn. intros Hd.
  replace (kadd (kadd (kmul ax (kmul c bx)) (kmul ay (kmul c by_))) (kmul az (kmul c bz)))
    with (kmul c (kadd (kadd (kmul ax bx) (kmul ay by_)) (kmul az bz))) by ring.
  rewrite Hd. ring.
Qed.
End Orthogonality.
End CrossProductMore.

(** X3. In exact arithmetic the result of [cross_product] on two arrays of
    one shape [(3, ...)] is orthogonal, at every grid point, to both of its
    arguments. *)
Theorem cross_product_orthogonal {K : Type} `{Scalar K} (a b : array K) (sh : list nat) :
  ring_theory kzero kone kadd kmul ksub kopp (@eq K) ->
  shape a = 3 :: sh -> shape b = 3 :: sh ->
  exists r, cross_product a b = Ok r
    /\ forall g, g < prod sh ->
         dot3 (vec3_at (data a) (prod sh) 0 g) (vec3_at (data r) (prod sh) 0 g) = kzero
         /\ dot3 (vec3_at (data b) (prod sh) 0 g) (vec3_at (data r) (prod sh) 0 g) = kzero.
Proof.
  intros Kring Ha Hb.
  destruct (cross_product_pointwise a b sh Ha Hb) as (r & Hr & _ & _ & Hp).
  exists r. split; [exact Hr|]. intros g Hg. rewrite (Hp g Hg).
  split; [by apply dot3_cross3_l|by apply dot3_cross3_r].
Qed.

(** ** More about [ode_system] *)

Section RightHandSideMore.
Context {K : Type} `{Scalar K}.
Variable ifftn : array K -> res (array K).
Variable _twothirds_mask : nat -> nat -> nat -> value K.
Variable Hermite_Fourier_system :
  array K -> array K -> array K ->
  value K -> value K -> value K -> value K -> value K ->
  value K -> value K -> value K -> value K -> value K -> value K ->
  value K -> value K -> value K -> value K -> value K ->
  value K -> value K -> value K -> value K ->
  nat -> nat -> nat -> nat -> value K -> res (array K).
Variable plasma_current :
  value K -> value K -> value K -> array K -> nat -> nat -> nat -> nat ->
  res (array K).

Local Abbreviation rhs := (ode_system ifftn _twothirds_mask Hermite_Fourier_system
                             plasma_current).

(** X4. Whatever the parameter tuple, [ode_system] raises on a state whose
    length is not [Nn*Nm*Np*Ns*Nx*Ny*Nz + 6*Ny*Nx*Nz]: a state that is too
    short or too long is never padded or cut. *)
Theorem ode_system_rejects_wrong_length (Nx Ny Nz Nn Nm Np Ns : nat) (t : K)
    (y : list K) (args : list (value K)) :
  length y <> Nn * Nm * Np * Ns * Nx * Ny * Nz + 6 * Ny * Nx * Nz ->
  exists e, rhs Nx Ny Nz Nn Nm Np Ns t y args = Raise e.
Proof. intros Hy. eexists. apply ode_system_Raise. lia. Qed.

(** X5. Whatever the state, [ode_system] raises [ValueError] when the
    parameter tuple does not hold exactly 21 entries after the seven mode
    counts. *)
Theorem ode_system_rejects_wrong_args (Nx Ny Nz Nn Nm Np Ns : nat) (t : K)
    (y : list K) (args : list (value K)) :
  length (drop 7 args) <> 21 ->
  rhs Nx Ny Nz Nn Nm Np Ns t y args = Raise ValueError.
Proof.
  intros Hlen. unfold ode_system. revert Hlen. generalize (drop 7 args). intros l Hlen.
  do 21 (destruct l as [|? l]; [reflexivity|]).
  destruct l; [|reflexivity]. by destruct Hlen.
Qed.

End RightHandSideMore.

Lemma vec3_at_comps {K : Type} `{Scalar K} (u v : list K) G g :
  vec3_at u G 0 g = vec3_at v G 0 g -> vec3_at u G 3 g = vec3_at v G 3 g ->
  forall c, c < 6 -> comp u G c g = comp v G c g.
Proof.
  unfold vec3_at. cbn [Nat.add]. intros [= E0 E1 E2] [= E3 E4 E5] c Hc.
  destruct c as [|[|[|[|[|[|c]]]]]]; try assumption. lia.
Qed.

Lemma lastn_all {K : Type} `{Scalar K} (u v : list K) k :
  length v = k -> lastn k (u ++ v) = v.
Proof.
  intros Hv. unfold lastn. rewrite length_app, Hv.
  replace (length u + k - k) with (length u) by lia. apply drop_app_length.
Qed.

Section MaxwellMore.
Context {K : Type} `{Scalar K}.
Variable ifftn ifftn' : array K -> res (array K).
Variable _twothirds_mask _twothirds_mask' : nat -> nat -> nat -> value K.
Variable Hermite_Fourier_system Hermite_Fourier_system' :
  array K -> array K -> array K ->
  value K -> value K -> value K -> value K -> value K ->
  value K -> value K -> value K -> value K -> value K -> value K ->
  value K -> value K -> value K -> value K -> value K ->
  value K -> value K -> value K -> value K ->
  nat -> nat -> nat -> nat -> value K -> res (array K).
Variable plasma_current :
  value K -> value K -> value K -> array K -> nat -> nat -> nat -> nat ->
  res (array K).

Local Abbreviation rhs := (ode_system ifftn _twothirds_mask Hermite_Fourier_system
                             plasma_current).
Local Abbreviation rhs' := (ode_system ifftn' _twothirds_mask' Hermite_Fourier_system'
                              plasma_current).

(** X7. In exact arithmetic the magnetic-field derivative returned by
    [ode_system] is divergence-free: at every grid point
    [nabla . dB/dt = 0], so the update keeps [nabla . B] constant. *)
Theorem magnetic_derivative_divergence_free (Nx Ny Nz Nn Nm Np Ns : nat) (t : K)
    (y : list K) (args : list (value K)) (Omega_cs nabla : array K) (n : nat) :
  ring_theory kzero kone kadd kmul ksub kopp (@eq K) ->
  length (drop 7 args) = 21 ->
  drop 7 args !! 3 = Some (VArr Omega_cs) ->
  drop 7 args !! 13 = Some (VArr nabla) ->
  shape nabla = [3; Ny; Nx; Nz] ->
  shape Omega_cs = [n] -> n <> 0 ->
  length y = Nn * Nm * Np * Ns * Nx * Ny * Nz + 6 * Ny * Nx * Nz ->
  ifftn_returns ifftn ->
  Hermite_Fourier_system_returns Hermite_Fourier_system ->
  plasma_current_returns plasma_current ->
  exists out,
    rhs Nx Ny Nz Nn Nm Np Ns t y args = Ok out
    /\ forall g, g < Ny * Nx * Nz ->
         dot3 (vec3_at (data nabla) (Ny * Nx * Nz) 0 g)
              (vec3_at (field_block Nx Ny Nz out) (Ny * Nx * Nz) 3 g) = kzero.
Proof.
  intros Kring Hlen HOm Hnab Hsn HsO Hn Hy Hi Hh Hp.
  remember (drop 7 args) as l eqn:Hl. split_args l.
  cbn in HOm, Hnab. simplify_eq.
  edestruct (ode_system_Ok ifftn _twothirds_mask Hermite_Fourier_system plasma_current
               Nx Ny Nz Nn Nm Np Ns t y args)
    as (C & F & dCk & J & dF & _ & _ & Hr & HdF & Hpt);
    [symmetry; exact Hl|exact Hsn|exact HsO|exact Hn|lia|exact Hi|exact Hh|exact Hp|].
  eexists. split; [exact Hr|]. intros g Hg.
  unfold field_block. rewrite lastn_all by exact HdF.
  destruct (Hpt g Hg) as [_ ->]. unfold maxwell_dB.
  apply (dot3_scale Kring), (dot3_cross3_l Kring).
Qed.

(** X8. The field block of the derivative does not depend on the inverse
    transform, on the dealias mask or on [Hermite_Fourier_system]: with the
    same [plasma_current], state and parameters, two choices of those three
    give the same last [6*Ny*Nx*Nz] entries. *)
Theorem field_block_ignores_transform (Nx Ny Nz Nn Nm Np Ns : nat) (t : K)
    (y : list K) (args : list (value K)) (Omega_cs nabla : array K) (n : nat) :
  length (drop 7 args) = 21 ->
  drop 7 args !! 3 = Some (VArr Omega_cs) ->
  drop 7 args !! 13 = Some (VArr nabla) ->
  shape nabla = [3; Ny; Nx; Nz] ->
  shape Omega_cs = [n] -> n <> 0 ->
  length y = Nn * Nm * Np * Ns * Nx * Ny * Nz + 6 * Ny * Nx * Nz ->
  ifftn_returns ifftn -> ifftn_returns ifftn' ->
  Hermite_Fourier_system_returns Hermite_Fourier_system ->
  Hermite_Fourier_system_returns Hermite_Fourier_system' ->
  plasma_current_returns plasma_current ->
  exists out out',
    rhs Nx Ny Nz Nn Nm Np Ns t y args = Ok out
    /\ rhs' Nx Ny Nz Nn Nm Np Ns t y args = Ok out'
    /\ field_block Nx Ny Nz out = field_block Nx Ny Nz out'.
Proof.
  intros Hlen HOm Hnab Hsn HsO Hn Hy Hi Hi' Hh Hh' Hp.
  remember (drop 7 args) as l eqn:Hl. split_args l.
  cbn in HOm, Hnab. simplify_eq.
  edestruct (ode_system_Ok ifftn _twothirds_mask Hermite_Fourier_system plasma_current
               Nx Ny Nz Nn Nm Np Ns t y args)
    as (C1 & F1 & d1 & J1 & dF1 & _ & HJ1 & Hr1 & Hl1 & Hp1);
    [symmetry; exact Hl|exact Hsn|exact HsO|exact Hn|lia|exact Hi|exact Hh|exact Hp|].
  edestruct (ode_system_Ok ifftn' _twothirds_mask' Hermite_Fourier_system' plasma_current
               Nx Ny Nz Nn Nm Np Ns t y args)
    as (C2 & F2 & d2 & J2 & dF2 & _ & HJ2 & Hr2 & Hl2 & Hp2);
    [symmetry; exact Hl|exact Hsn|exact HsO|exact Hn|lia|exact Hi'|exact Hh'|exact Hp|].
  rewrite HJ1 in HJ2. injection HJ2 as <-.
  do 2 eexists. split; [exact Hr1|]. split; [exact Hr2|].
  unfold field_block. rewrite !lastn_all by done.
  apply (block_ext _ _ (Ny * Nx * Nz) 6); [exact Hl1|exact Hl2|].
  intros c g Hc Hg. destruct (Hp1 g Hg) as [E1 B1]. destruct (Hp2 g Hg) as [E2 B2].
  apply vec3_at_comps; [by rewrite E1, E2|by rewrite B1, B2|exact Hc].
Qed.

(** X9. The electric-field derivative does not depend on the electric
    field: two states of the right length with the same distribution block
    and the same B components (the last [3*Ny*Nx*Nz] entries) have the same
    [dE/dt] components. *)
Theorem electric_derivative_independent_of_E (Nx Ny Nz Nn Nm Np Ns : nat) (t : K)
    (y1 y2 : list K) (args : list (value K)) (Omega_cs nabla : array K) (n : nat) :
  length (drop 7 args) = 21 ->
  drop 7 args !! 3 = Some (VArr Omega_cs) ->
  drop 7 args !! 13 = Some (VArr nabla) ->
  shape nabla = [3; Ny; Nx; Nz] ->
  shape Omega_cs = [n] -> n <> 0 ->
  ifftn_returns ifftn ->
  Hermite_Fourier_system_returns Hermite_Fourier_system ->
  plasma_current_returns plasma_current ->
  length y1 = Nn * Nm * Np * Ns * Nx * Ny * Nz + 6 * Ny * Nx * Nz ->
  length y2 = Nn * Nm * Np * Ns * Nx * Ny * Nz + 6 * Ny * Nx * Nz ->
  take (Nn * Nm * Np * Ns * Nx * Ny * Nz) y1 = take (Nn * Nm * Np * Ns * Nx * Ny * Nz) y2 ->
  lastn (3 * (Ny * Nx * Nz)) y1 = lastn (3 * (Ny * Nx * Nz)) y2 ->
  exists out1 out2,
    rhs Nx Ny Nz Nn Nm Np Ns t y1 args = Ok out1
    /\ rhs Nx Ny Nz Nn Nm Np Ns t y2 args = Ok out2
    /\ dE_block Nx Ny Nz out1 = dE_block Nx Ny Nz out2.
Proof.
  intros Hlen HOm Hnab Hsn HsO Hn Hi Hh Hp Hy1 Hy2 HCk HB.
  set (size_Ck := Nn * Nm * Np * Ns * Nx * Ny * Nz) in *.
  set (G := Ny * Nx * Nz) in *.
  remember (drop 7 args) as l eqn:Hl. split_args l.
  cbn in HOm, Hnab. simplify_eq.
  edestruct (ode_system_Ok ifftn _twothirds_mask Hermite_Fourier_system plasma_current
               Nx Ny Nz Nn Nm Np Ns t y1 args)
    as (C1 & F1 & d1 & J1 & dF1 & _ & HJ1 & Hr1 & Hl1 & Hp1);
    [symmetry; exact Hl|exact Hsn|exact HsO|exact Hn|subst size_Ck G; lia
    |exact Hi|exact Hh|exact Hp|].
  edestruct (ode_system_Ok ifftn _twothirds_mask Hermite_Fourier_system plasma_current
               Nx Ny Nz Nn Nm Np Ns t y2 args)
    as (C2 & F2 & d2 & J2 & dF2 & _ & HJ2 & Hr2 & Hl2 & Hp2);
    [symmetry; exact Hl|exact Hsn|exact HsO|exact Hn|subst size_Ck G; lia
    |exact Hi|exact Hh|exact Hp|].
  fold size_Ck G in HJ1, HJ2, Hl1, Hl2, Hp1, Hp2.
  rewrite HCk, HJ2 in HJ1. injection HJ1 as <-.
  assert (HBd : drop (3 * G) (drop size_Ck y1) = drop (3 * G) (drop size_Ck y2)).
  { unfold lastn in HB. rewrite !drop_drop.
    replace (size_Ck + 3 * G) with (length y1 - 3 * G) at 1 by (subst size_Ck G; lia).
    replace (size_Ck + 3 * G) with (length y2 - 3 * G) by (subst size_Ck G; lia).
    exact HB. }
  do 2 eexists. split; [exact Hr1|]. split; [exact Hr2|].
  unfold dE_block, field_block. fold G. rewrite !lastn_all by done.
  apply (block_ext _ _ G 3); [rewrite length_take; lia|rewrite length_take; lia|].
  intros c g Hc Hg. rewrite !comp_take by done.
  destruct (Hp1 g Hg) as [E1 _]. destruct (Hp2 g Hg) as [E2 _].
  assert (HB3 : vec3_at (drop size_Ck y1) G 3 g = vec3_at (drop size_Ck y2) G 3 g).
  { assert (Hc3 : forall c', comp (drop size_Ck y1) G (3 + c') g
                             = comp (drop size_Ck y2) G (3 + c') g)
      by (intros c'; rewrite <- !comp_drop, HBd; reflexivity).
    unfold vec3_at. f_equal; [f_equal|]; [apply (Hc3 0)|apply (Hc3 1)|apply (Hc3 2)]. }
  rewrite HB3 in E1. rewrite <- E2 in E1.
  unfold vec3_at in E1. cbn [Nat.add] in E1. injection E1 as E10 E11 E12.
  destruct c as [|[|[|c]]]; try assumption. lia.
Qed.
End MaxwellMore.

(** ** More about [simulation] *)

Section ParameterLookups.
Context {K : Type} `{Scalar K}.

Lemma getitems_Ok_inv (d : dict K) keys vs :
  getitems d keys = Ok vs -> Forall2 (fun k v => d !! k = Some v) keys vs.
Proof.
  revert vs. induction keys as [|k keys IH]; intros vs; cbn [getitems].
  - intros [= <-]. constructor.
  - unfold getitem. destruct (d !! k) as [v|] eqn:Hk; [|discriminate].
    cbn [mbind res_bind]. destruct (getitems d keys) as [vs'|e]; [|discriminate].
    cbn [mbind res_bind]. intros [= <-]. constructor; [exact Hk|by apply IH].
Qed.

Lemma getitems_first_missing (d : dict K) keys key :
  key ∈ keys -> d !! key = None ->
  exists pre k post, keys = pre ++ k :: post
    /\ Forall (fun k' => is_Some (d !! k')) pre
    /\ d !! k = None /\ getitems d keys = Raise (KeyError k).
Proof.
  induction keys as [|k keys IH]; intros Hin Hnone.
  - by apply elem_of_nil in Hin.
  - destruct (d !! k) as [v|] eqn:Hk.
    + apply elem_of_cons in Hin as [->|Hin]; [congruence|].
      destruct (IH Hin) as (pre & k' & post & -> & Hpre & Hk' & Hget); [exact Hnone|].
      exists (k :: pre), k', post. split; [reflexivity|].
      split; [constructor; [by eexists|exact Hpre]|]. split; [exact Hk'|].
      cbn [getitems]. unfold getitem at 1. rewrite Hk. cbn [mbind res_bind].
      by rewrite Hget.
    + exists [], k, keys. split; [reflexivity|]. split; [constructor|].
      split; [exact Hk|].
      cbn [getitems]. unfold getitem at 1. by rewrite Hk.
Qed.

Lemma ravel_cons n sh i idx : ravel (n :: sh) (i :: idx) = i * prod sh + ravel sh idx.
Proof. reflexivity. Qed.

(** X10. Packing and unpacking are inverse: the initial state that
    [simulation] builds from [Ck_0] and [Fk_0] is cut by [ode_system] into
    blocks with exactly the entries of [Ck_0] and of [Fk_0], and into
    [Ck_0] and [Fk_0] themselves when they have the shapes [ode_system]
    uses. *)
Theorem initial_state_round_trip (Nx Ny Nz Nn Nm Np Ns : nat) (Ck_0 Fk_0 : array K) :
  length (data Ck_0) = Nn * Nm * Np * Ns * Nx * Ny * Nz ->
  length (data Fk_0) = 6 * Ny * Nx * Nz ->
  unpack_state Nx Ny Nz Nn Nm Np Ns (flatten Ck_0 ++ flatten Fk_0)
  = Ok (mkArr [Nn * Nm * Np * Ns; Ny; Nx; Nz] (data Ck_0),
        mkArr [6; Ny; Nx; Nz] (data Fk_0))
  /\ (shape Ck_0 = [Nn * Nm * Np * Ns; Ny; Nx; Nz] -> shape Fk_0 = [6; Ny; Nx; Nz] ->
      unpack_state Nx Ny Nz Nn Nm Np Ns (flatten Ck_0 ++ flatten Fk_0)
      = Ok (Ck_0, Fk_0)).
Proof.
  intros HC HF.
  assert (E : unpack_state Nx Ny Nz Nn Nm Np Ns (flatten Ck_0 ++ flatten Fk_0)
              = Ok (mkArr [Nn * Nm * Np * Ns; Ny; Nx; Nz] (data Ck_0),
                    mkArr [6; Ny; Nx; Nz] (data Fk_0))).
  { rewrite unpack_state_Ok by (rewrite length_app; unfold flatten; lia).
    unfold flatten. rewrite take_app_length' by lia.
    rewrite drop_app_length' by lia. reflexivity. }
  split; [exact E|]. intros HsC HsF. rewrite E.
  destruct Ck_0 as [s1 d1], Fk_0 as [s2 d2]. cbn in HsC, HsF |- *. by subst.
Qed.

(** A trajectory whose states do not have the length of the initial state
    cannot be cut into the two labelled arrays. *)
Lemma postprocess_wrong_length Nx Ny Nz Nn Nm Np Ns (sol : solution K) T L :
  length (ts sol) = T -> shape (ys sol) = [T; L] -> 0 < T ->
  L <> Ns * Nn * Nm * Np * (Ny * Nx * Nz) + 6 * (Ny * Nx * Nz) ->
  exists e, postprocess Nx Ny Nz Nn Nm Np Ns sol = Raise e.
Proof.
  intros Hts Hys HT HL. unfold postprocess, cols_to, cols_from. rewrite Hys, Hts.
  cbn [mbind res_bind flatten].
  set (G := Ny * Nx * Nz) in *. set (M := Ns * Nn * Nm * Np) in *.
  set (sb := slice_bound L _).
  assert (Hsb : (G = 0 /\ sb = 0) \/ (0 < G /\ sb = L - 6 * G)).
  { unfold sb, slice_bound. destruct (decide (G = 0)) as [HG|HG].
    - left. split; [exact HG|].
      assert (Hz : (- 6 * Z.of_nat Nx * Z.of_nat Ny * Z.of_nat Nz = 0)%Z)
        by (unfold G in HG; nia).
      rewrite Hz. reflexivity.
    - right. split; [lia|].
      assert (Hz : (- 6 * Z.of_nat Nx * Z.of_nat Ny * Z.of_nat Nz
                    = - Z.of_nat (6 * G))%Z) by (unfold G; lia).
      rewrite Hz. destruct (Z.ltb_spec (- Z.of_nat (6 * G)) 0); lia. }
  destruct (reshape [T; M; Ny; Nx; Nz] _) as [Ck|e] eqn:HCk; [|by eexists].
  cbn [mbind res_bind].
  apply reshape_Ok in HCk as [HlC _].
  rewrite tabulate_length, prod5, !prod_cons, prod_nil in HlC.
  rewrite reshape_mismatch; [by eexists|].
  rewrite tabulate_length, prod5, !prod_cons, prod_nil.
  fold G in HlC |- *. nia.
Qed.

(** X11. The trajectory arrays are cut where [ode_system] cuts a state: at
    every sampled time [t] the entries of [Ck[t]] and [Fk[t]] that
    [simulation] returns are the entries of the two blocks into which
    [ode_system] divides the state [sol.ys[t]]. *)
Theorem trajectory_blocks_match_state_blocks (Nx Ny Nz Nn Nm Np Ns : nat)
    (sol : solution K) (T t : nat) :
  0 < Nx -> 0 < Ny -> 0 < Nz -> 0 < Ns * Nn * Nm * Np ->
  length (ts sol) = T ->
  shape (ys sol) = [T; Ns * Nn * Nm * Np * (Ny * Nx * Nz) + 6 * (Ny * Nx * Nz)] ->
  well_formed (ys sol) ->
  t < T ->
  exists Ck Fk dCk Ck_t Fk_t,
    postprocess Nx Ny Nz Nn Nm Np Ns sol = Ok (Ck, Fk, dCk)
    /\ unpack_state Nx Ny Nz Nn Nm Np Ns (state_at t (ys sol)) = Ok (Ck_t, Fk_t)
    /\ data (row t Ck) = data Ck_t
    /\ data (row t Fk) = data Fk_t.
Proof.
  intros HNx HNy HNz HM Hts Hys Hwf Ht.
  destruct (postprocess_Ok Nx Ny Nz Nn Nm Np Ns T _ sol HNx HNy HNz HM Hts Hys eq_refl)
    as (Ck & Fk & dCk & Hpost & HsC & HwC & HsF & HwF & _ & _ & HgC & HgF & _).
  set (G := Ny * Nx * Nz) in *. set (M := Ns * Nn * Nm * Np) in *.
  set (L := M * G + 6 * G) in *.
  assert (HG : 0 < G) by (unfold G; nia).
  unfold well_formed in Hwf, HwC, HwF.
  rewrite Hys, !prod_cons, prod_nil in Hwf.
  rewrite HsC, prod5 in HwC. rewrite HsF, prod5 in HwF. fold G in HwC, HwF.
  assert (Hstate : forall g, g < L ->
            state_at t (ys sol) !! g = data (ys sol) !! (t * L + g)).
  { intros g Hg. unfold state_at, row. rewrite Hys. cbn [tail data].
    rewrite prod_cons, prod_nil, lookup_take_lt by lia.
    rewrite lookup_drop. f_equal. lia. }
  assert (Hlen : length (state_at t (ys sol)) = L).
  { unfold state_at, row. rewrite Hys. cbn [tail data].
    rewrite prod_cons, prod_nil, length_take, length_drop. nia. }
  assert (Hget : forall j, j < L ->
            get (ys sol) [t; j] = default kzero (data (ys sol) !! (t * L + j))).
  { intros j Hj. unfold get. rewrite Hys, !ravel_cons, !prod_cons, prod_nil.
    cbn [ravel]. do 2 f_equal. lia. }
  exists Ck, Fk, dCk. do 2 eexists. split; [exact Hpost|]. split.
  { apply unpack_state_Ok. rewrite Hlen. unfold L, M, G. lia. }
  cbn [data]. split.
  - apply (block_ext _ _ (M * G) 1).
    + unfold row. rewrite HsC. cbn [tail data].
      rewrite prod4, length_take, length_drop. fold G. nia.
    + rewrite length_take, Hlen. unfold L, M, G. lia.
    + intros c g Hc Hg. assert (c = 0) as -> by lia.
      unfold comp. cbn [Nat.mul Nat.add].
      rewrite (row_comp t Ck T [M; Ny; Nx; Nz]) by (exact HsC || rewrite prod4; exact Hg).
      rewrite lookup_take_lt by (unfold M, G in Hg; lia).
      rewrite Hstate by (unfold L; lia).
      assert (Hb : in_bounds [M; Ny; Nx; Nz] (unravel [M; Ny; Nx; Nz] g))
        by (apply unravel_in_bounds; rewrite prod4; exact Hg).
      specialize (HgC t _ Ht Hb).
      rewrite ravel_unravel in HgC by (rewrite prod4; exact Hg).
      rewrite Hget in HgC by (unfold L; lia). rewrite <- HgC.
      unfold get, comp. rewrite HsC, ravel_cons.
      rewrite ravel_unravel by (rewrite prod4; exact Hg). reflexivity.
  - apply (block_ext _ _ (6 * G) 1).
    + unfold row. rewrite HsF. cbn [tail data].
      rewrite prod4, length_take, length_drop. fold G. nia.
    + rewrite length_drop, Hlen. unfold L, M, G. lia.
    + intros c g Hc Hg. assert (c = 0) as -> by lia.
      unfold comp. cbn [Nat.mul Nat.add].
      rewrite (row_comp t Fk T [6; Ny; Nx; Nz]) by (exact HsF || rewrite prod4; exact Hg).
      rewrite lookup_drop.
      rewrite Hstate by (unfold L, M, G in *; lia).
      assert (Hb : in_bounds [6; Ny; Nx; Nz] (unravel [6; Ny; Nx; Nz] g))
        by (apply unravel_in_bounds; rewrite prod4; exact Hg).
      specialize (HgF t _ Ht Hb).
      rewrite ravel_unravel in HgF by (rewrite prod4; exact Hg).
      rewrite Hget in HgF by (unfold L; lia).
      replace (t * L + (Nn * Nm * Np * Ns * Nx * Ny * Nz + g))
        with (t * L + (M * G + g)) by (unfold M, G; lia).
      rewrite <- HgF.
      unfold get, comp. rewrite HsF, ravel_cons.
      rewrite ravel_unravel by (rewrite prod4; exact Hg). reflexivity.
Qed.
End ParameterLookups.

Section DriverMore.
Context {K : Type} `{Scalar K}.
Variable ifftn : array K -> res (array K).
Variable _twothirds_mask : nat -> nat -> nat -> value K.
Variable Hermite_Fourier_system :
  array K -> array K -> array K ->
  value K -> value K -> value K -> value K -> value K ->
  value K -> value K -> value K -> value K -> value K -> value K ->
  value K -> value K -> value K -> value K -> value K ->
  value K -> value K -> value K -> value K ->
  nat -> nat -> nat -> nat -> value K -> res (array K).
Variable plasma_current :
  value K -> value K -> value K -> array K -> nat -> nat -> nat -> nat ->
  res (array K).
Variable initialize_simulation_parameters :
  dict K -> nat -> nat -> nat -> nat -> nat -> nat -> nat -> nat -> K ->
  res (dict K).
Variable diffeqsolve : diffeqsolve_call K -> res (solution K).
Variable diagnostics : dict K -> res (dict K).

Local Abbreviation run := (simulation ifftn _twothirds_mask Hermite_Fourier_system
                             plasma_current initialize_simulation_parameters
                             diffeqsolve diagnostics).
Local Abbreviation call := (simulation_call ifftn _twothirds_mask
                              Hermite_Fourier_system plasma_current).

(** X12. The integrator can take its first step: the derivative function
    that [simulation] hands to [diffeqsolve], applied to the start time, the
    initial state and the parameter tuple of the same call, returns a
    derivative of the length of the initial state. *)
Theorem derivative_accepts_initial_state (Nx Ny Nz Nn Nm Np Ns timesteps : nat)
    (dt : K) (method : AbstractSolver) (parameters : dict K)
    (Ck_0 Fk_0 Omega_cs nabla : array K) (t_max tol : K)
    (params : list (value K)) (n : nat) :
  getitems parameters arg_keys = Ok params ->
  parameters !! "nabla" = Some (VArr nabla) ->
  parameters !! "Omega_cs" = Some (VArr Omega_cs) ->
  shape nabla = [3; Ny; Nx; Nz] ->
  shape Omega_cs = [n] -> n <> 0 ->
  length (data Ck_0) = Ns * Nn * Nm * Np * Ny * Nx * Nz ->
  length (data Fk_0) = 6 * Ny * Nx * Nz ->
  ifftn_returns ifftn ->
  Hermite_Fourier_system_returns Hermite_Fourier_system ->
  Hermite_Fourier_system_shaped Hermite_Fourier_system ->
  plasma_current_returns plasma_current ->
  let c := call Nx Ny Nz Nn Nm Np Ns timesteps dt method Ck_0 Fk_0 t_max tol params in
  exists out, terms c (t0 c) (y0 c) (args c) = Ok out /\ length out = length (y0 c).
Proof.
  intros Hkeys Hnab HOm Hsn HsO Hn HlC HlF Hi Hh Hs Hp c.
  pose proof (getitems_Ok_inv _ _ _ Hkeys) as HF.
  assert (Hlen : length params = 21)
    by (apply Forall2_length in HF; symmetry; exact HF).
  assert (HO3 : params !! 3 = Some (VArr Omega_cs)).
  { destruct (Forall2_lookup_l _ _ _ 3 "Omega_cs" HF eq_refl) as (v & Hv & Hpv).
    congruence. }
  assert (HN13 : params !! 13 = Some (VArr nabla)).
  { destruct (Forall2_lookup_l _ _ _ 13 "nabla" HF eq_refl) as (v & Hv & Hpv).
    congruence. }
  clear HF Hkeys. subst c. cbn [terms t0 y0 args simulation_call].
  assert (Hy : length (flatten Ck_0 ++ flatten Fk_0)
               = Nn * Nm * Np * Ns * Nx * Ny * Nz + 6 * (Ny * Nx * Nz))
    by (rewrite length_app; unfold flatten; lia).
  split_args params. cbn in HO3, HN13. simplify_eq.
  lazymatch goal with
  | |- context [ode_system _ _ _ _ _ _ _ _ _ _ _ _ _ ?a] =>
      edestruct (ode_system_Ok ifftn _twothirds_mask Hermite_Fourier_system
                   plasma_current Nx Ny Nz Nn Nm Np Ns kzero
                   (flatten Ck_0 ++ flatten Fk_0) a)
        as (C & F & dCk & J & dF & HdCk & _ & Hr & HdF & _);
        [reflexivity|exact Hsn|exact HsO|exact Hn|exact Hy|exact Hi|exact Hh|exact Hp|]
  end.
  apply Hs in HdCk as [_ HldCk]. cbn [data] in HldCk.
  eexists. split; [exact Hr|].
  rewrite length_app. unfold flatten at 1. rewrite HldCk, HdF, length_take, Hy. lia.
Qed.

(** X13. When the initializer's dictionary lacks one of the 21 entries that
    go into the parameter tuple, [simulation] raises [KeyError] for the
    first missing one, in the order of the tuple, and the integrator is
    not invoked. *)
Theorem missing_parameter_stops_before_integration (input_parameters : dict K)
    (Nx Ny Nz Nn Nm Np Ns timesteps : nat) (dt : K) (method : AbstractSolver)
    (parameters : dict K) (Ck_0 Fk_0 : array K) (t_max : K) (key : string)
    (log : list (diffeqsolve_call K)) :
  initialize_simulation_parameters input_parameters Nx Ny Nz Nn Nm Np Ns timesteps dt
  = Ok parameters ->
  parameters !! "Ck_0" = Some (VArr Ck_0) ->
  parameters !! "Fk_0" = Some (VArr Fk_0) ->
  parameters !! "t_max" = Some (VNum t_max) ->
  key ∈ arg_keys -> parameters !! key = None ->
  exists pre k post,
    arg_keys = pre ++ k :: post
    /\ Forall (fun k' => is_Some (parameters !! k')) pre
    /\ parameters !! k = None
    /\ run input_parameters Nx Ny Nz Nn Nm Np Ns timesteps dt method log
       = (Raise (KeyError k), log).
Proof.
  intros Hinit HCk HFk Ht Hin Hnone.
  destruct (getitems_first_missing parameters arg_keys key Hin Hnone)
    as (pre & k & post & Heq & Hpre & Hk & Hget).
  exists pre, k, post. split; [exact Heq|]. split; [exact Hpre|]. split; [exact Hk|].
  unfold simulation. rewrite Hinit, bind_lift_Ok.
  unfold getitem. rewrite HCk, HFk, Ht, Hget.
  cbn [mbind res_bind as_arr as_num].
  rewrite !bind_lift_Ok. by rewrite bind_lift_Raise.
Qed.

(** X14. Whatever the collaborators do, [simulation] either raises without
    invoking the integrator, or invokes it exactly once: with [ode_system]
    at the given mode counts, the given solver and initial step, start time
    0, [max_steps = 1000000], the progress meter, and [timesteps] output
    times; an exception of the integrator is then the outcome.  It never
    returns a dictionary without having invoked the integrator. *)
Theorem integrator_called_at_most_once (input_parameters : dict K)
    (Nx Ny Nz Nn Nm Np Ns timesteps : nat) (dt : K) (method : AbstractSolver)
    (log : list (diffeqsolve_call K)) :
  let r := run input_parameters Nx Ny Nz Nn Nm Np Ns timesteps dt method log in
  (exists e, r = (Raise e, log))
  \/ (exists c, snd r = log ++ [c]
        /\ terms c = ode_system ifftn _twothirds_mask Hermite_Fourier_system
                       plasma_current Nx Ny Nz Nn Nm Np Ns
        /\ solver c = method /\ dt0 c = dt /\ t0 c = kzero
        /\ max_steps c = 1000000%Z
        /\ progress_meter c = TqdmProgressMeter
        /\ length (saveat c) = timesteps
        /\ (forall e, diffeqsolve c = Raise e -> fst r = Raise e)).
Proof.
  intros r. subst r. unfold simulation.
  destruct (initialize_simulation_parameters _ _ _ _ _ _ _ _ _ _) as [ps|e];
    [rewrite bind_lift_Ok|left; exists e; by rewrite bind_lift_Raise].
  destruct (getitem ps "Ck_0" ≫= as_arr) as [c0|e];
    [rewrite bind_lift_Ok|left; exists e; by rewrite bind_lift_Raise].
  destruct (getitem ps "Fk_0" ≫= as_arr) as [f0|e];
    [rewrite bind_lift_Ok|left; exists e; by rewrite bind_lift_Raise].
  destruct (getitem ps "t_max" ≫= as_num) as [tm|e];
    [rewrite bind_lift_Ok|left; exists e; by rewrite bind_lift_Raise].
  destruct (getitems ps arg_keys) as [vs|e];
    [rewrite bind_lift_Ok|left; exists e; by rewrite bind_lift_Raise].
  destruct (getitem ps "ode_tolerance" ≫= as_num) as [tl|e];
    [rewrite !bind_lift_Ok|left; exists e; by rewrite bind_lift_Raise].
  destruct (SaveAt _) as [sv|e] eqn:Hsv;
    [rewrite bind_lift_Ok|left; exists e; by rewrite bind_lift_Raise].
  apply SaveAt_Ok_inv in Hsv as [-> _].
  right. unfold mbind at 1, sim_bind at 1, invoke.
  eexists (mkCall _ _ _ _ _ _ _ _ _ _ _).
  split; [|split; [reflexivity|]; split; [reflexivity|]; split; [reflexivity|];
           split; [reflexivity|]; split; [reflexivity|]; split; [reflexivity|];
           split; [apply linspace_length|]].
  - destruct (diffeqsolve _) as [sol|e]; [|reflexivity].
    destruct (postprocess Nx Ny Nz Nn Nm Np Ns sol) as [[[Ck Fk] dCk]|e];
      [rewrite bind_lift_Ok|by rewrite bind_lift_Raise].
    destruct (diagnostics _) as [o|e];
      [by rewrite bind_lift_Ok|by rewrite bind_lift_Raise].
  - intros e He. by rewrite He.
Qed.

(** X15. [simulation] does not mis-slice a trajectory: if the integrator
    returns at least one sample and its states do not have the length
    [Ns*Nn*Nm*Np*Ny*Nx*Nz + 6*Ny*Nx*Nz] of the initial state, [simulation]
    raises after that one call and returns no dictionary.  (With no output
    time it has raised [ValueError] before the call.) *)
Theorem integrator_state_length_checked (input_parameters : dict K)
    (Nx Ny Nz Nn Nm Np Ns timesteps : nat) (dt : K) (method : AbstractSolver)
    (parameters : dict K) (Ck_0 Fk_0 : array K) (t_max tol : K)
    (params : list (value K)) (sol : solution K) (T L : nat)
    (log : list (diffeqsolve_call K)) :
  initialize_simulation_parameters input_parameters Nx Ny Nz Nn Nm Np Ns timesteps dt
  = Ok parameters ->
  parameters !! "Ck_0" = Some (VArr Ck_0) ->
  parameters !! "Fk_0" = Some (VArr Fk_0) ->
  parameters !! "t_max" = Some (VNum t_max) ->
  parameters !! "ode_tolerance" = Some (VNum tol) ->
  getitems parameters arg_keys = Ok params ->
  let c := call Nx Ny Nz Nn Nm Np Ns timesteps dt method Ck_0 Fk_0 t_max tol params in
  diffeqsolve c = Ok sol ->
  length (ts sol) = T -> shape (ys sol) = [T; L] -> 0 < T ->
  L <> Ns * Nn * Nm * Np * Ny * Nx * Nz + 6 * Ny * Nx * Nz ->
  (0 < timesteps ->
   exists e, run input_parameters Nx Ny Nz Nn Nm Np Ns timesteps dt method log
             = (Raise e, log ++ [c]))
  /\ (timesteps = 0 ->
      run input_parameters Nx Ny Nz Nn Nm Np Ns timesteps dt method log
      = (Raise ValueError, log)).
Proof.
  intros Hinit HCk HFk Ht Htol Hkeys c Hsol Hts Hys HT HL. split.
  - intros Htimesteps.
    destruct (postprocess_wrong_length Nx Ny Nz Nn Nm Np Ns sol T L Hts Hys HT)
      as [e He]; [lia|].
    exists e. subst c.
    erewrite simulation_unfold by eassumption.
    rewrite Hsol. cbn [mbind res_bind]. unfold simulation_finish.
    by rewrite He.
  - intros Hz. eapply simulation_no_output_times; eassumption.
Qed.

(** X16. With a single Fourier mode along x ([Nx = 1]) the two updates of
    lines 164-165 address [x = 1], outside the axis, and are dropped: the
    array [dCk] that [simulation] returns is [Ck] itself. *)
Theorem perturbation_is_state_for_single_x_mode (input_parameters : dict K)
    (Ny Nz Nn Nm Np Ns timesteps : nat) (dt : K) (method : AbstractSolver)
    (parameters output : dict K) (log : list (diffeqsolve_call K)) :
  initialize_simulation_parameters input_parameters 1 Ny Nz Nn Nm Np Ns timesteps dt
  = Ok parameters ->
  parameters !! "Ck" = None -> parameters !! "dCk" = None ->
  diagnostics_preserves diagnostics ->
  fst (run input_parameters 1 Ny Nz Nn Nm Np Ns timesteps dt method log) = Ok output ->
  exists Ck : array K,
    output !! "Ck" = Some (VArr Ck) /\ output !! "dCk" = Some (VArr Ck).
Proof.
  intros Hinit HnCk HndCk Hdiag Hrun.
  apply simulation_inv in Hrun as (ps & tm & sol & Ck & Fk & dCk & Hi & _ & Hpost & Hd).
  rewrite Hinit in Hi. injection Hi as <-.
  apply Hdiag in Hd.
  destruct (temporary_output_lookup Ck Fk dCk (linspace kzero tm timesteps))
    as (H1 & _ & _ & H4).
  apply postprocess_inv in Hpost as (HsC & HwC & _ & _ & HsD & HwD & Hget).
  assert (E : dCk = Ck).
  { apply array_ext; [exact HwD|exact HwC|exact HsD|].
    rewrite HsD. intros idx Hb. rewrite (Hget idx Hb).
    pose proof (in_bounds_length _ _ Hb) as Hl. rewrite HsC in Hl, Hb.
    destruct idx as [|t [|c [|y [|x [|z [|? ?]]]]]]; try discriminate.
    rewrite matches_first, matches_second by reflexivity.
    cbn [lookup list_lookup].
    assert (Hx : x < 1).
    { apply in_bounds_cons in Hb as [_ Hb]. apply in_bounds_cons in Hb as [_ Hb].
      apply in_bounds_cons in Hb as [_ Hb]. by apply in_bounds_cons in Hb as [Hx _]. }
    rewrite !bool_decide_eq_false_2; [reflexivity| |]; intros (_ & _ & [= ->] & _); lia. }
  subst dCk. exists Ck.
  split; by eapply merged_lookup_fresh.
Qed.
End DriverMore.

(** ** The further properties on concrete inputs *)

(** The vectors [(1, i, 0)] and [(0, 1, 1)] once more. *)
Lemma cross_product_returns_iff_witness :
  exists r : array Gauss.t,
    cross_product (vec [kone; kI; kzero]) (vec [kzero; kone; kone]) = Ok r
    /\ shape r = [3].
Proof.
  destruct (cross_product_returns_iff (K := Gauss.t)
              (vec [kone; kI; kzero]) (vec [kzero; kone; kone])) as (_ & Hret & _).
  apply (Hret [] [] []); reflexivity.
Defined.

(** A wave vector against a field on three grid points. *)
Lemma cross_product_vector_field_witness :
  exists r : array Gauss.t,
    cross_product (vec [kone; kI; kzero]) (tabulate [3; 1; 3; 1] (fun _ => kone)) = Ok r
    /\ shape r = [3; 1; 3; 1].
Proof.
  destruct (cross_product_vector_field (K := Gauss.t) (vec [kone; kI; kzero])
              (tabulate [3; 1; 3; 1] (fun _ => kone)) [1; 3; 1])
    as (r & Hr & Hs & _).
  - reflexivity.
  - reflexivity.
  - exists r. split; [exact Hr|exact Hs].
Defined.

Lemma cross_product_orthogonal_witness :
  let a : array Gauss.t := vec [kone; kI; kzero] in
  let b : array Gauss.t := vec [kzero; kone; kone] in
  exists r, cross_product a b = Ok r
    /\ dot3 (vec3_at (data a) 1 0 0) (vec3_at (data r) 1 0 0) = kzero
    /\ dot3 (vec3_at (data b) 1 0 0) (vec3_at (data r) 1 0 0) = kzero.
Proof.
  intros a b.
  destruct (cross_product_orthogonal (K := Gauss.t) a b [] gauss_ring)
    as (r & Hr & Hp).
  - reflexivity.
  - reflexivity.
  - exists r. split; [exact Hr|]. apply (Hp 0). rewrite prod_nil. lia.
Defined.

(** A state that is one coefficient short. *)
Lemma ode_system_rejects_wrong_length_witness :
  exists e,
    ode_system (K := Gauss.t) sample_ifftn sample_mask sample_Hermite_Fourier_system
      sample_plasma_current 3 1 1 2 1 1 2 kzero (sample_state 12 17)
      (sample_args 3 1 1 2 1 1 2) = Raise e.
Proof.
  apply (ode_system_rejects_wrong_length (K := Gauss.t) sample_ifftn sample_mask
           sample_Hermite_Fourier_system sample_plasma_current
           3 1 1 2 1 1 2 kzero (sample_state 12 17) (sample_args 3 1 1 2 1 1 2)).
  vm_compute. lia.
Defined.

(** A parameter tuple that holds the seven mode counts only. *)
Lemma ode_system_rejects_wrong_args_witness :
  ode_system (K := Gauss.t) sample_ifftn sample_mask sample_Hermite_Fourier_system
    sample_plasma_current 3 1 1 2 1 1 2 kzero (sample_state 12 18)
    (map (fun n => VInt (Z.of_nat n)) [3; 1; 1; 2; 1; 1; 2]) = Raise ValueError.
Proof.
  apply (ode_system_rejects_wrong_args (K := Gauss.t) sample_ifftn sample_mask
           sample_Hermite_Fourier_system sample_plasma_current
           3 1 1 2 1 1 2 kzero (sample_state 12 18)
           (map (fun n => VInt (Z.of_nat n)) [3; 1; 1; 2; 1; 1; 2])).
  vm_compute. lia.
Defined.


Lemma magnetic_derivative_divergence_free_witness :
  exists out : list Gauss.t,
    ode_system sample_ifftn sample_mask sample_Hermite_Fourier_system
      sample_plasma_current 3 1 1 2 1 1 2 kzero (sample_state 12 18)
      (sample_args 3 1 1 2 1 1 2) = Ok out
    /\ dot3 (vec3_at (data (tabulate [3; 1; 3; 1] (fun _ => kone))) (1 * 3 * 1) 0 0)
            (vec3_at (field_block 3 1 1 out) (1 * 3 * 1) 3 0) = kzero.
Proof.
  destruct (magnetic_derivative_divergence_free (K := Gauss.t) sample_ifftn sample_mask
              sample_Hermite_Fourier_system sample_plasma_current
              3 1 1 2 1 1 2 kzero (sample_state 12 18) (sample_args 3 1 1 2 1 1 2)
              (vec [kopp kone; kone]) (tabulate [3; 1; 3; 1] (fun _ => kone)) 2)
    as (out & Hr & Hdiv).
  - apply gauss_ring.
  - reflexivity.
  - reflexivity.
  - reflexivity.
  - reflexivity.
  - reflexivity.
  - lia.
  - reflexivity.
  - apply sample_ifftn_returns.
  - apply sample_Hermite_Fourier_system_returns.
  - apply sample_plasma_current_returns.
  - exists out. split; [exact Hr|]. apply Hdiv. lia.
Defined.

(** The sample transform and moment equations against a sign-flipping
    transform and an identity in place of the moment equations. *)
Lemma field_block_ignores_transform_witness :
  exists out out' : list Gauss.t,
    ode_system sample_ifftn sample_mask sample_Hermite_Fourier_system
      sample_plasma_current 3 1 1 2 1 1 2 kzero (sample_state 12 18)
      (sample_args 3 1 1 2 1 1 2) = Ok out
    /\ ode_system (fun x => Ok (arr_neg x)) (fun _ _ _ => VInt 0)
         (fun Ck _ _ _ _ _ _ _ _ _ _ _ _ _ _ _ _ _ _ _ _ _ _ _ _ _ _ _ => Ok Ck)
         sample_plasma_current 3 1 1 2 1 1 2 kzero (sample_state 12 18)
         (sample_args 3 1 1 2 1 1 2) = Ok out'
    /\ field_block 3 1 1 out = field_block 3 1 1 out'.
Proof.
  apply (field_block_ignores_transform (K := Gauss.t) sample_ifftn
           (fun x => Ok (arr_neg x)) sample_mask (fun _ _ _ => VInt 0)
           sample_Hermite_Fourier_system
           (fun Ck _ _ _ _ _ _ _ _ _ _ _ _ _ _ _ _ _ _ _ _ _ _ _ _ _ _ _ => Ok Ck)
           sample_plasma_current
           3 1 1 2 1 1 2 kzero (sample_state 12 18) (sample_args 3 1 1 2 1 1 2)
           (vec [kopp kone; kone]) (tabulate [3; 1; 3; 1] (fun _ => kone)) 2).
  - reflexivity.
  - reflexivity.
  - reflexivity.
  - reflexivity.
  - reflexivity.
  - lia.
  - reflexivity.
  - apply sample_ifftn_returns.
  - intros x. by eexists.
  - apply sample_Hermite_Fourier_system_returns.
  - repeat intro. by eexists.
  - apply sample_plasma_current_returns.
Defined.

(** Two states with the same distribution and magnetic coefficients and
    different electric coefficients. *)
Lemma electric_derivative_independent_of_E_witness :
  exists out1 out2 : list Gauss.t,
    ode_system sample_ifftn sample_mask sample_Hermite_Fourier_system
      sample_plasma_current 3 1 1 2 1 1 2 kzero (sample_state 12 18)
      (sample_args 3 1 1 2 1 1 2) = Ok out1
    /\ ode_system sample_ifftn sample_mask sample_Hermite_Fourier_system
         sample_plasma_current 3 1 1 2 1 1 2 kzero
         (replicate 12 kone ++ replicate 9 kzero ++ replicate 9 (kadd kone kone))
         (sample_args 3 1 1 2 1 1 2) = Ok out2
    /\ dE_block 3 1 1 out1 = dE_block 3 1 1 out2.
Proof.
  apply (electric_derivative_independent_of_E (K := Gauss.t) sample_ifftn sample_mask
           sample_Hermite_Fourier_system sample_plasma_current
           3 1 1 2 1 1 2 kzero (sample_state 12 18)
           (replicate 12 kone ++ replicate 9 kzero ++ replicate 9 (kadd kone kone))
           (sample_args 3 1 1 2 1 1 2)
           (vec [kopp kone; kone]) (tabulate [3; 1; 3; 1] (fun _ => kone)) 2).
  - reflexivity.
  - reflexivity.
  - reflexivity.
  - reflexivity.
  - reflexivity.
  - lia.
  - apply sample_ifftn_returns.
  - apply sample_Hermite_Fourier_system_returns.
  - apply sample_plasma_current_returns.
  - reflexivity.
  - reflexivity.
  - reflexivity.
  - reflexivity.
Defined.

Lemma initial_state_round_trip_witness :
  let Ck_0 : array Gauss.t := tabulate [2 * 1 * 1 * 2; 1; 3; 1] (fun _ => kone) in
  let Fk_0 : array Gauss.t := tabulate [6; 1; 3; 1] (fun _ => kI) in
  unpack_state 3 1 1 2 1 1 2 (flatten Ck_0 ++ flatten Fk_0) = Ok (Ck_0, Fk_0).
Proof.
  intros Ck_0 Fk_0.
  destruct (initial_state_round_trip (K := Gauss.t) 3 1 1 2 1 1 2 Ck_0 Fk_0)
    as [_ Hsame].
  - reflexivity.
  - reflexivity.
  - apply Hsame; reflexivity.
Defined.

(** A trajectory of two samples of 30 coefficients each. *)
Lemma trajectory_blocks_match_state_blocks_witness :
  let sol : solution Gauss.t :=
    mkSol [kzero; kone] (tabulate [2; 2 * 2 * 1 * 1 * (1 * 3 * 1) + 6 * (1 * 3 * 1)]
                           (fun idx => kofnat (ravel [2; 30] idx))) in
  exists Ck Fk dCk Ck_t Fk_t,
    postprocess 3 1 1 2 1 1 2 sol = Ok (Ck, Fk, dCk)
    /\ unpack_state 3 1 1 2 1 1 2 (state_at 1 (ys sol)) = Ok (Ck_t, Fk_t)
    /\ data (row 1 Ck) = data Ck_t
    /\ data (row 1 Fk) = data Fk_t.
Proof.
  intros sol.
  apply (trajectory_blocks_match_state_blocks (K := Gauss.t) 3 1 1 2 1 1 2 sol 2 1).
  - lia.
  - lia.
  - lia.
  - lia.
  - reflexivity.
  - reflexivity.
  - apply tabulate_well_formed.
  - lia.
Defined.

Lemma derivative_accepts_initial_state_witness :
  let c := simulation_call (K := Gauss.t) sample_ifftn sample_mask
             sample_Hermite_Fourier_system sample_plasma_current
             3 1 1 2 1 1 2 4 kone Dopri5
             (tabulate [2 * 2 * 1 * 1; 1; 3; 1] (fun _ => kone))
             (tabulate [6; 1; 3; 1] (fun _ => kone)) kone kone (sample_params 3 1 1) in
  exists out, terms c (t0 c) (y0 c) (args c) = Ok out /\ length out = length (y0 c).
Proof.
  apply (derivative_accepts_initial_state (K := Gauss.t) sample_ifftn sample_mask
           sample_Hermite_Fourier_system sample_plasma_current
           3 1 1 2 1 1 2 4 kone Dopri5 (sample_parameters 3 1 1 2 1 1 2)
           (tabulate [2 * 2 * 1 * 1; 1; 3; 1] (fun _ => kone))
           (tabulate [6; 1; 3; 1] (fun _ => kone))
           (vec [kopp kone; kone]) (tabulate [3; 1; 3; 1] (fun _ => kone))
           kone kone (sample_params 3 1 1) 2).
  - reflexivity.
  - reflexivity.
  - reflexivity.
  - reflexivity.
  - reflexivity.
  - lia.
  - reflexivity.
  - reflexivity.
  - apply sample_ifftn_returns.
  - apply sample_Hermite_Fourier_system_returns.
  - apply sample_Hermite_Fourier_system_shaped.
  - apply sample_plasma_current_returns.
Defined.

(** An initializer whose dictionary has no entry [nabla]. *)
Lemma missing_parameter_stops_before_integration_witness :
  exists k,
    simulation (K := Gauss.t) sample_ifftn sample_mask sample_Hermite_Fourier_system
      sample_plasma_current
      (fun _ _ _ _ _ _ _ _ _ _ => Ok (delete "nabla" (sample_parameters 3 1 1 2 1 1 2)))
      sample_diffeqsolve sample_diagnostics ∅ 3 1 1 2 1 1 2 4 kone Dopri5 []
    = (Raise (KeyError k), []).
Proof.
  destruct (missing_parameter_stops_before_integration (K := Gauss.t)
              sample_ifftn sample_mask sample_Hermite_Fourier_system
              sample_plasma_current
              (fun _ _ _ _ _ _ _ _ _ _ =>
                 Ok (delete "nabla" (sample_parameters 3 1 1 2 1 1 2)))
              sample_diffeqsolve sample_diagnostics ∅ 3 1 1 2 1 1 2 4 kone Dopri5
              (delete "nabla" (sample_parameters 3 1 1 2 1 1 2))
              (tabulate [2 * 2 * 1 * 1; 1; 3; 1] (fun _ => kone))
              (tabulate [6; 1; 3; 1] (fun _ => kone)) kone "nabla" [])
    as (pre & k & post & _ & _ & _ & Hrun).
  - reflexivity.
  - reflexivity.
  - reflexivity.
  - reflexivity.
  - apply (list_elem_of_lookup_2 _ 13). reflexivity.
  - reflexivity.
  - exists k. exact Hrun.
Defined.

(** An integrator that returns states of a single coefficient. *)
Lemma integrator_state_length_checked_witness :
  exists e c,
    simulation (K := Gauss.t) sample_ifftn sample_mask sample_Hermite_Fourier_system
      sample_plasma_current sample_initialize
      (fun c => Ok (mkSol (saveat c) (tabulate [length (saveat c); 1] (fun _ => kzero))))
      sample_diagnostics ∅ 3 1 1 2 1 1 2 4 kone Dopri5 []
    = (Raise e, [c]).
Proof.
  pose (c := simulation_call (K := Gauss.t) sample_ifftn sample_mask
               sample_Hermite_Fourier_system sample_plasma_current
               3 1 1 2 1 1 2 4 kone Dopri5
               (tabulate [2 * 2 * 1 * 1; 1; 3; 1] (fun _ => kone))
               (tabulate [6; 1; 3; 1] (fun _ => kone)) kone kone (sample_params 3 1 1)).
  destruct (integrator_state_length_checked (K := Gauss.t)
              sample_ifftn sample_mask sample_Hermite_Fourier_system
              sample_plasma_current sample_initialize
              (fun c => Ok (mkSol (saveat c)
                              (tabulate [length (saveat c); 1] (fun _ => kzero))))
              sample_diagnostics ∅ 3 1 1 2 1 1 2 4 kone Dopri5
              (sample_parameters 3 1 1 2 1 1 2)
              (tabulate [2 * 2 * 1 * 1; 1; 3; 1] (fun _ => kone))
              (tabulate [6; 1; 3; 1] (fun _ => kone)) kone kone (sample_params 3 1 1)
              (mkSol (saveat c) (tabulate [length (saveat c); 1] (fun _ => kzero)))
              4 1 [])
    as [Hcall _].
  - reflexivity.
  - reflexivity.
  - reflexivity.
  - reflexivity.
  - reflexivity.
  - reflexivity.
  - reflexivity.
  - reflexivity.
  - reflexivity.
  - lia.
  - lia.
  - destruct Hcall as [e He]; [lia|]. exists e. eexists. exact He.
Defined.

(** The driver on a single Fourier mode. *)
Lemma perturbation_is_state_for_single_x_mode_witness :
  exists (output : dict Gauss.t) (Ck : array Gauss.t),
    fst (simulation sample_ifftn sample_mask sample_Hermite_Fourier_system
           sample_plasma_current sample_initialize sample_diffeqsolve sample_diagnostics
           ∅ 1 1 1 2 1 1 2 4 kone Dopri5 []) = Ok output
    /\ output !! "Ck" = Some (VArr Ck) /\ output !! "dCk" = Some (VArr Ck).
Proof.
  destruct (sample_run_Ok (K := Gauss.t) 1 1 1 2 1 1 2 4 kone Dopri5
              ltac:(lia) ltac:(lia) ltac:(lia) ltac:(lia) ltac:(lia) [])
    as (Ck0 & Fk0 & dCk0 & output & Hrun & _).
  destruct (perturbation_is_state_for_single_x_mode (K := Gauss.t) sample_ifftn
              sample_mask sample_Hermite_Fourier_system sample_plasma_current
              sample_initialize sample_diffeqsolve sample_diagnostics
              ∅ 1 1 2 1 1 2 4 kone Dopri5
              (sample_parameters 1 1 1 2 1 1 2) output [])
    as (Ck & HCk & HdCk).
  - reflexivity.
  - reflexivity.
  - reflexivity.
  - apply sample_diagnostics_preserves.
  - by rewrite Hrun.
  - exists output, Ck. split; [by rewrite Hrun|]. split; [exact HCk|exact HdCk].
Defined.
